(** * The relay pipeline of [scripts/relayer.js]

    A shallow embedding of the [ChainListener] class: the [ValueSet]
    subscription callback registered by [start] and the relay routine
    [handleValueSetEvent], with the proof poll loop it contains.

    The JavaScript is asynchronous and talks to three outside parties (the
    source chain, the Polymer proof service and the destination chain).  Each
    call that leaves the listener is an operation of the signature [E]; a
    handler is a finite interaction tree over [E] ([Prog]); an [Env] fixes
    what the outside answers.  [run] is the sequential reading (one callback
    from start to end), [step] and [run_schedule] the interleaved one, in
    which several callbacks share [processedEvents] and are resumed in an
    arbitrary order.

    Left out: the progress lines printed with [console.log] and [chalk].  The
    expressions evaluated inside those lines that can throw are kept
    ([ethers.toUtf8String], [Date.prototype.toISOString], the read of
    [result.status]).

    The two scripts as run from the command line follow: the start-up of
    [relayer.js] up to the subscriptions ([Startup]) and [main] of
    [scripts/setValue.js] ([SetValue]), as straight-line code over a list of
    actions ([Script]). *)

From stdpp Require Import base option list gmap sets strings pretty.
From Equations Require Import Equations.
From Stdlib Require Import ZArith NArith Lia Strings.Byte Ascii.

Set Warnings "-register-all".

(** ** JavaScript values and errors *)

(** A value taken from a parsed JSON body.  Object fields are kept in lookup
    order. *)
Inductive JsVal : Type :=
| JUndefined
| JNull
| JBool (b : bool)
| JNum (n : Z)
| JStr (s : string)
| JObj (fields : list (string * JsVal)).

Inductive Error : Type :=
| TypeError (msg : string)
| RangeError (msg : string)
| ErrorMsg (msg : string)       (* [new Error(msg)] thrown by the relayer *)
| External (msg : string).      (* raised by ethers, axios or the network *)

(** What an awaited promise (or a library call) settles to. *)
Inductive Outcome (X : Type) : Type :=
| Resolved (x : X)
| Rejected (e : Error).
Arguments Resolved {X} x.
Arguments Rejected {X} e.

Definition nullish (v : JsVal) : bool :=
  match v with
  | JUndefined | JNull => true
  | _ => false
  end.

(** [!!v] *)
Definition truthy (v : JsVal) : bool :=
  match v with
  | JUndefined | JNull => false
  | JBool b => b
  | JNum n => negb (n =? 0)%Z
  | JStr s => negb (bool_decide (s = ""))
  | JObj _ => true
  end.

Fixpoint assoc (k : string) (fields : list (string * JsVal)) : JsVal :=
  match fields with
  | [] => JUndefined
  | (k', v) :: rest => if bool_decide (k' = k) then v else assoc k rest
  end.

(** The value of [v.k] where no exception is raised: an own field of an
    object; [undefined] on a primitive (none of the names read by the relayer,
    [result], [status] and [proof], is a property of a primitive wrapper). *)
Definition field (v : JsVal) (k : string) : JsVal :=
  match v with
  | JObj fields => assoc k fields
  | _ => JUndefined
  end.

(** [v?.k] *)
Definition opt_get (v : JsVal) (k : string) : JsVal :=
  if nullish v then JUndefined else field v k.

(** [v.k], which throws on [undefined] and [null]. *)
Definition get (v : JsVal) (k : string) : Error + JsVal :=
  if nullish v
  then inl (TypeError ("Cannot read properties of undefined (reading '" +:+ k +:+ "')"))
  else inr (field v k).

(** ** Records of the libraries *)

Record ChainConfig : Type := {
  name : string;
  chainId : N;
  rpcUrl : string;
  contractAddress : string }.

Record AxiosResponse : Type := {
  status : Z;
  data : JsVal }.

Record Block : Type := { timestamp : Z }.

Record TransactionReceipt : Type := {
  index : N;
  gasUsed : N }.

Record Tx : Type := { hash : string }.

(** [event.log] of an ethers [ContractEventPayload]. *)
Record Log : Type := {
  blockHash : string;
  blockNumber : N;
  transactionHash : string;
  logIndex : N }.

(** The decoded arguments of a [ValueSet] event. *)
Record Args : Type := {
  sender : string;
  key : string;
  value : list byte;
  destinationChainId : N;
  nonce : N;
  hashedKey : string }.

Record ValueSetEvent : Type := {
  args : Args;
  log : Log }.

(** The object the callback hands to [handleValueSetEvent]. *)
Record EventData : Type := {
  d_args : Args;
  d_blockHash : string;
  d_blockNumber : N;
  d_transactionHash : string;
  d_logIndex : N;
  d_positionInBlock : N }.

Inductive RpcMethod : Type :=
| receipt_requestProof
| receipt_queryProof.

(** ** Operations *)

Inductive E : Type -> Type :=
(* this.processedEvents *)
| ProcessedHas (eventId : string) : E bool
| ProcessedAdd (eventId : string) : E unit
(* source chain *)
| GetBlock (chain : ChainConfig) (blockNumber : N) : E (Outcome (option Block))
| GetTransactionReceipt (chain : ChainConfig) (txHash : string)
    : E (Outcome (option TransactionReceipt))
(* library calls whose result is not computed here *)
| ToUtf8String (bytes : list byte) : E (Outcome string)
| BufferFrom (v : JsVal) : E (Outcome (list byte))
(* proof service *)
| AxiosPost (url : string) (method : RpcMethod) (params : list JsVal)
    : E (Outcome AxiosResponse)
| SetTimeout (ms : Z) : E unit
(* destination chain *)
| EstimateGas (chain : ChainConfig) (idx : Z) (proof : string) : E (Outcome N)
| SetValueFromSource (chain : ChainConfig) (idx : Z) (proof : string) (gasLimit : N)
    : E (Outcome Tx)
| TxWait (tx : Tx) : E (Outcome TransactionReceipt)
(* console.error *)
| ConsoleError (msg : string) (err : option Error) : E unit.

(** ** Handlers as interaction trees *)

Inductive Prog (R : Type) : Type :=
| Ret (r : R)
| Throw (e : Error)
| Vis {X : Type} (op : E X) (k : X -> Prog R).
Arguments Ret {R} r.
Arguments Throw {R} e.
Arguments Vis {R X} op k.

Fixpoint bind {A B : Type} (m : Prog A) (f : A -> Prog B) : Prog B :=
  match m with
  | Ret a => f a
  | Throw e => Throw e
  | Vis op k => Vis op (fun x => bind (k x) f)
  end.

#[export] Instance prog_ret : MRet Prog := fun _ r => Ret r.
#[export] Instance prog_bind : MBind Prog := fun _ _ f m => bind m f.

(** [try { p } catch (error) { h error }] *)
Fixpoint try_catch {R : Type} (p : Prog R) (h : Error -> Prog R) : Prog R :=
  match p with
  | Ret r => Ret r
  | Throw e => h e
  | Vis op k => Vis op (fun x => try_catch (k x) h)
  end.

Definition call {X : Type} (op : E X) : Prog X := Vis op Ret.

Definition settle {X : Type} (o : Outcome X) : Prog X :=
  match o with
  | Resolved x => Ret x
  | Rejected e => Throw e
  end.

(** [await op(...)], and a library call that may throw. *)
Definition await {X : Type} (op : E (Outcome X)) : Prog X :=
  call op ≫= settle.

Definition lift {X : Type} (r : Error + X) : Prog X :=
  match r with
  | inl e => Throw e
  | inr x => Ret x
  end.

(** ** Bytes on the wire: base64 and hex

    [Buffer.from(s, "base64")] and [buf.toString("hex")] belong to the Node
    runtime.  The decoder below is Node's: a character outside the alphabet
    is skipped, the URL-safe characters [-] and [_] are accepted, the first
    [=] ends the input, and a final group of two or three characters yields
    one or two bytes. *)

Definition byte_of_N (n : N) : byte :=
  default "000"%byte (Byte.of_N (n mod 256)%N).

Definition unbase64 (c : ascii) : option N :=
  let n := N_of_ascii c in
  if ((65 <=? n) && (n <=? 90))%N then Some (n - 65)%N
  else if ((97 <=? n) && (n <=? 122))%N then Some (n - 71)%N
  else if ((48 <=? n) && (n <=? 57))%N then Some (n + 4)%N
  else if ((n =? 43) || (n =? 45))%N then Some 62%N
  else if ((n =? 47) || (n =? 95))%N then Some 63%N
  else None.

Fixpoint sextets (s : string) : list N :=
  match s with
  | EmptyString => []
  | String c rest =>
      if bool_decide (c = "="%char) then []
      else match unbase64 c with
           | Some v => v :: sextets rest
           | None => sextets rest
           end
  end.

Definition byte1 (hi lo : N) : byte := byte_of_N ((hi mod 64) * 4 + lo / 16).
Definition byte2 (hi lo : N) : byte := byte_of_N ((hi mod 16) * 16 + lo / 4).
Definition byte3 (hi lo : N) : byte := byte_of_N ((hi mod 4) * 64 + lo).

Fixpoint pack (l : list N) : list byte :=
  match l with
  | a :: b :: c :: d :: rest => byte1 a b :: byte2 b c :: byte3 c d :: pack rest
  | [a; b; c] => [byte1 a b; byte2 b c]
  | [a; b] => [byte1 a b]
  | _ => []
  end.

(** [Buffer.from(s, "base64")] on a string. *)
Definition base64_decode (s : string) : list byte := pack (sextets s).

Definition base64_char (v : N) : ascii :=
  if (v <? 26)%N then ascii_of_N (v + 65)
  else if (v <? 52)%N then ascii_of_N (v + 71)
  else if (v <? 62)%N then ascii_of_N (v - 4)
  else if (v =? 62)%N then "+"%char
  else "/"%char.

(** [buf.toString("base64")]: the canonical encoding, with padding. *)
Fixpoint base64_encode (bs : list byte) : string :=
  match bs with
  | a :: b :: c :: rest =>
      let '(x, y, z) := (Byte.to_N a, Byte.to_N b, Byte.to_N c) in
      String (base64_char (x / 4))
        (String (base64_char ((x mod 4) * 16 + y / 16))
           (String (base64_char ((y mod 16) * 4 + z / 64))
              (String (base64_char (z mod 64)) (base64_encode rest))))
  | [a; b] =>
      let '(x, y) := (Byte.to_N a, Byte.to_N b) in
      String (base64_char (x / 4))
        (String (base64_char ((x mod 4) * 16 + y / 16))
           (String (base64_char ((y mod 16) * 4)) "="))
  | [a] =>
      let x := Byte.to_N a in
      String (base64_char (x / 4)) (String (base64_char ((x mod 4) * 16)) "==")
  | [] => ""
  end.

Definition hex_char (v : N) : ascii :=
  if (v <? 10)%N then ascii_of_N (v + 48) else ascii_of_N (v + 87).

(** [buf.toString("hex")] *)
Fixpoint to_hex (bs : list byte) : string :=
  match bs with
  | [] => ""
  | b :: rest =>
      String (hex_char (Byte.to_N b / 16))
        (String (hex_char (Byte.to_N b mod 16)) (to_hex rest))
  end.

Definition unhex (c : ascii) : option N :=
  let n := N_of_ascii c in
  if ((48 <=? n) && (n <=? 57))%N then Some (n - 48)%N
  else if ((97 <=? n) && (n <=? 102))%N then Some (n - 87)%N
  else if ((65 <=? n) && (n <=? 70))%N then Some (n - 55)%N
  else None.

Fixpoint from_hex (s : string) : option (list byte) :=
  match s with
  | EmptyString => Some []
  | String h (String l rest) =>
      hi ← unhex h; lo ← unhex l; bs ← from_hex rest;
      Some (byte_of_N (hi * 16 + lo) :: bs)
  | String _ EmptyString => None
  end.

(** The bytes ethers encodes for a [bytes] argument given as a hex string
    ([getBytes]): the prefix [0x], then two digits a byte. *)
Definition getBytes (s : string) : option (list byte) :=
  match s with
  | String "0" (String "x" digits) => from_hex digits
  | _ => None
  end.

(** ** The outside world *)

(** One answer for each call site of a callback, and one for each poll of the
    proof service, numbered from 0 in the order the polls are issued. *)
Record Env : Type := {
  on_getBlock : Outcome (option Block);
  on_getTransactionReceipt : Outcome (option TransactionReceipt);
  on_toUtf8String : Outcome string;
  on_requestProof : Outcome AxiosResponse;
  on_queryProof : nat -> Outcome AxiosResponse;
  on_bufferFrom : Outcome (list byte);
  on_estimateGas : Outcome N;
  on_setValueFromSource : Outcome Tx;
  on_wait : Outcome TransactionReceipt }.

(** An operation together with the answer it got. *)
Inductive Event : Type :=
| Ev {X : Type} (op : E X) (ans : X).

Definition Registry : Type := gset string.

(** Answers [op] for a callback that has issued [polls] polls so far; the
    result is the answer, the registry and the poll count afterwards. *)
Definition answer (env : Env) {X : Type} (op : E X)
    (reg : Registry) (polls : nat) : X * Registry * nat :=
  match op in E X return X * Registry * nat with
  | ProcessedHas eventId => (bool_decide (eventId ∈ reg), reg, polls)
  | ProcessedAdd eventId => (tt, {[ eventId ]} ∪ reg, polls)
  | GetBlock _ _ => (on_getBlock env, reg, polls)
  | GetTransactionReceipt _ _ => (on_getTransactionReceipt env, reg, polls)
  | ToUtf8String _ => (on_toUtf8String env, reg, polls)
  | BufferFrom _ => (on_bufferFrom env, reg, polls)
  | AxiosPost _ receipt_requestProof _ => (on_requestProof env, reg, polls)
  | AxiosPost _ receipt_queryProof _ => (on_queryProof env polls, reg, S polls)
  | SetTimeout _ => (tt, reg, polls)
  | EstimateGas _ _ _ => (on_estimateGas env, reg, polls)
  | SetValueFromSource _ _ _ _ => (on_setValueFromSource env, reg, polls)
  | TxWait _ => (on_wait env, reg, polls)
  | ConsoleError _ _ => (tt, reg, polls)
  end.

Inductive Completion (R : Type) : Type :=
| Returned (r : R)
| Thrown (e : Error).
Arguments Returned {R} r.
Arguments Thrown {R} e.

Record Run (R : Type) : Type := {
  completion : Completion R;
  registry : Registry;
  polls_issued : nat;
  trace : list Event }.
Arguments completion {R} _.
Arguments registry {R} _.
Arguments polls_issued {R} _.
Arguments trace {R} _.

(** One handler from start to end, nothing else running in between. *)
Fixpoint run {R : Type} (env : Env) (p : Prog R) (reg : Registry) (polls : nat)
    : Run R :=
  match p with
  | Ret r => Build_Run R (Returned r) reg polls []
  | Throw e => Build_Run R (Thrown e) reg polls []
  | Vis op k =>
      let '(x, reg', polls') := answer env op reg polls in
      let r := run env (k x) reg' polls' in
      Build_Run R (completion r) (registry r) (polls_issued r) (Ev op x :: trace r)
  end.

(** What a trace contains, told from the operations. *)
Definition op_is_poll {X : Type} (op : E X) : bool :=
  match op with
  | AxiosPost _ receipt_queryProof _ => true
  | _ => false
  end.

Definition op_is_proof_service_call {X : Type} (op : E X) : bool :=
  match op with
  | AxiosPost _ _ _ => true
  | _ => false
  end.

Definition op_is_destination_call {X : Type} (op : E X) : bool :=
  match op with
  | EstimateGas _ _ _ | SetValueFromSource _ _ _ _ | TxWait _ => true
  | _ => false
  end.

(** The destination submission step: the transaction is dispatched. *)
Definition op_is_submission {X : Type} (op : E X) : bool :=
  match op with
  | SetValueFromSource _ _ _ _ => true
  | _ => false
  end.

Definition op_is_registry {X : Type} (op : E X) : bool :=
  match op with
  | ProcessedHas _ | ProcessedAdd _ => true
  | _ => false
  end.

Definition op_is_error_log {X : Type} (op : E X) : bool :=
  match op with
  | ConsoleError _ _ => true
  | _ => false
  end.

(** A timer armed with another delay than [d]. *)
Definition op_delay_differs (d : Z) {X : Type} (op : E X) : bool :=
  match op with
  | SetTimeout ms => negb (ms =? d)%Z
  | _ => false
  end.

Definition op_is_estimate {X : Type} (op : E X) : bool :=
  match op with
  | EstimateGas _ _ _ => true
  | _ => false
  end.

Definition on_op (f : forall X, E X -> bool) (ev : Event) : bool :=
  match ev with
  | Ev op _ => f _ op
  end.

Definition is_poll : Event -> bool := on_op (@op_is_poll).
Definition is_proof_service_call : Event -> bool := on_op (@op_is_proof_service_call).
Definition is_destination_call : Event -> bool := on_op (@op_is_destination_call).
Definition is_submission : Event -> bool := on_op (@op_is_submission).
Definition is_error_log : Event -> bool := on_op (@op_is_error_log).
Definition is_estimate : Event -> bool := on_op (@op_is_estimate).

(** The submission was confirmed: [tx.wait()] resolved. *)
Definition is_confirmation (ev : Event) : bool :=
  match ev with
  | Ev (TxWait _) (Resolved _) => true
  | _ => false
  end.

(** The configuration error was reported: [console.error] with a message and
    no error object. *)
Definition is_drop_log (ev : Event) : bool :=
  match ev with
  | Ev (ConsoleError _ None) _ => true
  | _ => false
  end.

(** The registry lookup found the identity. *)
Definition is_registry_hit (ev : Event) : bool :=
  match ev with
  | Ev (ProcessedHas _) true => true
  | _ => false
  end.

(** The delays awaited, in order. *)
Definition delay_of (ev : Event) : option Z :=
  match ev with
  | Ev (SetTimeout ms) _ => Some ms
  | _ => None
  end.

Definition delays (t : list Event) : list Z := omap delay_of t.

Definition count (f : Event -> bool) (t : list Event) : nat :=
  length (List.filter f t).

Definition polls (t : list Event) : nat := count is_poll t.
Definition submissions (t : list Event) : nat := count is_submission t.

(** [p] performs at most [n] operations selected by [f], whatever it is
    answered. *)
Inductive AtMost (f : forall X, E X -> bool) {R : Type} : nat -> Prog R -> Prop :=
| AtMost_Ret n r : AtMost f n (Ret r)
| AtMost_Throw n e : AtMost f n (Throw e)
| AtMost_skip n X (op : E X) k :
    f X op = false -> (forall x, AtMost f n (k x)) -> AtMost f n (Vis op k)
| AtMost_spend n X (op : E X) k :
    (forall x, AtMost f n (k x)) -> AtMost f (S n) (Vis op k).

(** [t] in front of what [r] did. *)
Definition after {R : Type} (t : list Event) (r : Run R) : Run R :=
  {| completion := completion r;
     registry := registry r;
     polls_issued := polls_issued r;
     trace := t ++ trace r |}.

(** ** The listener *)

Definition POLYMER_API_URL : string := "https://proof.sepolia.polymer.zone".

Definition digit (c : ascii) : option Z :=
  let n := N_of_ascii c in
  if ((48 <=? n) && (n <=? 57))%N then Some (Z.of_N n - 48)%Z else None.

Fixpoint parse_digits (acc : Z) (s : string) : Z :=
  match s with
  | EmptyString => acc
  | String c rest =>
      match digit c with
      | Some d => parse_digits (acc * 10 + d) rest
      | None => acc
      end
  end.

(** The Number that the integer [n >= 0] is read as: [n] itself below 2^53,
    and above the nearest integer with 53 significant bits, the even one of
    two that are as near.  [None] is [Infinity]. *)
Definition to_double (n : Z) : option Z :=
  if (n <? 9007199254740992)%Z then Some n
  else
    let e := (Z.log2 n - 52)%Z in
    let q := Z.shiftr n e in
    let r := (n - Z.shiftl q e)%Z in
    let half := Z.shiftl 1 (e - 1) in
    let q' := if (half <? r)%Z || ((r =? half)%Z && Z.odd q) then (q + 1)%Z else q in
    let m := Z.shiftl q' e in
    if (Z.log2 m <? 1024)%Z then Some m else None.

(** [parseInt(s)] on the strings that reach it, the decimal digits printed by
    [BigInt.prototype.toString]: the integer they denote, as the Number that
    Node reads it as.  [NaN] and [Infinity] are sent as [null] in a JSON
    body. *)
Definition parseInt (s : string) : JsVal :=
  match s with
  | EmptyString => JNull
  | String c _ =>
      match digit c with
      | Some _ =>
          match to_double (parse_digits 0 s) with
          | Some n => JNum n
          | None => JNull
          end
      | None => JNull
      end
  end.

(** [new Date(ms).toISOString()], which throws outside the range of [Date]. *)
Definition toISOString (ms : Z) : Error + unit :=
  if (Z.abs ms <=? 8640000000000000)%Z then inr tt
  else inl (RangeError "Invalid time value").

(** [`${event.log.blockHash}-${event.log.transactionHash}-${event.log.index}`] *)
Definition eventId_of (l : Log) : string :=
  blockHash l +:+ "-" +:+ transactionHash l +:+ "-" +:+ pretty (logIndex l).

(** The test of the poll loop,
    [!proofResponse?.data || !proofResponse?.data?.result?.proof]. *)
Definition opt_data (proofResponse : option AxiosResponse) : JsVal :=
  match proofResponse with
  | None => JUndefined
  | Some r => data r
  end.

Definition not_ready (proofResponse : option AxiosResponse) : bool :=
  negb (truthy (opt_data proofResponse))
  || negb (truthy (opt_get (opt_get (opt_data proofResponse) "result") "proof")).

Definition ProofTimeout : Error := ErrorMsg ">  Failed to get proof from Polymer API".

(** The [while] loop of [handleValueSetEvent] (lines 237 to 259), entered with
    the [delay] computed before it. *)
Equations awaitProof_loop (delay : Z) (jobId : JsVal)
    (proofResponse : option AxiosResponse) (attempts : nat)
    : Prog (option AxiosResponse) by wf (10 - attempts) lt :=
awaitProof_loop delay jobId proofResponse attempts with not_ready proofResponse := {
  | false := Ret proofResponse
  | true with decide (10 ≤ attempts)%nat := {
    | left _ := Throw ProofTimeout
    | right _ :=
        call (SetTimeout delay);;
        proofResponse ← await (AxiosPost POLYMER_API_URL receipt_queryProof [jobId]);
        result ← lift (get (data proofResponse) "result");
        _ ← lift (get result "status");
        awaitProof_loop delay jobId (Some proofResponse) (S attempts) } }.
Next Obligation. lia. Qed.

(** Lines 234 to 259: the declarations before the loop, and the loop. *)
Definition awaitProof (jobId : JsVal) : Prog (option AxiosResponse) :=
  let proofResponse : option AxiosResponse := None in
  let attempts := 0 in
  let delay := if bool_decide (attempts = 0) then 10000%Z else 5000%Z in
  awaitProof_loop delay jobId proofResponse attempts.

(** [Buffer.from(proof, "base64")]; what Node makes of a value that is not a
    string (a buffer for an array-like, a [TypeError] otherwise) is left to
    the environment. *)
Definition bufferFrom (proof : JsVal) : Prog (list byte) :=
  match proof with
  | JStr s => Ret (base64_decode s)
  | _ => await (BufferFrom proof)
  end.

(** Lines 261 to 308: the proof is decoded and handed to the destination
    contract. *)
Definition submit (destinationChain : ChainConfig)
    (proofResponse : option AxiosResponse) : Prog unit :=
  result ← lift (get (opt_data proofResponse) "result");
  proof ← lift (get result "proof");
  bytes ← bufferFrom proof;
  let proofInBytes := "0x" +:+ to_hex bytes in
  estimatedGas ← await (EstimateGas destinationChain 0 proofInBytes);
  tx ← await (SetValueFromSource destinationChain 0 proofInBytes estimatedGas);
  _ ← await (TxWait tx);
  Ret tt.

(** The object built at lines 146 to 160. *)
Definition data_of (event : ValueSetEvent) (positionInBlock : N) : EventData :=
  {| d_args := args event;
     d_blockHash := blockHash (log event);
     d_blockNumber := blockNumber (log event);
     d_transactionHash := transactionHash (log event);
     d_logIndex := logIndex (log event);
     d_positionInBlock := positionInBlock |}.

Section ChainListener.

(** The activated chains, [Object.values(CHAINS)]. *)
Variable CHAINS : list ChainConfig.
(** [this.config] *)
Variable config : ChainConfig.

Definition handleValueSetEvent (input : EventData) : Prog unit :=
  let destinationChainId : string := pretty (destinationChainId (d_args input)) in
  match find (fun chain => bool_decide (pretty (chainId chain) = destinationChainId)) CHAINS with
  | None =>
      call (ConsoleError
              ("No configuration found for destination chain ID: " +:+ destinationChainId)
              None)
  | Some destinationChain =>
      proofRequest ← await (AxiosPost POLYMER_API_URL receipt_requestProof
                              [JNum (Z.of_N (chainId config));
                               parseInt destinationChainId;
                               JNum (Z.of_N (d_blockNumber input));
                               JNum (Z.of_N (d_positionInBlock input))]);
      if bool_decide (status proofRequest ≠ 200%Z)
      then Throw (ErrorMsg ("Failed to get proof from Polymer API. Status code: "
                            +:+ pretty (status proofRequest)))
      else
        jobId ← lift (get (data proofRequest) "result");
        proofResponse ← awaitProof jobId;
        submit destinationChain proofResponse
  end.

(** [receipt.index] *)
Definition receipt_index (receipt : option TransactionReceipt) : Prog N :=
  match receipt with
  | None => Throw (TypeError "Cannot read properties of null (reading 'index')")
  | Some r => Ret (index r)
  end.

(** [if (block) { ... new Date(block.timestamp * 1000).toISOString() ... }] *)
Definition block_time (block : option Block) : Prog unit :=
  match block with
  | None => Ret tt
  | Some b => lift (toISOString (timestamp b * 1000))
  end.

(** The inner [try] block of the callback (lines 145 to 161). *)
Definition relay (event : ValueSetEvent) (positionInBlock : N) : Prog unit :=
  handleValueSetEvent (data_of event positionInBlock);;
  call (ProcessedAdd (eventId_of (log event))).

(** Lines 83 to 143: the block, the receipt and what is printed of the
    event; the result is [positionInBlock]. *)
Definition describe (event : ValueSetEvent) : Prog N :=
  block ← await (GetBlock config (blockNumber (log event)));
  receipt ← await (GetTransactionReceipt config (transactionHash (log event)));
  positionInBlock ← receipt_index receipt;
  _ ← await (ToUtf8String (value (args event)));
  block_time block;;
  Ret positionInBlock.

(** The outer [try] block of the callback (lines 75 to 167). *)
Definition process (event : ValueSetEvent) : Prog unit :=
  let eventId := eventId_of (log event) in
  seen ← call (ProcessedHas eventId);
  if seen : bool then Ret tt
  else
    positionInBlock ← describe event;
    try_catch (relay event positionInBlock)
      (fun error => call (ConsoleError "Error handling ValueSet event:" (Some error))).

(** The callback that [start] registers for [ValueSet]. *)
Definition onValueSet (event : ValueSetEvent) : Prog unit :=
  try_catch (process event)
    (fun error => call (ConsoleError "Error processing event:" (Some error))).

End ChainListener.

(** ** Deliveries one after the other *)

Record Delivery : Type := {
  delivered : ValueSetEvent;
  world : Env }.

Definition deliver (CHAINS : list ChainConfig) (config : ChainConfig)
    (reg : Registry) (d : Delivery) : Run unit :=
  run (world d) (onValueSet CHAINS config (delivered d)) reg 0.

Fixpoint deliver_all (CHAINS : list ChainConfig) (config : ChainConfig)
    (reg : Registry) (ds : list Delivery) : list (Run unit) :=
  match ds with
  | [] => []
  | d :: rest =>
      let r := deliver CHAINS config reg d in
      r :: deliver_all CHAINS config (registry r) rest
  end.

(** ** Deliveries in flight together

    A callback is suspended at each operation; a step resumes one of the
    callbacks with the answer to its pending operation.  The callbacks share
    the registry and nothing else.  This is finer than JavaScript, where a
    callback runs without interruption from one [await] to the next; what
    matters below is the order of the registry operations, read in the first
    slice of a callback and written in its last, with awaited calls in
    between. *)

Record Task : Type := {
  t_env : Env;
  t_polls : nat;
  t_prog : Prog unit;
  t_trace : list Event }.

Record System : Type := {
  sys_registry : Registry;
  sys_tasks : list Task }.

Definition spawn (CHAINS : list ChainConfig) (config : ChainConfig) (d : Delivery) : Task :=
  {| t_env := world d;
     t_polls := 0;
     t_prog := onValueSet CHAINS config (delivered d);
     t_trace := [] |}.

Definition step_task (reg : Registry) (t : Task) : Registry * Task :=
  match t_prog t with
  | Vis op k =>
      let '(x, reg', polls') := answer (t_env t) op reg (t_polls t) in
      (reg', {| t_env := t_env t;
                t_polls := polls';
                t_prog := k x;
                t_trace := t_trace t ++ [Ev op x] |})
  | _ => (reg, t)
  end.

Definition step (i : nat) (s : System) : System :=
  match sys_tasks s !! i with
  | Some t =>
      let '(reg', t') := step_task (sys_registry s) t in
      {| sys_registry := reg'; sys_tasks := <[ i := t' ]> (sys_tasks s) |}
  | None => s
  end.

Definition run_schedule (schedule : list nat) (s : System) : System :=
  foldl (fun s i => step i s) s schedule.

Definition finished (t : Task) : bool :=
  match t_prog t with
  | Vis _ _ => false
  | _ => true
  end.

(** The deliveries [ds] have all arrived and none has started. *)
Definition start (CHAINS : list ChainConfig) (config : ChainConfig)
    (reg : Registry) (ds : list Delivery) : System :=
  {| sys_registry := reg; sys_tasks := map (spawn CHAINS config) ds |}.

(** The relay attempts that reached the destination submission step. *)
Definition sys_submissions (s : System) : nat :=
  sum_list (map (fun t => submissions (t_trace t)) (sys_tasks s)).

(** A callback that has not started: its first operation is the registry
    lookup, and it is over at once if the lookup finds the identity. *)
Definition not_started (p : Prog unit) : Prop :=
  match p with
  | Vis op k =>
      match op in E X return (X -> Prog unit) -> Prop with
      | ProcessedHas _ => fun k => match k true with Vis _ _ => False | _ => True end
      | _ => fun _ => False
      end k
  | _ => False
  end.

(** What holds of every callback in flight: it has submitted at most once,
    counting what it may still do, and a callback that found the identity in
    the registry has done nothing else and is over. *)
Definition in_flight (t : Task) : Prop :=
  (exists m, AtMost (@op_is_submission) m (t_prog t) /\ submissions (t_trace t) + m ≤ 1)
  /\ ((t_trace t = [] /\ not_started (t_prog t))
      \/ (exists ev rest, t_trace t = ev :: rest
                          /\ (is_registry_hit ev = true -> rest = [] /\ finished t = true))).

(** ** Vocabulary of the statements *)

(** [proofResponse.data.result.status], the read made after each poll. *)
Definition read_status (r : AxiosResponse) : Error + JsVal :=
  match get (data r) "result" with
  | inl e => inl e
  | inr result => get result "status"
  end.

(** The body carries a result, so that its status can be read. *)
Definition has_result (r : AxiosResponse) : bool :=
  negb (nullish (data r)) && negb (nullish (field (data r) "result")).

(** The response carries a ready proof: it ends the loop. *)
Definition ready (r : AxiosResponse) : bool := negb (not_ready (Some r)).

(** A poll answered with a ready proof. *)
Definition is_ready_poll (ev : Event) : bool :=
  match ev with
  | Ev (AxiosPost _ receipt_queryProof _) (Resolved r) => ready r
  | _ => false
  end.

(** Poll [i] is answered, with a result and without a proof. *)
Definition pending_at (env : Env) (i : nat) : bool :=
  match on_queryProof env i with
  | Resolved r => has_result r && negb (ready r)
  | Rejected _ => false
  end.

(** The events of [m] polls from poll [a] on, each after a delay [d]. *)
Fixpoint poll_events (env : Env) (d : Z) (jobId : JsVal) (a m : nat) : list Event :=
  match m with
  | 0 => []
  | S m' =>
      Ev (SetTimeout d) tt
      :: Ev (AxiosPost POLYMER_API_URL receipt_queryProof [jobId]) (on_queryProof env a)
      :: poll_events env d jobId (S a) m'
  end.

(** The schedule in the words of the specification: 10000 ms before the first
    poll, 5000 ms before each later one, from the current attempt counter. *)
Definition spec_delay (attempts : nat) : Z :=
  if bool_decide (attempts = 0) then 10000%Z else 5000%Z.

Definition spec_delays (n : nat) : list Z := map spec_delay (seq 0 n).

(** The destination chain of an event, as line 179 finds it. *)
Definition destination_of (CHAINS : list ChainConfig) (a : Args) : option ChainConfig :=
  find (fun chain => bool_decide (pretty (chainId chain) = pretty (destinationChainId a)))
    CHAINS.

(** The proof request of lines 198 to 216. *)
Definition request_of (config : ChainConfig) (input : EventData)
    : E (Outcome AxiosResponse) :=
  AxiosPost POLYMER_API_URL receipt_requestProof
    [JNum (Z.of_N (chainId config));
     parseInt (pretty (destinationChainId (d_args input)));
     JNum (Z.of_N (d_blockNumber input));
     JNum (Z.of_N (d_positionInBlock input))].

(** The error [e] is raised while the callback handles a fresh event: by the
    block that inspects the event, or by [handleValueSetEvent]. *)
Definition raised (CHAINS : list ChainConfig) (config : ChainConfig) (env : Env)
    (event : ValueSetEvent) (reg : Registry) (e : Error) : Prop :=
  (eventId_of (log event) ∉ reg) /\
  (match completion (run env (describe config event) reg 0) with
   | Thrown e' => e' = e
   | Returned positionInBlock =>
       completion (run env (handleValueSetEvent CHAINS config
                              (data_of event positionInBlock)) reg 0) = Thrown e
   end).

(** What the callback does for an identity already in the registry. *)
Definition noop (id : string) (reg : Registry) : Run unit :=
  Build_Run unit (Returned tt) reg 0 [Ev (ProcessedHas id) true].

(** ** A concrete deployment

    The two chains of [scripts/setValue.js], a [ValueSet] event observed on
    Optimism Sepolia, and answers of the outside world. *)

Definition optimism_sepolia : ChainConfig :=
  {| name := "Optimism Sepolia"; chainId := 11155420;
     rpcUrl := "https://sepolia.optimism.io"; contractAddress := "0x0a" |}.

Definition base_sepolia : ChainConfig :=
  {| name := "Base Sepolia"; chainId := 84532;
     rpcUrl := "https://sepolia.base.org"; contractAddress := "0x0b" |}.

Definition sample_chains : list ChainConfig := [optimism_sepolia; base_sepolia].

(** An event of transaction [0x7a], log 2 of block 100, bound for chain [dest]. *)
Definition sample_event (dest : N) : ValueSetEvent :=
  {| args := {| sender := "0x51"; key := "greeting"; value := ["h"; "i"]%byte;
                destinationChainId := dest; nonce := 1; hashedKey := "0xc3" |};
     log := {| blockHash := "0xb1"; blockNumber := 100;
               transactionHash := "0x7a"; logIndex := 2 |} |}.

Definition sample_id : string := "0xb1-0x7a-2".

Definition pending_response : AxiosResponse :=
  {| status := 200;
     data := JObj [("jsonrpc", JStr "2.0"); ("id", JNum 1);
                   ("result", JObj [("status", JStr "pending")])] |}.

(** The proof is the base64 of the five bytes of [hello]. *)
Definition complete_response : AxiosResponse :=
  {| status := 200;
     data := JObj [("jsonrpc", JStr "2.0"); ("id", JNum 1);
                   ("result", JObj [("status", JStr "complete");
                                    ("proof", JStr "aGVsbG8=")])] |}.

(** A JSON-RPC error body: HTTP 200, an [error] member and no [result]. *)
Definition error_response : AxiosResponse :=
  {| status := 200;
     data := JObj [("jsonrpc", JStr "2.0"); ("id", JNum 1);
                   ("error", JObj [("code", JNum (-32000));
                                   ("message", JStr "job not found")])] |}.

(** Everything succeeds; the polls are answered by [query]. *)
Definition sample_env (query : nat -> Outcome AxiosResponse) : Env :=
  {| on_getBlock := Resolved (Some {| timestamp := 1700000000 |});
     on_getTransactionReceipt := Resolved (Some {| index := 3; gasUsed := 21000 |});
     on_toUtf8String := Resolved "hi";
     on_requestProof :=
       Resolved {| status := 200; data := JObj [("jsonrpc", JStr "2.0"); ("result", JNum 77)] |};
     on_queryProof := query;
     on_bufferFrom := Rejected (TypeError "The first argument must be of type string");
     on_estimateGas := Resolved 50000%N;
     on_setValueFromSource := Resolved {| hash := "0xdd" |};
     on_wait := Resolved {| index := 0; gasUsed := 48211 |} |}.

(** The proof is ready at poll [k] (counted from 0), pending before. *)
Definition ready_at (k : nat) (i : nat) : Outcome AxiosResponse :=
  if decide (i < k) then Resolved pending_response else Resolved complete_response.

Definition never_ready (i : nat) : Outcome AxiosResponse := Resolved pending_response.

(** The service answers poll [k] with an error body, pending before. *)
Definition error_at (k : nat) (i : nat) : Outcome AxiosResponse :=
  if decide (i < k) then Resolved pending_response else Resolved error_response.

(** The same world, except that gas estimation reverts. *)
Definition reverting_env (query : nat -> Outcome AxiosResponse) : Env :=
  {| on_getBlock := on_getBlock (sample_env query);
     on_getTransactionReceipt := on_getTransactionReceipt (sample_env query);
     on_toUtf8String := on_toUtf8String (sample_env query);
     on_requestProof := on_requestProof (sample_env query);
     on_queryProof := query;
     on_bufferFrom := on_bufferFrom (sample_env query);
     on_estimateGas := Rejected (External "execution reverted");
     on_setValueFromSource := on_setValueFromSource (sample_env query);
     on_wait := on_wait (sample_env query) |}.

(** The same world, except that the transaction is sent and the wait for its
    confirmation fails. *)
Definition unconfirmed_env (query : nat -> Outcome AxiosResponse) : Env :=
  {| on_getBlock := on_getBlock (sample_env query);
     on_getTransactionReceipt := on_getTransactionReceipt (sample_env query);
     on_toUtf8String := on_toUtf8String (sample_env query);
     on_requestProof := on_requestProof (sample_env query);
     on_queryProof := query;
     on_bufferFrom := on_bufferFrom (sample_env query);
     on_estimateGas := on_estimateGas (sample_env query);
     on_setValueFromSource := on_setValueFromSource (sample_env query);
     on_wait := Rejected (External "transaction was replaced") |}.

(** ** Vocabulary of the further properties *)

Definition op_is_timer {X : Type} (op : E X) : bool :=
  match op with
  | SetTimeout _ => true
  | _ => false
  end.

Definition is_timer : Event -> bool := on_op (@op_is_timer).

(** The proof request did not yield a job: the call was rejected, the status
    is not 200, or [data] is [null] or [undefined] (the body is the JSON
    [null]), so that the read of [data.result] throws.  An empty body is not
    among these: axios hands it over as the empty string, of which [result]
    is [undefined]. *)
Definition request_failed (o : Outcome AxiosResponse) : bool :=
  match o with
  | Rejected _ => true
  | Resolved q => bool_decide (status q ≠ 200%Z) || nullish (data q)
  end.

(** The block timestamp, in milliseconds, is within the range of [Date]. *)
Definition printable (block : option Block) : Prop :=
  match block with
  | None => True
  | Some b => (Z.abs (timestamp b * 1000) ≤ 8640000000000000)%Z
  end.

(** Every operation that [p] may perform, whatever it is answered, satisfies
    [P]. *)
Fixpoint all_ops {R : Type} (P : forall X, E X -> Prop) (p : Prog R) : Prop :=
  match p with
  | Vis op k => P _ op /\ forall x, all_ops P (k x)
  | _ => True
  end.

Definition ev_op (P : forall X, E X -> Prop) (ev : Event) : Prop :=
  match ev with
  | Ev op _ => P _ op
  end.

(** The operation is a timer or a poll of job [jobId] at the proof service. *)
Definition polls_job (jobId : JsVal) {X : Type} (op : E X) : Prop :=
  match op with
  | SetTimeout _ => True
  | AxiosPost url method params =>
      url = POLYMER_API_URL /\ method = receipt_queryProof /\ params = [jobId]
  | _ => False
  end.

(** If the operation is a poll, it is a poll of job [jobId]. *)
Definition poll_of (jobId : JsVal) {X : Type} (op : E X) : Prop :=
  match op with
  | AxiosPost url receipt_queryProof params => url = POLYMER_API_URL /\ params = [jobId]
  | _ => True
  end.

(** If the operation is a call to the destination contract, it goes to the
    contract of chain [c] with index 0, and a transaction carries as gas limit
    the estimate [estimate] (when there is one). *)
Definition aimed_at (c : ChainConfig) (estimate : Outcome N) {X : Type} (op : E X) : Prop :=
  match op with
  | EstimateGas c' idx _ => c' = c /\ idx = 0%Z
  | SetValueFromSource c' idx _ gasLimit =>
      c' = c /\ idx = 0%Z /\ estimate = Resolved gasLimit
  | _ => True
  end.

(** The string contains no hyphen, as is the case of a hash in hexadecimal. *)
Fixpoint hyphen_free (s : string) : bool :=
  match s with
  | EmptyString => true
  | String c rest => negb (bool_decide (c = "-"%char)) && hyphen_free rest
  end.

(** If the operation adds an identity to the registry, the identity is in [ids]. *)
Definition adds_in (ids : gset string) {X : Type} (op : E X) : Prop :=
  match op with
  | ProcessedAdd id => id ∈ ids
  | _ => True
  end.

(** The identities of the events delivered. *)
Definition identities (ds : list Delivery) : gset string :=
  list_to_set (map (fun d => eventId_of (log (delivered d))) ds).

(** The operation is not the registry lookup. *)
Definition op_not_lookup {X : Type} (op : E X) : Prop :=
  match op with
  | ProcessedHas _ => False
  | _ => True
  end.

(** The operation does not write the registry. *)
Definition op_not_add {X : Type} (op : E X) : Prop :=
  match op with
  | ProcessedAdd _ => False
  | _ => True
  end.

(** The callback returns as soon as it has written the registry. *)
Fixpoint add_returns {R : Type} (p : Prog R) : Prop :=
  match p with
  | Vis op k =>
      match op in E X return (X -> Prog R) -> Prop with
      | ProcessedAdd _ => fun k => match k tt with Ret _ => True | _ => False end
      | _ => fun _ => True
      end k
      /\ forall x, add_returns (k x)
  | _ => True
  end.

(** The callback [t] has the registry lookup behind it and goes through
    [events]: what it has done, followed by what it does from here on,
    whatever the registry holds by then, is [events]. *)
Definition on_track (events : list Event) (t : Task) : Prop :=
  t_trace t ≠ []
  /\ all_ops (@op_not_lookup) (t_prog t)
  /\ forall reg, events = t_trace t ++ trace (run (t_env t) (t_prog t) reg (t_polls t)).

(** * The scripts as run from the command line

    [relayer.js] from its first line to the subscriptions, and [setValue.js]:
    straight-line code around the calls to ethers and the prompts.  What a
    script does is recorded as a list of actions, next to how it ended; the
    outside answers as a [World] of the script says.  Progress lines are
    left out. *)

(** A script over the actions [A]: what it did, and how it ended. *)
Definition Script (A R : Type) : Type := list A * Completion R.

Definition throw {A R : Type} (e : Error) : Script A R := ([], Thrown e).

Definition perform {A X : Type} (a : A) (o : Outcome X) : Script A X :=
  ([a], match o with
        | Resolved x => Returned x
        | Rejected e => Thrown e
        end).

Definition script_bind {A R S : Type} (m : Script A R) (f : R -> Script A S)
    : Script A S :=
  match m with
  | (acts, Returned r) => (acts ++ (f r).1, (f r).2)
  | (acts, Thrown e) => (acts, Thrown e)
  end.

(** [try { m } catch (error) { h error }] *)
Definition script_catch {A R : Type} (m : Script A R) (h : Error -> Script A R)
    : Script A R :=
  match m with
  | (acts, Thrown e) => (acts ++ (h e).1, (h e).2)
  | (acts, Returned r) => (acts, Returned r)
  end.

#[export] Instance script_ret {A : Type} : MRet (Script A) :=
  fun _ r => ([], Returned r).
#[export] Instance script_mbind {A : Type} : MBind (Script A) :=
  fun _ _ f m => script_bind m f.

(** [!!process.env[envVar]] *)
Definition env_set (env : gmap string string) (envVar : string) : bool :=
  match env !! envVar with
  | Some s => negb (bool_decide (s = ""))
  | None => false
  end.

(** The loop over [requiredEnvVars], the same in both scripts. *)
Fixpoint validate {A : Type} (env : gmap string string) (vars : list string)
    : Script A unit :=
  match vars with
  | [] => mret tt
  | envVar :: rest =>
      if env_set env envVar then validate env rest
      else throw (ErrorMsg ("Missing environment variable: " +:+ envVar))
  end.

(** ** Start-up of [scripts/relayer.js]

    The statements at the top level of the script (the chains activated and
    the table [CHAINS]), [main], and [ChainListener.start] up to the
    subscription.  The constructors of ethers and [getBlockNumber] answer as
    the [World] says.  The module [../config/chains], which is not part of
    the scripts, enters as the list of its entries. *)

Module Startup.

Inductive Action : Type :=
| Console_error (msg : string) (err : option Error)
| Process_exit (code : Z)
| New_Wallet (privateKey : string)
| New_ChainListener (chain : ChainConfig)
| GetBlockNumber (chain : ChainConfig)
| Contract_on (chain : ChainConfig).     (* [contract.on("ValueSet", callback)] *)

Record World : Type := {
  env : gmap string string;                         (* [process.env] *)
  chains : list (string * ChainConfig);             (* [Object.entries(require("../config/chains"))] *)
  on_Wallet : Outcome unit;
  on_ChainListener : ChainConfig -> Outcome unit;
  on_getBlockNumber : ChainConfig -> Outcome N }.

(** [s.split(sep)] for a separator of one character: the pieces between the
    separators, of which there is at least one. *)
Fixpoint split (sep : ascii) (s : string) : list string :=
  match s with
  | EmptyString => [EmptyString]
  | String c rest =>
      if bool_decide (c = sep) then EmptyString :: split sep rest
      else match split sep rest with
           | piece :: pieces => String c piece :: pieces
           | [] => [String c EmptyString]
           end
  end.

(** [pieces.join(sep)] *)
Fixpoint join (sep : ascii) (pieces : list string) : string :=
  match pieces with
  | [] => EmptyString
  | [piece] => piece
  | piece :: rest => piece +:+ String sep (join sep rest)
  end.

Fixpoint free_of (sep : ascii) (s : string) : bool :=
  match s with
  | EmptyString => true
  | String c rest => negb (bool_decide (c = sep)) && free_of sep rest
  end.

Definition upper (c : ascii) : ascii :=
  let n := N_of_ascii c in
  if ((97 <=? n) && (n <=? 122))%N then ascii_of_N (n - 32) else c.

(** [s.toUpperCase()] on a string of ASCII characters, which the keys of
    the chain table are. *)
Fixpoint toUpperCase (s : string) : string :=
  match s with
  | EmptyString => EmptyString
  | String c rest => String (upper c) (toUpperCase rest)
  end.

(** [s.replace("-", "_")]: a string pattern replaces its first occurrence
    only. *)
Fixpoint replace_hyphen (s : string) : string :=
  match s with
  | EmptyString => EmptyString
  | String c rest =>
      if bool_decide (c = "-"%char) then String "_"%char rest
      else String c (replace_hyphen rest)
  end.

Definition activatedChains (w : World) : list string :=
  match env w !! "RELAYER_ACTIVATED_CHAINS" with
  | Some s => if bool_decide (s = "") then [] else split ","%char s
  | None => []
  end.

Definition CHAINS (w : World) : list (string * ChainConfig) :=
  filter (fun entry => length (activatedChains w) = 0 \/ entry.1 ∈ activatedChains w)
         (chains w).

Definition env_prefix (chainKey : string) : string :=
  replace_hyphen (toUpperCase chainKey).

Definition requiredEnvVars (w : World) : list string :=
  "PRIVATE_KEY"
    :: map (fun chainKey => env_prefix chainKey +:+ "_CONTRACT_ADDRESS") (activatedChains w)
    ++ map (fun chainKey => env_prefix chainKey +:+ "_RPC") (activatedChains w).

(** [ChainListener.start] *)
Definition start (w : World) (config : ChainConfig) : Script Action unit :=
  perform (GetBlockNumber config) (on_getBlockNumber w config) ;;
  perform (Contract_on config) (Resolved tt).

(** The loop over [Object.entries(CHAINS)]. *)
Fixpoint listeners (w : World) (entries : list (string * ChainConfig))
    : Script Action unit :=
  match entries with
  | [] => mret tt
  | (chainKey, chainConfig) :: rest =>
      perform (New_ChainListener chainConfig) (on_ChainListener w chainConfig) ;;
      start w chainConfig ;;
      listeners w rest
  end.

Definition main (w : World) : Script Action unit :=
  validate (env w) (requiredEnvVars w) ;;
  perform (New_Wallet (default "" (env w !! "PRIVATE_KEY"))) (on_Wallet w) ;;
  listeners w (CHAINS w).

(** The script from its first line: [process.exit] ends it. *)
Definition relayer (w : World) : list Action :=
  if bool_decide (length (activatedChains w) = 0)
  then [Console_error
          "No chains are activated. Please set the RELAYER_ACTIVATED_CHAINS environment variable."
          None;
        Process_exit 1]
  else match main w with
       | (acts, Returned _) => acts
       | (acts, Thrown error) => acts ++ [Console_error "Error:" (Some error); Process_exit 1]
       end.

(** The chains a script subscribed to, in the order of the subscriptions. *)
Fixpoint subscribed (acts : list Action) : list ChainConfig :=
  match acts with
  | [] => []
  | Contract_on c :: rest => c :: subscribed rest
  | _ :: rest => subscribed rest
  end.

Definition is_exit (a : Action) : bool :=
  match a with
  | Process_exit _ => true
  | _ => false
  end.

(** The action talks to ethers: a wallet, a listener, a chain. *)
Definition is_ethers (a : Action) : bool :=
  match a with
  | Console_error _ _ | Process_exit _ => false
  | _ => true
  end.

End Startup.

(** ** A deployment to start *)

Definition arbitrum_sepolia : ChainConfig :=
  {| name := "Arbitrum Sepolia"; chainId := 421614;
     rpcUrl := "https://sepolia-rollup.arbitrum.io/rpc"; contractAddress := "0x0c" |}.

(** Three chains in the table, two of them activated. *)
Definition sample_vars : gmap string string :=
  list_to_map
    [("RELAYER_ACTIVATED_CHAINS", "optimism-sepolia,base-sepolia");
     ("PRIVATE_KEY", "0x01");
     ("OPTIMISM_SEPOLIA_CONTRACT_ADDRESS", "0x0a");
     ("BASE_SEPOLIA_CONTRACT_ADDRESS", "0x0b");
     ("OPTIMISM_SEPOLIA_RPC", "https://sepolia.optimism.io");
     ("BASE_SEPOLIA_RPC", "https://sepolia.base.org")].

Definition sample_world (vars : gmap string string) : Startup.World :=
  {| Startup.env := vars;
     Startup.chains := [("optimism-sepolia", optimism_sepolia);
                        ("base-sepolia", base_sepolia);
                        ("arbitrum-sepolia", arbitrum_sepolia)];
     Startup.on_Wallet := Resolved tt;
     Startup.on_ChainListener := fun _ => Resolved tt;
     Startup.on_getBlockNumber := fun _ => Resolved 100%N |}.

(** [getBlockNumber] of the chain, and the constructor of its listener
    before, went through. *)
Definition answered (w : Startup.World) (c : ChainConfig) : Prop :=
  Startup.on_ChainListener w c = Resolved tt
  /\ exists latestBlock, Startup.on_getBlockNumber w c = Resolved latestBlock.

(** ** [scripts/setValue.js]

    [main] of the script that sends a value from one chain to the other.
    The two prompts answer as the [World] says; a list question of inquirer
    answers with the value of one of its choices, which is a hypothesis
    where it matters.  Left out: the [validate] functions of the two input
    questions, which inquirer calls before it accepts an answer. *)

Module SetValue.

(** A log of the receipt, as far as the script reads it:
    [log.fragment?.name] and [log.args]. *)
Record ReceiptLog : Type := {
  fragment : option string;
  log_args : Args }.

Definition log_value (l : ReceiptLog) : list byte := value (log_args l).

Record Receipt : Type := {
  gasUsed : N;
  logs : list ReceiptLog }.

(** What the first prompt returns. *)
Record Answers : Type := {
  sourceChain : string;
  destinationChain : string;
  key : string;
  value : string }.

(** An argument of [console.error]. *)
Inductive Printed : Type :=
| Text (s : string)
| Err (e : Error)
| Val (v : JsVal).

Inductive Action : Type :=
| Console_error (items : list Printed)
| Process_exit (code : Z)
| New_Wallet (privateKey : string)
| Prompt_answers
| Prompt_confirmation
| ToUtf8Bytes (text : string)
| New_Contract (chain : ChainConfig)     (* provider, wallet and contract of lines 129 to 135 *)
| EstimateGas (chain : ChainConfig) (key : string) (valueBytes : list byte)
    (destinationChainId : N)
| SetValue (chain : ChainConfig) (key : string) (valueBytes : list byte)
    (destinationChainId : N) (gasLimit : N)
| TxWait (tx : Tx)
| ToUtf8String (bytes : list byte).

Record World : Type := {
  env : gmap string string;               (* [process.env] *)
  on_Wallet : Outcome unit;
  on_answers : Outcome Answers;
  on_confirmation : Outcome bool;         (* [confirmation.proceed] *)
  on_toUtf8Bytes : Outcome (list byte);
  on_Contract : Outcome unit;
  on_estimateGas : Outcome N;
  on_setValue : Outcome Tx;
  on_wait : Outcome Receipt;
  on_toUtf8String : Outcome string;
  error_data : Error -> JsVal }.          (* [error.data] *)

(** [error.message] *)
Definition message (e : Error) : string :=
  match e with
  | TypeError msg | RangeError msg | ErrorMsg msg | External msg => msg
  end.

(** [process.env.NAME], read where the variable has been checked. *)
Definition var (w : World) (envVar : string) : string :=
  default "" (env w !! envVar).

Definition CHAINS (w : World) : list (string * ChainConfig) :=
  [("optimism-sepolia",
    {| name := "Optimism Sepolia";
       rpcUrl := var w "OPTIMISM_SEPOLIA_RPC";
       contractAddress := var w "OPTIMISM_CONTRACT_ADDRESS";
       chainId := 11155420 |});
   ("base-sepolia",
    {| name := "Base Sepolia";
       rpcUrl := var w "BASE_SEPOLIA_RPC";
       contractAddress := var w "BASE_CONTRACT_ADDRESS";
       chainId := 84532 |})].

Definition requiredEnvVars : list string :=
  ["PRIVATE_KEY"; "OPTIMISM_CONTRACT_ADDRESS"; "BASE_CONTRACT_ADDRESS";
   "OPTIMISM_SEPOLIA_RPC"; "BASE_SEPOLIA_RPC"].

(** The choices of the two list questions, as pairs of a name shown and a
    value returned. *)
Definition source_choices : list (string * string) :=
  [("Optimism Sepolia", "optimism-sepolia"); ("Base Sepolia", "base-sepolia")].

Definition destination_choices (w : World) (sourceChain : string)
    : list (string * string) :=
  map (fun entry => (name entry.2, entry.1))
      (filter (fun entry => entry.1 <> sourceChain) (CHAINS w)).

(** [CHAINS[chainKey]], of which [main] reads [name] first. *)
Definition chain_of (w : World) (chainKey : string) : option ChainConfig :=
  snd <$> find (fun entry => bool_decide (entry.1 = chainKey)) (CHAINS w).

Definition config_of (w : World) (chainKey : string) : Script Action ChainConfig :=
  match chain_of w chainKey with
  | Some chain => mret chain
  | None => throw (TypeError "Cannot read properties of undefined (reading 'name')")
  end.

(** The [try] block. *)
Definition send (w : World) (answers : Answers)
    (sourceChainConfig destinationChainConfig : ChainConfig) : Script Action unit :=
  perform (New_Contract sourceChainConfig) (on_Contract w) ;;
  valueBytes ← perform (ToUtf8Bytes (value answers)) (on_toUtf8Bytes w);
  estimatedGas ← perform (EstimateGas sourceChainConfig (key answers) valueBytes
                            (chainId destinationChainConfig))
                         (on_estimateGas w);
  tx ← perform (SetValue sourceChainConfig (key answers) valueBytes
                  (chainId destinationChainConfig) estimatedGas)
               (on_setValue w);
  receipt ← perform (TxWait tx) (on_wait w);
  match find (fun log => bool_decide (fragment log = Some "ValueSet")) (logs receipt) with
  | Some valueSetEvent =>
      perform (ToUtf8String (log_value valueSetEvent)) (on_toUtf8String w) ;; mret tt
  | None => mret tt
  end.

(** The [catch] block. *)
Definition report (w : World) (error : Error) : Script Action unit :=
  perform (Console_error [Text "Error:"; Text (message error)]) (Resolved tt) ;;
  if truthy (error_data w error)
  then perform (Console_error [Text "Error data:"; Val (error_data w error)]) (Resolved tt)
  else mret tt.

Definition main (w : World) : Script Action unit :=
  validate (env w) requiredEnvVars ;;
  perform (New_Wallet (var w "PRIVATE_KEY")) (on_Wallet w) ;;
  answers ← perform Prompt_answers (on_answers w);
  sourceChainConfig ← config_of w (sourceChain answers);
  destinationChainConfig ← config_of w (destinationChain answers);
  perform (ToUtf8Bytes (value answers)) (on_toUtf8Bytes w) ;;
  proceed ← perform Prompt_confirmation (on_confirmation w);
  if negb proceed then mret tt
  else script_catch (send w answers sourceChainConfig destinationChainConfig) (report w).

(** The script from its first line. *)
Definition setValue (w : World) : list Action :=
  match main w with
  | (acts, Returned _) => acts
  | (acts, Thrown error) => acts ++ [Console_error [Err error]; Process_exit 1]
  end.

Definition is_exit (a : Action) : bool :=
  match a with
  | Process_exit _ => true
  | _ => false
  end.

(** The action goes to the contract of the source chain. *)
Definition is_contract (a : Action) : bool :=
  match a with
  | New_Contract _ | EstimateGas _ _ _ _ | SetValue _ _ _ _ _ | TxWait _ => true
  | _ => false
  end.

Definition is_transaction (a : Action) : bool :=
  match a with
  | SetValue _ _ _ _ _ => true
  | _ => false
  end.

End SetValue.

(** The user sends [hi] under [greeting] from Optimism Sepolia to Base Sepolia. *)
Definition sample_answers : SetValue.Answers :=
  {| SetValue.sourceChain := "optimism-sepolia";
     SetValue.destinationChain := "base-sepolia";
     SetValue.key := "greeting";
     SetValue.value := "hi" |}.

Definition setValue_vars : gmap string string :=
  list_to_map
    [("PRIVATE_KEY", "0x01");
     ("OPTIMISM_CONTRACT_ADDRESS", "0x0a");
     ("BASE_CONTRACT_ADDRESS", "0x0b");
     ("OPTIMISM_SEPOLIA_RPC", "https://sepolia.optimism.io");
     ("BASE_SEPOLIA_RPC", "https://sepolia.base.org")].

(** The user confirms as [proceed] says; the gas estimate is [estimate]. *)
Definition setValue_world (proceed : bool) (estimate : Outcome N) : SetValue.World :=
  {| SetValue.env := setValue_vars;
     SetValue.on_Wallet := Resolved tt;
     SetValue.on_answers := Resolved sample_answers;
     SetValue.on_confirmation := Resolved proceed;
     SetValue.on_toUtf8Bytes := Resolved ["h"; "i"]%byte;
     SetValue.on_Contract := Resolved tt;
     SetValue.on_estimateGas := estimate;
     SetValue.on_setValue := Resolved {| hash := "0x7b" |};
     SetValue.on_wait := Resolved {| SetValue.gasUsed := 50000; SetValue.logs := [] |};
     SetValue.on_toUtf8String := Resolved "hi";
     SetValue.error_data := fun _ => JUndefined |}.

(** The script got as far as the [try] block: the variables are set, the
    wallet is there, the user answered [answers] and confirmed. *)
Definition confirmed (w : SetValue.World) (answers : SetValue.Answers)
    (src dst : ChainConfig) (bytes : list byte) : Prop :=
  Forall (fun v => env_set (SetValue.env w) v = true) SetValue.requiredEnvVars
  /\ SetValue.on_Wallet w = Resolved tt
  /\ SetValue.on_answers w = Resolved answers
  /\ SetValue.chain_of w (SetValue.sourceChain answers) = Some src
  /\ SetValue.chain_of w (SetValue.destinationChain answers) = Some dst
  /\ SetValue.on_toUtf8Bytes w = Resolved bytes
  /\ SetValue.on_confirmation w = Resolved true.

(** What [main] has done when it enters the [try] block. *)
Definition before_try (w : SetValue.World) (answers : SetValue.Answers)
    : list SetValue.Action :=
  [SetValue.New_Wallet (SetValue.var w "PRIVATE_KEY"); SetValue.Prompt_answers;
   SetValue.ToUtf8Bytes (SetValue.value answers); SetValue.Prompt_confirmation].

(** A call to the contract is made as the answers say: on the source chain,
    with the key entered, the bytes of the value, the chain ID of the
    destination and, for the transaction, the gas estimated. *)
Definition sent_as (w : SetValue.World) (answers : SetValue.Answers)
    (src dst : ChainConfig) (bytes : list byte) (a : SetValue.Action) : Prop :=
  match a with
  | SetValue.EstimateGas c k b d =>
      c = src /\ k = SetValue.key answers /\ b = bytes /\ d = chainId dst
  | SetValue.SetValue c k b d g =>
      c = src /\ k = SetValue.key answers /\ b = bytes /\ d = chainId dst
      /\ SetValue.on_estimateGas w = Resolved g
  | SetValue.New_Contract c => c = src
  | _ => True
  end.

(** * Properties *)

(** ** The sequential reading of the combinators *)

Lemma after_nil {R : Type} (r : Run R) : after [] r = r.
Proof. by destruct r. Qed.

Lemma after_app {R : Type} (t u : list Event) (r : Run R) :
  after (t ++ u) r = after t (after u r).
Proof. unfold after; simpl. by rewrite app_assoc. Qed.

Lemma run_Vis {R X : Type} env (op : E X) (k : X -> Prog R) reg n :
  run env (Vis op k) reg n =
  after [Ev op (answer env op reg n).1.1]
    (run env (k (answer env op reg n).1.1) (answer env op reg n).1.2 (answer env op reg n).2).
Proof. simpl. by destruct (answer env op reg n) as [[x reg'] n']. Qed.

Lemma run_bind {A B : Type} env (m : Prog A) (f : A -> Prog B) reg n :
  run env (m ≫= f) reg n =
  let r := run env m reg n in
  match completion r with
  | Returned a => after (trace r) (run env (f a) (registry r) (polls_issued r))
  | Thrown e => Build_Run B (Thrown e) (registry r) (polls_issued r) (trace r)
  end.
Proof.
  revert reg n. induction m as [a|e|X op k IH]; intros reg n.
  - simpl. by rewrite after_nil.
  - done.
  - change (Vis op k ≫= f) with (Vis op (fun x => k x ≫= f)).
    rewrite !run_Vis, IH. simpl.
    by destruct (completion (run env (k _) _ _)).
Qed.

Lemma run_try_catch {R : Type} env (p : Prog R) (h : Error -> Prog R) reg n :
  run env (try_catch p h) reg n =
  let r := run env p reg n in
  match completion r with
  | Returned a => r
  | Thrown e => after (trace r) (run env (h e) (registry r) (polls_issued r))
  end.
Proof.
  revert reg n. induction p as [a|e|X op k IH]; intros reg n.
  - done.
  - simpl. by rewrite after_nil.
  - simpl try_catch. rewrite !run_Vis, IH. simpl.
    destruct (completion (run env (k _) _ _)) eqn:Hc; [|done].
    unfold after; simpl. by rewrite Hc.
Qed.

Lemma run_call {X : Type} env (op : E X) reg n :
  run env (call op) reg n =
  Build_Run X (Returned (answer env op reg n).1.1)
    (answer env op reg n).1.2 (answer env op reg n).2
    [Ev op (answer env op reg n).1.1].
Proof. unfold call. by rewrite run_Vis. Qed.

Lemma run_lift {X : Type} env (r : Error + X) reg n :
  run env (lift r) reg n =
  Build_Run X (match r with inl e => Thrown e | inr x => Returned x end) reg n [].
Proof. by destruct r. Qed.

(** ** Counting operations *)

Lemma count_app f (t u : list Event) : count f (t ++ u) = count f t + count f u.
Proof. unfold count. by rewrite List.filter_app, length_app. Qed.

Lemma count_nil f : count f [] = 0.
Proof. done. Qed.

Lemma count_cons f ev (t : list Event) :
  count f (ev :: t) = (if f ev then 1 else 0) + count f t.
Proof. unfold count; simpl. by destruct (f ev). Qed.

Lemma AtMost_mono (f : forall X, E X -> bool) {R : Type} (p : Prog R) n m :
  AtMost f n p -> n ≤ m -> AtMost f m p.
Proof.
  intros H. revert m. induction H as [| |n X op k Hf _ IH|n X op k _ IH]; intros m Hm.
  - constructor.
  - constructor.
  - apply AtMost_skip; auto.
  - destruct m as [|m]; [lia|]. apply AtMost_spend. intros x. apply IH. lia.
Qed.

Lemma AtMost_bind (f : forall X, E X -> bool) {A B : Type} (m : Prog A) (g : A -> Prog B) n k :
  AtMost f n m -> (forall a, AtMost f k (g a)) -> AtMost f (n + k) (m ≫= g).
Proof.
  intros H Hg. induction H as [n a|n e|n X op c Hf _ IH|n X op c _ IH].
  - apply AtMost_mono with k; [apply Hg | lia].
  - constructor.
  - change (Vis op c ≫= g) with (Vis op (fun x => c x ≫= g)). apply AtMost_skip; auto.
  - change (Vis op c ≫= g) with (Vis op (fun x => c x ≫= g)).
    change (S n + k) with (S (n + k)). apply AtMost_spend; auto.
Qed.

Lemma AtMost_try_catch (f : forall X, E X -> bool) {R : Type} (p : Prog R) (h : Error -> Prog R) n k :
  AtMost f n p -> (forall e, AtMost f k (h e)) -> AtMost f (n + k) (try_catch p h).
Proof.
  intros H Hh. induction H as [n a|n e|n X op c Hf _ IH|n X op c _ IH]; simpl.
  - constructor.
  - apply AtMost_mono with k; [apply Hh | lia].
  - apply AtMost_skip; auto.
  - apply AtMost_spend; auto.
Qed.

Lemma AtMost_call (f : forall X, E X -> bool) {X : Type} (op : E X) : f X op = false -> AtMost f 0 (call op).
Proof. intros H. apply AtMost_skip; [done|]. intros x. constructor. Qed.

Lemma AtMost_call_1 (f : forall X, E X -> bool) {X : Type} (op : E X) : AtMost f 1 (call op).
Proof. apply AtMost_spend. intros x. constructor. Qed.

Lemma AtMost_settle (f : forall X, E X -> bool) {X : Type} (o : Outcome X) : AtMost f 0 (settle o).
Proof. destruct o; constructor. Qed.

Lemma AtMost_await (f : forall X, E X -> bool) {X : Type} (op : E (Outcome X)) :
  f _ op = false -> AtMost f 0 (await op).
Proof.
  intros H. change 0 with (0 + 0). apply AtMost_bind.
  - by apply AtMost_call.
  - intros o. apply AtMost_settle.
Qed.

Lemma AtMost_await_1 (f : forall X, E X -> bool) {X : Type} (op : E (Outcome X)) : AtMost f 1 (await op).
Proof.
  change 1 with (1 + 0). apply AtMost_bind.
  - apply AtMost_call_1.
  - intros o. apply AtMost_settle.
Qed.

Lemma AtMost_lift (f : forall X, E X -> bool) {X : Type} (r : Error + X) : AtMost f 0 (lift r).
Proof. destruct r; constructor. Qed.

(** A budget on the program bounds every trace of it. *)
Lemma AtMost_run (f : forall X, E X -> bool) {R : Type} (p : Prog R) n env reg k :
  AtMost f n p -> count (on_op f) (trace (run env p reg k)) ≤ n.
Proof.
  intros H. revert reg k.
  induction H as [n a|n e|n X op c Hf _ IH|n X op c _ IH]; intros reg k.
  - simpl. unfold count; simpl. lia.
  - simpl. unfold count; simpl. lia.
  - rewrite run_Vis. simpl. rewrite count_cons. simpl. rewrite Hf. apply IH.
  - rewrite run_Vis. simpl. rewrite count_cons. simpl.
    specialize (IH (answer env op reg k).1.1 (answer env op reg k).1.2 (answer env op reg k).2).
    destruct (f X op); lia.
Qed.

(** ** The poll loop *)

Lemma awaitProof_loop_body delay jobId proofResponse attempts :
  awaitProof_loop delay jobId proofResponse attempts =
  if not_ready proofResponse then
    if decide (10 ≤ attempts) then Throw ProofTimeout
    else
      call (SetTimeout delay);;
      r ← await (AxiosPost POLYMER_API_URL receipt_queryProof [jobId]);
      result ← lift (get (data r) "result");
      _ ← lift (get result "status");
      awaitProof_loop delay jobId (Some r) (S attempts)
  else Ret proofResponse.
Proof.
  rewrite awaitProof_loop_equation_1.
  destruct (not_ready proofResponse); simpl; [|done].
  by destruct (decide (10 ≤ attempts)).
Qed.

Lemma loop_exit env d j prev a reg n :
  not_ready prev = false ->
  run env (awaitProof_loop d j prev a) reg n = Build_Run _ (Returned prev) reg n [].
Proof. intros H. by rewrite awaitProof_loop_body, H. Qed.

Lemma loop_timeout env d j prev a reg n :
  not_ready prev = true -> 10 ≤ a ->
  run env (awaitProof_loop d j prev a) reg n = Build_Run _ (Thrown ProofTimeout) reg n [].
Proof.
  intros H Ha. rewrite awaitProof_loop_body, H.
  destruct (decide (10 ≤ a)); [done | lia].
Qed.

Lemma loop_poll env d j prev a reg n :
  not_ready prev = true -> a < 10 ->
  run env (awaitProof_loop d j prev a) reg n =
  after (poll_events env d j n 1)
    match on_queryProof env n with
    | Rejected e => Build_Run _ (Thrown e) reg (S n) []
    | Resolved r =>
        match read_status r with
        | inl e => Build_Run _ (Thrown e) reg (S n) []
        | inr _ => run env (awaitProof_loop d j (Some r) (S a)) reg (S n)
        end
    end.
Proof.
  intros H Ha. rewrite awaitProof_loop_body, H.
  destruct (decide (10 ≤ a)); [lia|].
  unfold read_status. simpl.
  destruct (on_queryProof env n) as [r|e]; simpl; [|done].
  destruct (get (data r) "result") as [e|result]; simpl; [done|].
  destruct (get result "status") as [e|st]; simpl; [done|].
  by destruct (run env _ reg (S n)).
Qed.

Lemma has_result_read_status r :
  has_result r = true -> exists st, read_status r = inr st.
Proof.
  unfold has_result, read_status, get. intros H.
  apply andb_true_iff in H as [H1 H2].
  apply negb_true_iff in H1, H2. rewrite H1, H2. eauto.
Qed.

Lemma no_result_read_status r :
  has_result r = false -> exists msg, read_status r = inl (TypeError msg).
Proof.
  unfold has_result, read_status, get. intros H.
  destruct (nullish (data r)); simpl in *; [eauto|].
  apply negb_false_iff in H. rewrite H. eauto.
Qed.

Lemma ready_has_result r : ready r = true -> has_result r = true.
Proof.
  unfold ready, not_ready, has_result, opt_get; simpl.
  destruct (data r) as [| | | | |fields]; simpl; rewrite ?orb_true_r; try done.
  by destruct (assoc "result" fields).
Qed.

Lemma pending_at_inv env i :
  pending_at env i = true ->
  exists r, on_queryProof env i = Resolved r /\ has_result r = true
            /\ not_ready (Some r) = true.
Proof.
  unfold pending_at, ready. destruct (on_queryProof env i) as [r|e]; [|done].
  intros H. apply andb_true_iff in H as [H1 H2].
  rewrite negb_involutive in H2. eauto.
Qed.

(** As long as the polls are pending the loop goes on, one poll a turn. *)
Lemma loop_pending env d j m :
  forall a prev reg,
    a + m ≤ 10 ->
    (forall i, a ≤ i < a + m -> pending_at env i = true) ->
    not_ready prev = true ->
    exists last,
      not_ready last = true /\
      run env (awaitProof_loop d j prev a) reg a =
      after (poll_events env d j a m)
        (run env (awaitProof_loop d j last (a + m)) reg (a + m)).
Proof.
  induction m as [|m IH]; intros a prev reg Ha Hp Hprev.
  - exists prev. split; [done|]. rewrite Nat.add_0_r. by rewrite after_nil.
  - destruct (pending_at_inv env a) as (r & Hq & Hres & Hnr); [apply Hp; lia|].
    destruct (has_result_read_status r Hres) as [st Hst].
    destruct (IH (S a) (Some r) reg) as (last & Hlast & Hrun); [lia| |done|].
    { intros i Hi. apply Hp. lia. }
    exists last. split; [done|].
    rewrite loop_poll by (done || lia). rewrite Hq, Hst, Hrun.
    replace (S a + m) with (a + S m) by lia.
    rewrite <- after_app. simpl. by rewrite Hq.
Qed.

Lemma polls_poll_events env d j a m : polls (poll_events env d j a m) = m.
Proof.
  revert a. induction m as [|m IH]; intros a; [done|].
  simpl. unfold polls in *. rewrite !count_cons, IH. done.
Qed.

(** No operation of the loop is selected by [f], if neither its timer nor its
    poll is. *)
Lemma AtMost_loop (f : forall X, E X -> bool) d j :
  f _ (SetTimeout d) = false ->
  f _ (AxiosPost POLYMER_API_URL receipt_queryProof [j]) = false ->
  forall prev a, AtMost f 0 (awaitProof_loop d j prev a).
Proof.
  intros Ht Hq prev a.
  remember (10 - a) as m eqn:Hm. revert prev a Hm.
  induction m as [|m IH]; intros prev a Hm; rewrite awaitProof_loop_body;
    (destruct (not_ready prev); [|constructor]);
    (destruct (decide (10 ≤ a)); [constructor|]); [lia|].
  apply (AtMost_bind f _ _ 0 0); [by apply AtMost_call|]. intros _.
  apply (AtMost_bind f _ _ 0 0); [by apply AtMost_await|]. intros r.
  apply (AtMost_bind f _ _ 0 0); [apply AtMost_lift|]. intros result.
  apply (AtMost_bind f _ _ 0 0); [apply AtMost_lift|]. intros _.
  apply IH. lia.
Qed.

(** ** The three ways out of the poll loop *)

Lemma poll_events_app env d j a m k :
  poll_events env d j a (m + k) = poll_events env d j a m ++ poll_events env d j (a + m) k.
Proof.
  revert a. induction m as [|m IH]; intros a; simpl.
  - by rewrite Nat.add_0_r.
  - rewrite IH. by replace (S a + m) with (a + S m) by lia.
Qed.

Lemma poll_events_snoc env d j k :
  poll_events env d j 0 (S k) = poll_events env d j 0 k ++ poll_events env d j k 1.
Proof. replace (S k) with (k + 1) by lia. apply poll_events_app. Qed.

Lemma count_poll_events f env d j a m :
  (forall x, f (Ev (SetTimeout d) x) = false) ->
  (forall x, f (Ev (AxiosPost POLYMER_API_URL receipt_queryProof [j]) x) = false) ->
  count f (poll_events env d j a m) = 0.
Proof.
  intros H1 H2. revert a. induction m as [|m IH]; intros a; [done|].
  simpl. by rewrite !count_cons, H1, H2, IH.
Qed.


Lemma awaitProof_ready env j reg k r :
  k < 10 ->
  (forall i, i < k -> pending_at env i = true) ->
  on_queryProof env k = Resolved r ->
  ready r = true ->
  run env (awaitProof j) reg 0 =
  Build_Run _ (Returned (Some r)) reg (S k) (poll_events env 10000 j 0 (S k)).
Proof.
  intros Hk Hp Hq Hr. unfold awaitProof. simpl bool_decide. cbv iota zeta.
  destruct (loop_pending env 10000 j k 0 None reg) as (last & Hl & Hrun);
    [lia | intros i Hi; apply Hp; lia | done |].
  destruct (has_result_read_status r (ready_has_result r Hr)) as [st Hst].
  rewrite Hrun. change (0 + k) with k.
  rewrite loop_poll by (done || lia). rewrite Hq, Hst.
  rewrite loop_exit by (unfold ready in Hr; by apply negb_true_iff in Hr).
  rewrite poll_events_snoc.
  unfold after. cbn [completion registry polls_issued trace]. by rewrite app_nil_r.
Qed.

Lemma awaitProof_no_result env j reg k r :
  k < 10 ->
  (forall i, i < k -> pending_at env i = true) ->
  on_queryProof env k = Resolved r ->
  has_result r = false ->
  exists msg,
    run env (awaitProof j) reg 0 =
    Build_Run _ (Thrown (TypeError msg)) reg (S k) (poll_events env 10000 j 0 (S k)).
Proof.
  intros Hk Hp Hq Hr. unfold awaitProof. simpl bool_decide. cbv iota zeta.
  destruct (loop_pending env 10000 j k 0 None reg) as (last & Hl & Hrun);
    [lia | intros i Hi; apply Hp; lia | done |].
  destruct (no_result_read_status r Hr) as [msg Hst]. exists msg.
  rewrite Hrun. change (0 + k) with k.
  rewrite loop_poll by (done || lia). rewrite Hq, Hst.
  rewrite poll_events_snoc.
  unfold after. cbn [completion registry polls_issued trace]. by rewrite app_nil_r.
Qed.

Lemma awaitProof_rejected env j reg k e :
  k < 10 ->
  (forall i, i < k -> pending_at env i = true) ->
  on_queryProof env k = Rejected e ->
  run env (awaitProof j) reg 0 =
  Build_Run _ (Thrown e) reg (S k) (poll_events env 10000 j 0 (S k)).
Proof.
  intros Hk Hp Hq. unfold awaitProof. simpl bool_decide. cbv iota zeta.
  destruct (loop_pending env 10000 j k 0 None reg) as (last & Hl & Hrun);
    [lia | intros i Hi; apply Hp; lia | done |].
  rewrite Hrun. change (0 + k) with k.
  rewrite loop_poll by (done || lia). rewrite Hq.
  rewrite poll_events_snoc.
  unfold after. cbn [completion registry polls_issued trace]. by rewrite app_nil_r.
Qed.

(** Every delay awaited by the loop is the one computed before it. *)
Lemma delays_constant env jobId reg n :
  Forall (fun ms => ms = 10000%Z) (delays (trace (run env (awaitProof jobId) reg n))).
Proof.
  pose proof (AtMost_run (@op_delay_differs 10000) (awaitProof jobId) 0 env reg n) as H.
  assert (Hc : count (on_op (@op_delay_differs 10000))
                 (trace (run env (awaitProof jobId) reg n)) = 0).
  { apply Nat.le_0_r, H. by apply AtMost_loop. }
  clear H. induction (trace (run env (awaitProof jobId) reg n)) as [|ev t IH]; [constructor|].
  rewrite count_cons in Hc.
  destruct ev as [X op x]. unfold delays; simpl.
  destruct op; simpl in *; try (apply IH; lia).
  constructor; [|apply IH; lia].
  destruct (ms =? 10000)%Z eqn:Hms; simpl in Hc; [lia | lia].
Qed.

(** C1. The claim: 10000 ms are awaited before the first poll and 5000 ms
    before every later one, the delay being recomputed at every iteration.
    The code computes [delay] once, before the loop, when [attempts] is 0:
    every delay of every run is 10000 ms, and with the proof ready at the
    third poll the three delays awaited are 10000 ms each, where the schedule
    of the claim is 10000, 5000, 5000. *)
Theorem poll_delay_computed_once :
  (forall env jobId reg n,
     Forall (fun ms => ms = 10000%Z) (delays (trace (run env (awaitProof jobId) reg n))))
  /\ delays (trace (run (sample_env (ready_at 2)) (awaitProof (JNum 77)) ∅ 0))
     = [10000; 10000; 10000]%Z
  /\ spec_delays 3 = [10000; 5000; 5000]%Z.
Proof.
  split; [apply delays_constant|]. split; reflexivity.
Qed.


Lemma pending_before k query i :
  (forall j, j < k -> query j = Resolved pending_response) ->
  i < k -> pending_at (sample_env query) i = true.
Proof. intros H Hi. unfold pending_at. simpl. by rewrite H. Qed.

Lemma ready_at_before k i : i < k -> ready_at k i = Resolved pending_response.
Proof. intros H. unfold ready_at. by destruct (decide (i < k)). Qed.

Lemma error_at_before k i : i < k -> error_at k i = Resolved pending_response.
Proof. intros H. unfold error_at. by destruct (decide (i < k)). Qed.



(** ** What the blocks of the callback can do *)

Lemma answer_registry env {X : Type} (op : E X) reg n :
  op_is_registry op = false -> (answer env op reg n).1.2 = reg.
Proof. destruct op; try done. by destruct method. Qed.

Lemma answer_polls env {X : Type} (op : E X) reg n :
  op_is_poll op = false -> (answer env op reg n).2 = n.
Proof. destruct op; try done. by destruct method. Qed.

Lemma run_registry {R : Type} env (p : Prog R) reg n :
  AtMost (@op_is_registry) 0 p -> registry (run env p reg n) = reg.
Proof.
  intros H. remember 0 as z eqn:Hz. revert reg n.
  induction H as [| |z X op k Hf _ IH|]; intros reg' pc; [done|done| |done].
  rewrite run_Vis. simpl. rewrite IH by done. by apply answer_registry.
Qed.

Lemma run_polls_issued {R : Type} env (p : Prog R) reg n :
  AtMost (@op_is_poll) 0 p -> polls_issued (run env p reg n) = n.
Proof.
  intros H. remember 0 as z eqn:Hz. revert reg n.
  induction H as [| |z X op k Hf _ IH|]; intros reg' pc; [done|done| |done].
  rewrite run_Vis. simpl. rewrite IH by done. by apply answer_polls.
Qed.

(** Checks that a program built from the combinators performs no selected
    operation. *)
Ltac budget :=
  repeat first
    [ apply AtMost_Ret
    | apply AtMost_Throw
    | apply AtMost_lift
    | apply AtMost_settle
    | apply AtMost_await; reflexivity
    | apply AtMost_call; reflexivity
    | apply AtMost_loop; reflexivity
    | apply (AtMost_bind _ _ _ 0 0); [budget | intros ?]
    | match goal with |- AtMost _ _ (match ?x with _ => _ end) => destruct x end
    | match goal with |- AtMost _ _ (if ?x then _ else _) => destruct x end ].

Lemma AtMost_awaitProof (f : forall X, E X -> bool) jobId :
  f _ (SetTimeout 10000) = false ->
  f _ (AxiosPost POLYMER_API_URL receipt_queryProof [jobId]) = false ->
  AtMost f 0 (awaitProof jobId).
Proof. intros. by apply AtMost_loop. Qed.

Lemma submit_registry c resp : AtMost (@op_is_registry) 0 (submit c resp).
Proof. unfold submit, bufferFrom. budget. Qed.

Lemma submit_polls c resp : AtMost (@op_is_poll) 0 (submit c resp).
Proof. unfold submit, bufferFrom. budget. Qed.

Lemma submit_once c resp : AtMost (@op_is_submission) 1 (submit c resp).
Proof.
  unfold submit.
  apply (AtMost_bind _ _ _ 0 1); [apply AtMost_lift|]. intros result.
  apply (AtMost_bind _ _ _ 0 1); [apply AtMost_lift|]. intros proof.
  apply (AtMost_bind _ _ _ 0 1); [unfold bufferFrom; budget|]. intros bytes.
  apply (AtMost_bind _ _ _ 0 1); [by apply AtMost_await|]. intros gas.
  apply (AtMost_bind _ _ _ 1 0); [apply AtMost_await_1|]. intros tx.
  budget.
Qed.

Lemma handler_registry CHAINS config input :
  AtMost (@op_is_registry) 0 (handleValueSetEvent CHAINS config input).
Proof.
  unfold handleValueSetEvent.
  destruct (find _ CHAINS) as [c|]; [|by apply AtMost_call].
  apply (AtMost_bind _ _ _ 0 0); [by apply AtMost_await|]. intros proofRequest.
  destruct (bool_decide _); [constructor|].
  apply (AtMost_bind _ _ _ 0 0); [apply AtMost_lift|]. intros jobId.
  apply (AtMost_bind _ _ _ 0 0); [by apply AtMost_awaitProof|]. intros resp.
  apply submit_registry.
Qed.

Lemma handler_once CHAINS config input :
  AtMost (@op_is_submission) 1 (handleValueSetEvent CHAINS config input).
Proof.
  unfold handleValueSetEvent.
  destruct (find _ CHAINS) as [c|]; [|apply AtMost_mono with 0; [by apply AtMost_call | lia]].
  apply (AtMost_bind _ _ _ 0 1); [by apply AtMost_await|]. intros proofRequest.
  destruct (bool_decide _); [constructor|].
  apply (AtMost_bind _ _ _ 0 1); [apply AtMost_lift|]. intros jobId.
  apply (AtMost_bind _ _ _ 0 1); [by apply AtMost_awaitProof|]. intros resp.
  apply submit_once.
Qed.

Lemma describe_quiet (f : forall X, E X -> bool) config event :
  (forall c n, f _ (GetBlock c n) = false) ->
  (forall c h, f _ (GetTransactionReceipt c h) = false) ->
  (forall b, f _ (ToUtf8String b) = false) ->
  AtMost f 0 (describe config event).
Proof.
  intros H1 H2 H3. unfold describe, receipt_index, block_time.
  apply (AtMost_bind _ _ _ 0 0); [by apply AtMost_await|]. intros block.
  apply (AtMost_bind _ _ _ 0 0); [by apply AtMost_await|]. intros receipt.
  apply (AtMost_bind _ _ _ 0 0); [destruct receipt; constructor|]. intros pos.
  apply (AtMost_bind _ _ _ 0 0); [by apply AtMost_await|]. intros _.
  apply (AtMost_bind _ _ _ 0 0); [destruct block; [apply AtMost_lift|constructor]|].
  intros _. constructor.
Qed.

Lemma onValueSet_once CHAINS config event :
  AtMost (@op_is_submission) 1 (onValueSet CHAINS config event).
Proof.
  unfold onValueSet, process, relay.
  apply (AtMost_try_catch _ _ _ 1 0); [|intros e; by apply AtMost_call].
  apply (AtMost_bind _ _ _ 0 1); [by apply AtMost_call|]. intros [|]; [constructor|].
  apply (AtMost_bind _ _ _ 0 1); [by apply describe_quiet|]. intros pos.
  apply (AtMost_try_catch _ _ _ 1 0); [|intros e; by apply AtMost_call].
  apply (AtMost_bind _ _ _ 1 0); [apply handler_once|]. intros _.
  by apply AtMost_call.
Qed.

(** ** The runs of the relay routine and of the callback *)

(** [run_bind] for a goal in which the notation is unfolded. *)
Lemma run_bind_plain {A B : Type} env (m : Prog A) (f : A -> Prog B) reg n :
  run env (bind m f) reg n =
  let r := run env m reg n in
  match completion r with
  | Returned a => after (trace r) (run env (f a) (registry r) (polls_issued r))
  | Thrown e => Build_Run B (Thrown e) (registry r) (polls_issued r) (trace r)
  end.
Proof. exact (run_bind env m f reg n). Qed.

Ltac plain := unfold mbind, prog_bind, mret, prog_ret.

Section Runs.

Variable CHAINS : list ChainConfig.
Variable config : ChainConfig.
Variable env : Env.

Lemma handler_unresolved input reg n :
  destination_of CHAINS (d_args input) = None ->
  run env (handleValueSetEvent CHAINS config input) reg n =
  Build_Run unit (Returned tt) reg n
    [Ev (ConsoleError ("No configuration found for destination chain ID: "
                       +:+ pretty (destinationChainId (d_args input))) None) tt].
Proof.
  unfold destination_of, handleValueSetEvent. intros H. simpl. by rewrite H.
Qed.

Lemma handler_resolved input reg n c :
  destination_of CHAINS (d_args input) = Some c ->
  run env (handleValueSetEvent CHAINS config input) reg n =
  after [Ev (request_of config input) (on_requestProof env)]
    match on_requestProof env with
    | Rejected e => Build_Run unit (Thrown e) reg n []
    | Resolved q =>
        if bool_decide (status q ≠ 200%Z)
        then Build_Run unit
               (Thrown (ErrorMsg ("Failed to get proof from Polymer API. Status code: "
                                  +:+ pretty (status q)))) reg n []
        else
          match get (data q) "result" with
          | inl e => Build_Run unit (Thrown e) reg n []
          | inr jobId =>
              let A := run env (awaitProof jobId) reg n in
              match completion A with
              | Thrown e => Build_Run unit (Thrown e) reg (polls_issued A) (trace A)
              | Returned resp =>
                  after (trace A) (run env (submit c resp) reg (polls_issued A))
              end
          end
    end.
Proof.
  unfold destination_of, handleValueSetEvent. intros H. cbv zeta. rewrite H.
  unfold await. plain. rewrite !run_bind_plain, run_call. cbn [completion trace registry polls_issued answer fst snd].
  destruct (on_requestProof env) as [q|e]; cbn [settle run completion trace registry polls_issued after app]; [|done].
  destruct (bool_decide (status q ≠ 200%Z)); cbn [run completion trace registry polls_issued after app]; [done|].
  rewrite run_bind_plain, run_lift. cbn [completion trace registry polls_issued].
  destruct (get (data q) "result") as [e|jobId]; cbn [after completion trace registry polls_issued app]; [done|].
  rewrite run_bind_plain, after_nil. cbv zeta.
  rewrite (run_registry env (awaitProof jobId)) by (by apply AtMost_awaitProof).
  destruct (completion (run env (awaitProof jobId) reg n)); [|done].
  unfold after; cbn [completion trace registry polls_issued app]. done.
Qed.

Lemma onValueSet_seen event reg :
  eventId_of (log event) ∈ reg ->
  run env (onValueSet CHAINS config event) reg 0 =
  Build_Run unit (Returned tt) reg 0 [Ev (ProcessedHas (eventId_of (log event))) true].
Proof.
  intros H. unfold onValueSet, process. simpl.
  rewrite bool_decide_eq_true_2 by done. done.
Qed.

Lemma onValueSet_fresh event reg :
  eventId_of (log event) ∉ reg ->
  run env (onValueSet CHAINS config event) reg 0 =
  after [Ev (ProcessedHas (eventId_of (log event))) false]
    (let D := run env (describe config event) reg 0 in
     match completion D with
     | Thrown e =>
         Build_Run unit (Returned tt) reg 0
           (trace D ++ [Ev (ConsoleError "Error processing event:" (Some e)) tt])
     | Returned positionInBlock =>
         let H := run env (handleValueSetEvent CHAINS config
                             (data_of event positionInBlock)) reg 0 in
         match completion H with
         | Returned _ =>
             Build_Run unit (Returned tt) ({[ eventId_of (log event) ]} ∪ reg)
               (polls_issued H)
               (trace D ++ trace H ++ [Ev (ProcessedAdd (eventId_of (log event))) tt])
         | Thrown e =>
             Build_Run unit (Returned tt) reg (polls_issued H)
               (trace D ++ trace H
                ++ [Ev (ConsoleError "Error handling ValueSet event:" (Some e)) tt])
         end
     end).
Proof.
  intros Hid. unfold onValueSet. rewrite run_try_catch.
  unfold process. cbv zeta. plain. rewrite run_bind_plain, run_call.
  cbn [completion trace registry polls_issued answer fst snd].
  rewrite bool_decide_eq_false_2 by done.
  rewrite run_bind_plain. cbv zeta.
  rewrite (run_registry env (describe config event)) by (by apply describe_quiet).
  rewrite (run_polls_issued env (describe config event)) by (by apply describe_quiet).
  destruct (completion (run env (describe config event) reg 0)) as [pos|e];
    cbn [after completion trace registry polls_issued app run]; [|done].
  rewrite run_try_catch. unfold relay. plain. rewrite run_bind_plain. cbv zeta.
  rewrite (run_registry env (handleValueSetEvent _ _ _)) by apply handler_registry.
  destruct (completion (run env (handleValueSetEvent _ _ _) reg 0)) as [[]|e];
    cbn [after completion trace registry polls_issued app run call answer fst snd];
    rewrite <- ?app_assoc; done.
Qed.

End Runs.

(** C10. A poll that resolves with a body lacking a result makes the read of
    [result.status] throw: with the polls before poll [k] pending, the loop
    stops at poll [k] (the [k+1]-th, [k < 10]) with a [TypeError], which is
    not the timeout error, and the relay attempt ends with that error after
    [k+1] polls, without any call to the destination chain. *)
Theorem poll_without_result_aborts CHAINS config env input reg k r c q jobId :
  k < 10 ->
  (forall i, i < k -> pending_at env i = true) ->
  on_queryProof env k = Resolved r ->
  has_result r = false ->
  destination_of CHAINS (d_args input) = Some c ->
  on_requestProof env = Resolved q ->
  status q = 200%Z ->
  get (data q) "result" = inr jobId ->
  let A := run env (awaitProof jobId) reg 0 in
  let H := run env (handleValueSetEvent CHAINS config input) reg 0 in
  exists msg,
    completion A = Thrown (TypeError msg)
    /\ completion A ≠ Thrown ProofTimeout
    /\ polls (trace A) = S k
    /\ completion H = Thrown (TypeError msg)
    /\ polls (trace H) = S k
    /\ count is_destination_call (trace H) = 0.
Proof.
  intros Hk Hp Hq Hr Hc Hreq Hst Hjob A H.
  destruct (awaitProof_no_result env jobId reg k r Hk Hp Hq Hr) as [msg HA].
  exists msg. subst A H.
  rewrite (handler_resolved CHAINS config env input reg 0 c Hc).
  rewrite Hreq, Hst, Hjob. rewrite bool_decide_eq_false_2 by (intros Hn; by apply Hn).
  cbv zeta. rewrite HA. cbn [completion trace after app].
  repeat split.
  - discriminate.
  - apply polls_poll_events.
  - unfold polls. rewrite count_cons. cbn [is_poll on_op op_is_poll request_of].
    fold (polls (poll_events env 10000 jobId 0 (S k))). by rewrite polls_poll_events.
  - rewrite count_cons. cbn [is_destination_call on_op op_is_destination_call request_of].
    by rewrite count_poll_events.
Qed.

(** The service answers the second poll with a JSON-RPC error body. *)
Lemma poll_without_result_aborts_witness :
  exists msg,
    completion (run (sample_env (error_at 1)) (awaitProof (JNum 77)) ∅ 0)
      = Thrown (TypeError msg)
    /\ polls (trace (run (sample_env (error_at 1))
                      (handleValueSetEvent sample_chains optimism_sepolia
                         (data_of (sample_event 84532) 3)) ∅ 0)) = 2.
Proof.
  destruct (poll_without_result_aborts sample_chains optimism_sepolia
              (sample_env (error_at 1)) (data_of (sample_event 84532) 3) ∅
              1 error_response base_sepolia
              {| status := 200; data := JObj [("jsonrpc", JStr "2.0"); ("result", JNum 77)] |}
              (JNum 77))
    as (msg & HA & _ & _ & _ & HH & _).
  - lia.
  - intros i Hi. apply (pending_before 1); [|done]. apply error_at_before.
  - reflexivity.
  - reflexivity.
  - reflexivity.
  - reflexivity.
  - reflexivity.
  - reflexivity.
  - exists msg. split; [exact HA | exact HH].
Defined.

(** ** An unresolved destination *)

Lemma destination_unresolved CHAINS a :
  (forall chain, chain ∈ CHAINS -> chainId chain ≠ destinationChainId a) ->
  destination_of CHAINS a = None.
Proof.
  unfold destination_of. intros H.
  induction CHAINS as [|c rest IH]; [done|]. simpl.
  rewrite bool_decide_eq_false_2.
  - apply IH. intros chain Hin. apply H. by right.
  - intros Heq. apply (inj pretty) in Heq. by apply (H c); [left|].
Qed.

Lemma describe_trace_quiet (f : forall X, E X -> bool) config env event reg n :
  (forall c m, f _ (GetBlock c m) = false) ->
  (forall c h, f _ (GetTransactionReceipt c h) = false) ->
  (forall b, f _ (ToUtf8String b) = false) ->
  count (on_op f) (trace (run env (describe config event) reg n)) = 0.
Proof.
  intros H1 H2 H3. apply Nat.le_0_r, AtMost_run. by apply describe_quiet.
Qed.

(** C5. When the destination chain ID of an event equals the chain ID of no
    configured chain, [handleValueSetEvent] logs the configuration error and
    returns, and that is all it does; the whole callback performs no call to
    the proof service and no call to a destination chain. *)
Theorem unresolved_destination_no_network CHAINS config env event reg :
  (forall chain, chain ∈ CHAINS -> chainId chain ≠ destinationChainId (args event)) ->
  (forall positionInBlock n,
     run env (handleValueSetEvent CHAINS config (data_of event positionInBlock)) reg n =
     Build_Run unit (Returned tt) reg n
       [Ev (ConsoleError ("No configuration found for destination chain ID: "
                          +:+ pretty (destinationChainId (args event))) None) tt])
  /\
  (let R := run env (onValueSet CHAINS config event) reg 0 in
   count is_proof_service_call (trace R) = 0
   /\ count is_destination_call (trace R) = 0).
Proof.
  intros Hno. pose proof (destination_unresolved CHAINS (args event) Hno) as Hd.
  split.
  - intros pos n. by apply handler_unresolved.
  - cbv zeta. destruct (decide (eventId_of (log event) ∈ reg)) as [Hin|Hout].
    + rewrite onValueSet_seen by done. done.
    + rewrite onValueSet_fresh by done. cbv zeta.
      pose proof (describe_trace_quiet (@op_is_proof_service_call) config env event reg 0
                    ltac:(done) ltac:(done) ltac:(done)) as Hp.
      pose proof (describe_trace_quiet (@op_is_destination_call) config env event reg 0
                    ltac:(done) ltac:(done) ltac:(done)) as Hq.
      fold is_proof_service_call in Hp. fold is_destination_call in Hq.
      destruct (completion (run env (describe config event) reg 0)) as [pos|e].
      * rewrite (handler_unresolved CHAINS config env (data_of event pos) reg 0 Hd).
        cbn [completion trace after app].
        rewrite !count_cons, !count_app, Hp, Hq. done.
      * cbn [completion trace after app].
        rewrite !count_cons, !count_app, Hp, Hq. done.
Qed.

(** An event bound for chain 1, which is not configured: one error line, and
    nothing sent to the proof service or to a destination. *)
Lemma unresolved_destination_no_network_witness :
  let R := run (sample_env (ready_at 2))
             (onValueSet sample_chains optimism_sepolia (sample_event 1)) ∅ 0 in
  count is_error_log (trace R) = 1
  /\ count is_proof_service_call (trace R) = 0
  /\ count is_destination_call (trace R) = 0.
Proof.
  split; [reflexivity|].
  apply (unresolved_destination_no_network sample_chains optimism_sepolia
           (sample_env (ready_at 2)) (sample_event 1) ∅).
  intros chain Hin.
  apply list_elem_of_In in Hin. simpl in Hin.
  destruct Hin as [<-|[<-|[]]]; simpl; lia.
Defined.

(** ** The submission *)

(** The proof argument of the calls made to the destination contract. *)
Lemma submit_run env c r s reg n :
  field (field (data r) "result") "proof" = JStr s ->
  ready r = true ->
  let p := "0x" +:+ to_hex (base64_decode s) in
  run env (submit c (Some r)) reg n =
  after [Ev (EstimateGas c 0 p) (on_estimateGas env)]
    match on_estimateGas env with
    | Rejected e => Build_Run unit (Thrown e) reg n []
    | Resolved gas =>
        after [Ev (SetValueFromSource c 0 p gas) (on_setValueFromSource env)]
          match on_setValueFromSource env with
          | Rejected e => Build_Run unit (Thrown e) reg n []
          | Resolved tx =>
              after [Ev (TxWait tx) (on_wait env)]
                match on_wait env with
                | Rejected e => Build_Run unit (Thrown e) reg n []
                | Resolved _ => Build_Run unit (Returned tt) reg n []
                end
          end
    end.
Proof.
  intros Hs Hr. pose proof (ready_has_result r Hr) as Hres.
  unfold has_result in Hres. apply andb_true_iff in Hres as [H1 H2].
  apply negb_true_iff in H1, H2.
  unfold submit, get. cbn [opt_data]. rewrite H1. cbn [lift]. plain. cbn [bind].
  rewrite H2. cbn [lift bind]. rewrite Hs. cbn [bufferFrom bind].
  unfold await. plain. cbn [bind call run answer settle].
  destruct (on_estimateGas env) as [gas|e]; cbn [bind call run answer settle]; [|done].
  destruct (on_setValueFromSource env) as [tx|e]; cbn [bind call run answer settle]; [|done].
  destruct (on_wait env) as [rc|e]; cbn [bind call run answer settle]; done.
Qed.

Lemma bufferFrom_quiet (f : forall X, E X -> bool) proof :
  (forall v, f _ (BufferFrom v) = false) -> AtMost f 0 (bufferFrom proof).
Proof.
  intros H. destruct proof; simpl; first [by apply AtMost_await | constructor].
Qed.

(** When gas estimation reverts, [submit] throws and dispatches nothing. *)
Lemma submit_reverting env c resp reg n err :
  on_estimateGas env = Rejected err ->
  let S := run env (submit c resp) reg n in
  submissions (trace S) = 0
  /\ exists e, completion S = Thrown e
               /\ (count is_estimate (trace S) ≠ 0 -> e = err).
Proof.
  intros Hg. unfold submit. plain. cbv zeta.
  rewrite run_bind_plain, run_lift. cbv zeta. cbn [completion trace registry polls_issued].
  destruct (get (opt_data resp) "result") as [e|result];
    [split; [done | exists e; split; [done | intros H; by destruct H]]|].
  rewrite after_nil, run_bind_plain, run_lift. cbv zeta.
  cbn [completion trace registry polls_issued].
  destruct (get result "proof") as [e|proof];
    [split; [done | exists e; split; [done | intros H; by destruct H]]|].
  rewrite after_nil, run_bind_plain. cbv zeta.
  pose proof (AtMost_run (@op_is_submission) (bufferFrom proof) 0 env reg n
                (bufferFrom_quiet _ proof (fun _ => eq_refl))) as Hb1.
  pose proof (AtMost_run (@op_is_estimate) (bufferFrom proof) 0 env reg n
                (bufferFrom_quiet _ proof (fun _ => eq_refl))) as Hb2.
  fold is_submission in Hb1. fold is_estimate in Hb2.
  destruct (completion (run env (bufferFrom proof) reg n)) as [bytes|e].
  - unfold await. plain. cbn [bind call run answer settle completion trace after].
    rewrite Hg. cbn [bind call run answer settle completion trace after].
    unfold submissions. rewrite count_app, count_cons. cbn [is_submission on_op op_is_submission].
    split; [unfold count at 2; simpl; lia|]. exists err. done.
  - cbn [completion trace]. unfold submissions. split; [lia|].
    exists e. split; [done|]. intros H. lia.
Qed.

Lemma awaitProof_trace_quiet (f : forall X, E X -> bool) env jobId reg n :
  f _ (SetTimeout 10000) = false ->
  f _ (AxiosPost POLYMER_API_URL receipt_queryProof [jobId]) = false ->
  count (on_op f) (trace (run env (awaitProof jobId) reg n)) = 0.
Proof. intros H1 H2. apply Nat.le_0_r, AtMost_run. by apply AtMost_awaitProof. Qed.

Lemma handler_reverting CHAINS config env input reg n err :
  on_estimateGas env = Rejected err ->
  let H := run env (handleValueSetEvent CHAINS config input) reg n in
  submissions (trace H) = 0
  /\ (count is_estimate (trace H) ≠ 0 -> completion H = Thrown err).
Proof.
  intros Hg. cbv zeta.
  destruct (destination_of CHAINS (d_args input)) as [c|] eqn:Hd.
  2: { rewrite handler_unresolved by done. split; [done|]. intros H. by destruct H. }
  rewrite (handler_resolved CHAINS config env input reg n c Hd).
  unfold submissions.
  destruct (on_requestProof env) as [q|e];
    [|split; [done | intros H; by destruct H]].
  destruct (bool_decide (status q ≠ 200%Z));
    [split; [done | intros H; by destruct H]|].
  destruct (get (data q) "result") as [e|jobId];
    [split; [done | intros H; by destruct H]|].
  cbv zeta.
  pose proof (awaitProof_trace_quiet (@op_is_submission) env jobId reg n eq_refl eq_refl) as Ha1.
  pose proof (awaitProof_trace_quiet (@op_is_estimate) env jobId reg n eq_refl eq_refl) as Ha2.
  fold is_submission in Ha1. fold is_estimate in Ha2.
  destruct (completion (run env (awaitProof jobId) reg n)) as [resp|e].
  - destruct (submit_reverting env c resp reg (polls_issued (run env (awaitProof jobId) reg n))
                err Hg) as (Hs & e & Hc & He).
    cbv zeta in *. unfold submissions in Hs.
    cbn [after trace completion app]. rewrite !count_cons, !count_app, Ha1, Ha2, Hs.
    cbn [is_submission is_estimate on_op op_is_submission op_is_estimate request_of].
    split; [done|]. intros H. rewrite Hc. f_equal. apply He. lia.
  - cbn [after trace completion app]. rewrite !count_cons, Ha1, Ha2.
    split; [done|]. intros H. by destruct H.
Qed.

(** C7. When gas estimation for the destination call throws, no transaction
    is dispatched, the error is reported on the console by the handler of the
    callback, and the registry is left as it was, without the identity of the
    event. *)
Theorem gas_estimation_failure CHAINS config env event reg err :
  on_estimateGas env = Rejected err ->
  let R := run env (onValueSet CHAINS config event) reg 0 in
  count is_estimate (trace R) ≠ 0 ->
  submissions (trace R) = 0
  /\ last (trace R)
     = Some (Ev (ConsoleError "Error handling ValueSet event:" (Some err)) tt)
  /\ registry R = reg
  /\ eventId_of (log event) ∉ registry R.
Proof.
  intros Hg R. subst R.
  destruct (decide (eventId_of (log event) ∈ reg)) as [Hin|Hout].
  { rewrite onValueSet_seen by done. intros H. by destruct H. }
  rewrite onValueSet_fresh by done. cbv zeta.
  pose proof (describe_trace_quiet (@op_is_submission) config env event reg 0
                (fun _ _ => eq_refl) (fun _ _ => eq_refl) (fun _ => eq_refl)) as Hd1.
  pose proof (describe_trace_quiet (@op_is_estimate) config env event reg 0
                (fun _ _ => eq_refl) (fun _ _ => eq_refl) (fun _ => eq_refl)) as Hd2.
  fold is_submission in Hd1. fold is_estimate in Hd2.
  destruct (completion (run env (describe config event) reg 0)) as [pos|e].
  - destruct (handler_reverting CHAINS config env (data_of event pos) reg 0 err Hg)
      as [Hs He]. cbv zeta in *. unfold submissions in *.
    destruct (completion (run env (handleValueSetEvent _ _ _) reg 0)) as [[]|e] eqn:Hc;
      cbn [after trace completion registry app];
      rewrite !count_cons, !count_app, Hd1, Hd2, Hs, !count_cons;
      cbn [is_submission is_estimate on_op op_is_submission op_is_estimate];
      intros H.
    + assert (Hne : count is_estimate
                      (trace (run env (handleValueSetEvent CHAINS config (data_of event pos))
                                reg 0)) ≠ 0) by (unfold count in *; simpl in *; lia).
      by specialize (He Hne).
    + assert (Hne : count is_estimate
                      (trace (run env (handleValueSetEvent CHAINS config (data_of event pos))
                                reg 0)) ≠ 0) by (unfold count in *; simpl in *; lia).
      specialize (He Hne). injection He as ->.
      split; [done|]. split; [|by split].
      rewrite !app_comm_cons, !app_assoc. apply last_snoc.
  - cbn [after trace completion registry app].
    rewrite !count_cons, !count_app, Hd2, !count_cons.
    cbn [is_estimate on_op op_is_estimate]. intros H. unfold count in H. simpl in H. lia.
Qed.

(** The proof is ready at the third poll and gas estimation reverts. *)
Lemma gas_estimation_failure_witness :
  let R := run (reverting_env (ready_at 2))
             (onValueSet sample_chains optimism_sepolia (sample_event 84532)) ∅ 0 in
  count is_estimate (trace R) = 1
  /\ submissions (trace R) = 0
  /\ sample_id ∉ registry R.
Proof.
  split; [reflexivity|].
  destruct (gas_estimation_failure sample_chains optimism_sepolia
              (reverting_env (ready_at 2)) (sample_event 84532) ∅
              (External "execution reverted") eq_refl)
    as (Hs & _ & _ & Hid).
  - vm_compute. discriminate.
  - split; [exact Hs | exact Hid].
Defined.

(** ** How an attempt ends *)

Lemma count_le (f g : Event -> bool) t :
  (forall ev, f ev = true -> g ev = true) -> count f t ≤ count g t.
Proof.
  intros H. induction t as [|ev t IH]; [done|].
  rewrite !count_cons. destruct (f ev) eqn:Hf; [rewrite (H ev Hf); lia|].
  destruct (g ev); lia.
Qed.

Lemma ready_poll_is_poll ev : is_ready_poll ev = true -> is_poll ev = true.
Proof. destruct ev as [X op x]. destruct op; try done. by destruct method. Qed.

Lemma confirmation_is_destination_call ev :
  is_confirmation ev = true -> is_destination_call ev = true.
Proof. destruct ev as [X op x]. by destruct op. Qed.

(** The loop returns the response of a poll, a ready one, and the only ready
    one it has seen. *)
Lemma loop_returned env d j m :
  forall a prev reg n resp,
    10 - a = m ->
    not_ready prev = true ->
    completion (run env (awaitProof_loop d j prev a) reg n) = Returned resp ->
    exists r, resp = Some r /\ ready r = true
              /\ count is_ready_poll (trace (run env (awaitProof_loop d j prev a) reg n)) = 1.
Proof.
  induction m as [|m IH]; intros a prev reg n resp Hm Hprev.
  - rewrite loop_timeout by (done || lia). done.
  - rewrite loop_poll by (done || lia).
    destruct (on_queryProof env n) as [r|e] eqn:Hq; simpl; rewrite Hq; [|done].
    destruct (read_status r) as [e|st]; [done|].
    destruct (not_ready (Some r)) eqn:Hr.
    + intros Hc. destruct (IH (S a) (Some r) reg (S n) resp) as (r' & -> & Hr' & Hcount);
        [lia|done|done|].
      exists r'. split; [done|]. split; [done|].
      cbn [after trace app]. rewrite !count_cons. simpl.
      unfold ready. rewrite Hr. simpl. done.
    + rewrite loop_exit by done. simpl. intros [= <-].
      exists r. unfold ready. rewrite Hr. split; [done|]. split; [done|].
      rewrite !count_cons. simpl. unfold ready. by rewrite Hr.
Qed.

Lemma awaitProof_returned env j reg n resp :
  completion (run env (awaitProof j) reg n) = Returned resp ->
  exists r, resp = Some r /\ ready r = true
            /\ count is_ready_poll (trace (run env (awaitProof j) reg n)) = 1.
Proof. unfold awaitProof. by apply (loop_returned env _ j 10). Qed.

(** [submit] returns exactly when the confirmation has arrived. *)
Lemma submit_outcome env c resp reg n :
  let S := run env (submit c resp) reg n in
  count is_ready_poll (trace S) = 0
  /\ match completion S with
     | Returned _ => count is_confirmation (trace S) = 1
     | Thrown _ => count is_confirmation (trace S) = 0
     end.
Proof.
  cbv zeta. split.
  { apply Nat.le_0_r. etrans; [apply count_le, ready_poll_is_poll|].
    apply (AtMost_run (@op_is_poll)), submit_polls. }
  unfold submit. plain.
  rewrite run_bind_plain, run_lift. cbv zeta. cbn [completion trace registry polls_issued].
  destruct (get (opt_data resp) "result") as [e|result]; [done|].
  rewrite after_nil, run_bind_plain, run_lift. cbv zeta.
  cbn [completion trace registry polls_issued].
  destruct (get result "proof") as [e|proof]; [done|].
  rewrite after_nil, run_bind_plain. cbv zeta.
  assert (Hb : count is_confirmation (trace (run env (bufferFrom proof) reg n)) = 0).
  { apply Nat.le_0_r. etrans; [apply count_le, confirmation_is_destination_call|].
    apply (AtMost_run (@op_is_destination_call)), bufferFrom_quiet. done. }
  destruct (completion (run env (bufferFrom proof) reg n)) as [bytes|e]; [|done].
  unfold await. plain. cbn [bind call run answer settle completion trace after].
  destruct (on_estimateGas env) as [gas|e];
    cbn [bind call run answer settle completion trace after];
    [|by rewrite count_app, Hb].
  destruct (on_setValueFromSource env) as [tx|e];
    cbn [bind call run answer settle completion trace after];
    [|by rewrite count_app, Hb].
  destruct (on_wait env) as [rc|e];
    cbn [bind call run answer settle completion trace after];
    by rewrite count_app, Hb, !count_cons.
Qed.

Lemma count_confirmation_quiet t :
  count is_destination_call t = 0 -> count is_confirmation t = 0.
Proof.
  intros H. apply Nat.le_0_r. rewrite <- H.
  apply count_le, confirmation_is_destination_call.
Qed.

Lemma handler_outcome CHAINS config env input reg n :
  let H := run env (handleValueSetEvent CHAINS config input) reg n in
  match completion H with
  | Returned _ =>
      (destination_of CHAINS (d_args input) = None
       /\ count is_drop_log (trace H) = 1
       /\ count is_confirmation (trace H) = 0)
      \/ (count is_ready_poll (trace H) = 1 /\ count is_confirmation (trace H) = 1)
  | Thrown _ => count is_confirmation (trace H) = 0
  end.
Proof.
  cbv zeta. destruct (destination_of CHAINS (d_args input)) as [c|] eqn:Hd.
  2: { rewrite handler_unresolved by done. by left. }
  rewrite (handler_resolved CHAINS config env input reg n c Hd).
  destruct (on_requestProof env) as [q|e]; [|done].
  destruct (bool_decide (status q ≠ 200%Z)); [done|].
  destruct (get (data q) "result") as [e|jobId]; [done|].
  cbv zeta.
  pose proof (count_confirmation_quiet _
                (awaitProof_trace_quiet (@op_is_destination_call) env jobId reg n
                   eq_refl eq_refl)) as Ha.
  destruct (completion (run env (awaitProof jobId) reg n)) as [resp|e] eqn:Hc.
  - destruct (awaitProof_returned env jobId reg n resp Hc) as (r & -> & Hr & Hone).
    destruct (submit_outcome env c (Some r) reg
                (polls_issued (run env (awaitProof jobId) reg n))) as [Hs1 Hs2].
    cbv zeta in *. cbn [after trace completion app].
    rewrite !count_cons, !count_app, Ha, Hone, Hs1.
    destruct (completion (run env (submit c (Some r)) reg _)) as [[]|e].
    + right. rewrite Hs2. done.
    + rewrite Hs2. done.
  - cbn [after trace completion app]. by rewrite !count_cons, Ha.
Qed.

Lemma describe_no_confirmation config env event reg n :
  count is_confirmation (trace (run env (describe config event) reg n)) = 0.
Proof.
  apply count_confirmation_quiet.
  by apply (describe_trace_quiet (@op_is_destination_call)).
Qed.

Lemma describe_no_ready_poll config env event reg n :
  count is_ready_poll (trace (run env (describe config event) reg n)) = 0.
Proof.
  apply Nat.le_0_r. etrans; [apply count_le, ready_poll_is_poll|].
  apply Nat.le_0_r. by apply (describe_trace_quiet (@op_is_poll)).
Qed.






(** ** Deliveries one after the other *)

Lemma deliver_all_cons CHAINS config reg d ds :
  deliver_all CHAINS config reg (d :: ds) =
  deliver CHAINS config reg d
  :: deliver_all CHAINS config (registry (deliver CHAINS config reg d)) ds.
Proof. done. Qed.

Lemma deliver_seen CHAINS config reg d :
  eventId_of (log (delivered d)) ∈ reg ->
  deliver CHAINS config reg d = noop (eventId_of (log (delivered d))) reg.
Proof. intros H. unfold deliver, noop. by apply onValueSet_seen. Qed.

(** A fresh delivery either records the identity or leaves the registry as it
    was, and in that case no submission was confirmed. *)
Lemma deliver_fresh CHAINS config reg d :
  eventId_of (log (delivered d)) ∉ reg ->
  let R := deliver CHAINS config reg d in
  registry R = {[ eventId_of (log (delivered d)) ]} ∪ reg
  \/ (registry R = reg /\ count is_confirmation (trace R) = 0).
Proof.
  intros Hout. unfold deliver. cbv zeta. rewrite onValueSet_fresh by done. cbv zeta.
  pose proof (describe_no_confirmation config (world d) (delivered d) reg 0) as Hd.
  destruct (completion (run _ (describe _ _) reg 0)) as [pos|e].
  - pose proof (handler_outcome CHAINS config (world d) (data_of (delivered d) pos) reg 0)
      as Hh. cbv zeta in Hh.
    destruct (completion (run _ (handleValueSetEvent _ _ _) reg 0)) as [[]|e].
    + by left.
    + right. cbn [after trace registry app].
      by rewrite !count_cons, !count_app, Hd, Hh.
  - right. cbn [after trace registry app]. by rewrite !count_cons, !count_app, Hd.
Qed.

Lemma confirmed_is_recorded CHAINS config reg d :
  count is_confirmation (trace (deliver CHAINS config reg d)) ≠ 0 ->
  eventId_of (log (delivered d)) ∈ registry (deliver CHAINS config reg d).
Proof.
  intros Hc. destruct (decide (eventId_of (log (delivered d)) ∈ reg)) as [Hin|Hout].
  - rewrite deliver_seen in Hc by done. by destruct Hc.
  - destruct (deliver_fresh CHAINS config reg d Hout) as [->|[_ Hz]].
    + set_solver.
    + by destruct Hc.
Qed.

Lemma deliver_all_seen CHAINS config id ds :
  Forall (fun d => eventId_of (log (delivered d)) = id) ds ->
  forall reg j R,
    id ∈ reg ->
    deliver_all CHAINS config reg ds !! j = Some R ->
    R = noop id reg.
Proof.
  induction 1 as [|d ds Hd _ IH]; intros reg j R Hin; [done|].
  rewrite deliver_all_cons, deliver_seen by (by rewrite Hd). rewrite Hd.
  destruct j as [|j]; cbn [lookup list_lookup noop registry].
  - by intros [= <-].
  - by apply IH.
Qed.

(** A confirmation is the confirmation of a transaction that was dispatched. *)
Lemma submit_confirmed_submitted env c resp reg n :
  let S := run env (submit c resp) reg n in
  count is_confirmation (trace S) ≤ submissions (trace S).
Proof.
  cbv zeta. unfold submit, submissions. plain.
  rewrite run_bind_plain, run_lift. cbv zeta. cbn [completion trace registry polls_issued].
  destruct (get (opt_data resp) "result") as [e|result]; [done|].
  rewrite after_nil, run_bind_plain, run_lift. cbv zeta.
  cbn [completion trace registry polls_issued].
  destruct (get result "proof") as [e|proof]; [done|].
  rewrite after_nil, run_bind_plain. cbv zeta.
  assert (Hb : count is_confirmation (trace (run env (bufferFrom proof) reg n)) = 0).
  { apply count_confirmation_quiet, Nat.le_0_r.
    apply (AtMost_run (@op_is_destination_call)), bufferFrom_quiet. done. }
  destruct (completion (run env (bufferFrom proof) reg n)) as [bytes|e];
    [|cbn [trace]; lia].
  unfold await. plain. cbn [bind call run answer settle completion trace after].
  rewrite !count_app, Hb.
  destruct (on_estimateGas env) as [gas|e];
    cbn [bind call run answer settle completion trace after];
    [|rewrite !count_cons, !count_nil; simpl; lia].
  destruct (on_setValueFromSource env) as [tx|e];
    cbn [bind call run answer settle completion trace after];
    [|rewrite !count_cons, !count_nil; simpl; lia].
  destruct (on_wait env) as [rc|e];
    cbn [bind call run answer settle completion trace after];
    rewrite !count_cons, !count_nil; simpl; lia.
Qed.

Lemma handler_confirmed_submitted CHAINS config env input reg n :
  let H := run env (handleValueSetEvent CHAINS config input) reg n in
  count is_confirmation (trace H) ≤ submissions (trace H).
Proof.
  cbv zeta. destruct (destination_of CHAINS (d_args input)) as [c|] eqn:Hd.
  2: { by rewrite handler_unresolved. }
  rewrite (handler_resolved CHAINS config env input reg n c Hd).
  destruct (on_requestProof env) as [q|e]; [|done].
  destruct (bool_decide (status q ≠ 200%Z)); [done|].
  destruct (get (data q) "result") as [e|jobId]; [done|].
  cbv zeta.
  pose proof (count_confirmation_quiet _
                (awaitProof_trace_quiet (@op_is_destination_call) env jobId reg n
                   eq_refl eq_refl)) as Ha.
  destruct (completion (run env (awaitProof jobId) reg n)) as [resp|e].
  - pose proof (submit_confirmed_submitted env c resp reg
                  (polls_issued (run env (awaitProof jobId) reg n))) as Hs.
    cbv zeta in Hs. unfold submissions in *. cbn [after trace app].
    rewrite !count_cons, !count_app, Ha. simpl. lia.
  - cbn [after trace app]. unfold submissions. rewrite !count_cons, Ha. simpl. lia.
Qed.

Lemma deliver_confirmed_submitted CHAINS config reg d :
  count is_confirmation (trace (deliver CHAINS config reg d)) ≠ 0 ->
  submissions (trace (deliver CHAINS config reg d)) = 1.
Proof.
  intros Hc. apply Nat.le_antisymm.
  { apply (AtMost_run (@op_is_submission)), onValueSet_once. }
  revert Hc. unfold deliver.
  destruct (decide (eventId_of (log (delivered d)) ∈ reg)) as [Hin|Hout].
  { rewrite onValueSet_seen by done. intros H. by destruct H. }
  rewrite onValueSet_fresh by done. cbv zeta.
  pose proof (describe_no_confirmation config (world d) (delivered d) reg 0) as Hd.
  unfold submissions.
  destruct (completion (run _ (describe _ _) reg 0)) as [pos|e].
  - pose proof (handler_confirmed_submitted CHAINS config (world d)
                  (data_of (delivered d) pos) reg 0) as Hh.
    cbv zeta in Hh. unfold submissions in Hh.
    destruct (completion (run _ (handleValueSetEvent _ _ _) reg 0)) as [[]|e];
      cbn [after trace app];
      rewrite !count_cons, !count_app, Hd, !count_cons, !count_nil; simpl; lia.
  - cbn [after trace app].
    rewrite !count_cons, !count_app, Hd, !count_cons, !count_nil. simpl. lia.
Qed.

Lemma deliver_all_at_most_once CHAINS config ds :
  forall reg,
    Forall (fun R => submissions (trace R) ≤ 1) (deliver_all CHAINS config reg ds).
Proof.
  induction ds as [|d ds IH]; intros reg; [constructor|].
  rewrite deliver_all_cons. constructor; [|apply IH].
  apply (AtMost_run (@op_is_submission)), onValueSet_once.
Qed.

(** C8, as amended. Among deliveries of events with equal identity handled
    one after the other, every delivery makes at most one submission; a
    delivery that succeeds (its submission is confirmed) makes exactly one,
    and every delivery after it only looks the identity up in the registry
    and returns: no block query, no proof request, no submission, and the
    registry is unchanged. *)
Theorem later_deliveries_are_noops CHAINS config id ds :
  Forall (fun d => eventId_of (log (delivered d)) = id) ds ->
  forall reg,
    Forall (fun R => submissions (trace R) ≤ 1) (deliver_all CHAINS config reg ds)
    /\ forall i j Ri Rj,
         i < j ->
         deliver_all CHAINS config reg ds !! i = Some Ri ->
         deliver_all CHAINS config reg ds !! j = Some Rj ->
         count is_confirmation (trace Ri) ≠ 0 ->
         submissions (trace Ri) = 1
         /\ trace Rj = [Ev (ProcessedHas id) true]
         /\ submissions (trace Rj) = 0
         /\ count is_confirmation (trace Rj) = 0
         /\ registry Rj = registry Ri.
Proof.
  intros Hall reg. split; [apply deliver_all_at_most_once|]. revert reg.
  induction Hall as [|d ds Hd Hds IH]; intros reg i j Ri Rj Hij; [done|].
  rewrite deliver_all_cons.
  destruct j as [|j]; [lia|]. destruct i as [|i]; cbn [lookup list_lookup].
  - intros [= <-] Hj Hc.
    pose proof (confirmed_is_recorded CHAINS config reg d Hc) as Hin.
    rewrite Hd in Hin.
    split; [by apply deliver_confirmed_submitted|].
    by rewrite (deliver_all_seen CHAINS config id ds Hds _ j Rj Hin Hj).
  - apply IH. lia.
Qed.

(** Three deliveries of one event: gas estimation reverts for the first, the
    second is relayed, the third is a no-op. *)
Lemma later_deliveries_are_noops_witness :
  let ds := [ {| delivered := sample_event 84532; world := reverting_env (ready_at 2) |};
              {| delivered := sample_event 84532; world := sample_env (ready_at 2) |};
              {| delivered := sample_event 84532; world := sample_env (ready_at 0) |} ] in
  map (fun R => submissions (trace R)) (deliver_all sample_chains optimism_sepolia ∅ ds)
    = [0; 1; 0]
  /\ forall R3, deliver_all sample_chains optimism_sepolia ∅ ds !! 2 = Some R3 ->
                trace R3 = [Ev (ProcessedHas sample_id) true].
Proof.
  intros ds. split; [reflexivity|].
  intros R3 H3.
  assert (Hall : Forall (fun d => eventId_of (log (delivered d)) = sample_id) ds)
    by (repeat constructor).
  destruct (deliver_all sample_chains optimism_sepolia ∅ ds !! 1) as [R2|] eqn:H2;
    [|discriminate H2].
  apply (proj2 (proj2 (later_deliveries_are_noops sample_chains optimism_sepolia sample_id
                         ds Hall ∅)
                  1 2 R2 R3 ltac:(lia) H2 H3
                  ltac:(injection H2 as <-; vm_compute; discriminate))).
Defined.

(** C8, as stated, fails: the first delivery sends its transaction and the
    wait for the confirmation fails, so that the delivery is not a success
    and the identity is not recorded; the second delivery of the event is
    relayed again, and succeeds.  A delivery that is not the first
    successful one has produced a destination submission, and there are two
    submissions for the one event. *)
Lemma unconfirmed_delivery_has_submitted :
  let ds := [ {| delivered := sample_event 84532; world := unconfirmed_env (ready_at 0) |};
              {| delivered := sample_event 84532; world := sample_env (ready_at 0) |};
              {| delivered := sample_event 84532; world := sample_env (ready_at 0) |} ] in
  let Rs := deliver_all sample_chains optimism_sepolia ∅ ds in
  Forall (fun d => eventId_of (log (delivered d)) = sample_id) ds
  /\ map (fun R => submissions (trace R)) Rs = [1; 1; 0]
  /\ map (fun R => count is_confirmation (trace R)) Rs = [0; 1; 0]
  /\ map (fun R => bool_decide (sample_id ∈ registry R)) Rs = [false; true; true].
Proof.
  split; [by repeat constructor|]. repeat split; vm_compute; reflexivity.
Qed.

(** ** Errors *)

(** C9. The callback never throws.  An error raised while it handles an
    event, before or inside [handleValueSetEvent], is caught and logged with
    [console.error] as the last thing the callback does; the registry is left
    as it was, so the deliveries handled afterwards run exactly as they
    would have without this one. *)
Theorem errors_stay_within_event CHAINS config env event reg :
  let R := run env (onValueSet CHAINS config event) reg 0 in
  completion R = Returned tt
  /\ forall e,
       raised CHAINS config env event reg e ->
       (exists msg, last (trace R) = Some (Ev (ConsoleError msg (Some e)) tt))
       /\ registry R = reg
       /\ forall ds,
            deliver_all CHAINS config reg ({| delivered := event; world := env |} :: ds)
            = R :: deliver_all CHAINS config reg ds.
Proof.
  cbv zeta. split.
  - destruct (decide (eventId_of (log event) ∈ reg)) as [Hin|Hout].
    + by rewrite onValueSet_seen.
    + rewrite onValueSet_fresh by done. cbv zeta.
      destruct (completion (run env (describe config event) reg 0)) as [pos|e]; [|done].
      by destruct (completion (run env (handleValueSetEvent _ _ _) reg 0)) as [[]|e].
  - intros e [Hout Hr].
    assert (Hreg : registry (run env (onValueSet CHAINS config event) reg 0) = reg
            /\ exists msg, last (trace (run env (onValueSet CHAINS config event) reg 0))
                           = Some (Ev (ConsoleError msg (Some e)) tt)).
    { rewrite onValueSet_fresh by done. cbv zeta.
      destruct (completion (run env (describe config event) reg 0)) as [pos|e'].
      - rewrite Hr. cbn [after trace registry app]. split; [done|].
        exists "Error handling ValueSet event:".
        rewrite !app_comm_cons, !app_assoc. apply last_snoc.
      - subst e'. cbn [after trace registry app]. split; [done|].
        exists "Error processing event:". rewrite !app_comm_cons. apply last_snoc. }
    destruct Hreg as [Hreg Hlast]. split; [done|]. split; [done|].
    intros ds. rewrite deliver_all_cons. unfold deliver at 1 2.
    cbn [delivered world]. by rewrite Hreg.
Qed.

(** Gas estimation reverts: the error is logged, the registry stays empty and
    the next delivery is handled as if it were the first. *)
Lemma errors_stay_within_event_witness :
  let R := run (reverting_env (ready_at 2))
             (onValueSet sample_chains optimism_sepolia (sample_event 84532)) ∅ 0 in
  completion R = Returned tt
  /\ registry R = ∅
  /\ last (trace R)
     = Some (Ev (ConsoleError "Error handling ValueSet event:"
                   (Some (External "execution reverted"))) tt).
Proof.
  destruct (errors_stay_within_event sample_chains optimism_sepolia
              (reverting_env (ready_at 2)) (sample_event 84532) ∅) as [Hc Hr].
  split; [exact Hc|].
  destruct (Hr (External "execution reverted")) as (_ & Hreg & _).
  - split; [set_solver | reflexivity].
  - split; [exact Hreg | reflexivity].
Defined.

(** ** base64 and hex *)

Lemma byte_of_N_to_N b : byte_of_N (Byte.to_N b) = b.
Proof.
  unfold byte_of_N. rewrite N.mod_small.
  - by rewrite Byte.of_to_N.
  - pose proof (Byte.to_N_bounded b). lia.
Qed.

Lemma unbase64_base64_char v : (v < 64)%N -> unbase64 (base64_char v) = Some v.
Proof.
  intros H. rewrite <- (N2Nat.id v). assert (Hn : N.to_nat v < 64) by lia.
  revert Hn. generalize (N.to_nat v). intros n Hn.
  do 64 (destruct n as [|n]; [reflexivity|]). lia.
Qed.

Lemma base64_char_not_pad v : base64_char v ≠ "="%char.
Proof.
  destruct (decide (v < 64)%N) as [H|H].
  - intros Heq. pose proof (unbase64_base64_char v H) as Hu. rewrite Heq in Hu. done.
  - unfold base64_char.
    destruct (N.ltb_spec v 26); [lia|]. destruct (N.ltb_spec v 52); [lia|].
    destruct (N.ltb_spec v 62); [lia|]. destruct (N.eqb_spec v 62); [lia|]. done.
Qed.

Lemma sextets_cons v s :
  (v < 64)%N -> sextets (String (base64_char v) s) = v :: sextets s.
Proof.
  intros H. simpl. rewrite bool_decide_eq_false_2 by apply base64_char_not_pad.
  by rewrite unbase64_base64_char.
Qed.

Lemma sextet_1 x : (x < 256)%N -> (x / 4 < 64)%N.
Proof. intros Hx. apply N.Div0.div_lt_upper_bound. lia. Qed.

Lemma sextet_2 x y : (y < 256)%N -> ((x mod 4) * 16 + y / 16 < 64)%N.
Proof.
  intros Hy.
  assert (x mod 4 < 4)%N by (apply N.mod_lt; lia).
  assert (y / 16 < 16)%N by (apply N.Div0.div_lt_upper_bound; lia). lia.
Qed.

Lemma sextet_3 y z : (z < 256)%N -> ((y mod 16) * 4 + z / 64 < 64)%N.
Proof.
  intros Hz.
  assert (y mod 16 < 16)%N by (apply N.mod_lt; lia).
  assert (z / 64 < 4)%N by (apply N.Div0.div_lt_upper_bound; lia). lia.
Qed.

Lemma sextet_4 z : (z mod 64 < 64)%N.
Proof. apply N.mod_lt. lia. Qed.

Lemma byte1_sextets x y :
  (x < 256)%N -> (y < 256)%N ->
  byte1 (x / 4) ((x mod 4) * 16 + y / 16) = byte_of_N x.
Proof.
  intros Hx Hy. unfold byte1. f_equal.
  rewrite (N.mod_small (x / 4)) by (by apply sextet_1).
  assert (H : (((x mod 4) * 16 + y / 16) / 16 = x mod 4)%N).
  { rewrite N.add_comm, N.div_add by lia.
    rewrite (N.div_small (y / 16)); [lia|].
    apply N.Div0.div_lt_upper_bound. lia. }
  rewrite H. pose proof (N.div_mod x 4). lia.
Qed.

Lemma byte2_sextets x y z :
  (y < 256)%N -> (z < 256)%N ->
  byte2 ((x mod 4) * 16 + y / 16) ((y mod 16) * 4 + z / 64) = byte_of_N y.
Proof.
  intros Hy Hz. unfold byte2. f_equal.
  assert (H1 : (((x mod 4) * 16 + y / 16) mod 16 = y / 16)%N).
  { rewrite N.add_comm, N.Div0.mod_add. apply N.mod_small.
    apply N.Div0.div_lt_upper_bound. lia. }
  assert (H2 : (((y mod 16) * 4 + z / 64) / 4 = y mod 16)%N).
  { rewrite N.add_comm, N.div_add by lia.
    rewrite (N.div_small (z / 64)); [lia|].
    apply N.Div0.div_lt_upper_bound. lia. }
  rewrite H1, H2. pose proof (N.div_mod y 16). lia.
Qed.

Lemma byte3_sextets y z :
  (z < 256)%N ->
  byte3 ((y mod 16) * 4 + z / 64) (z mod 64) = byte_of_N z.
Proof.
  intros Hz. unfold byte3. f_equal.
  assert (H1 : (((y mod 16) * 4 + z / 64) mod 4 = z / 64)%N).
  { rewrite N.add_comm, N.Div0.mod_add. apply N.mod_small.
    apply N.Div0.div_lt_upper_bound. lia. }
  rewrite H1. pose proof (N.div_mod z 64). lia.
Qed.

Lemma base64_round_trip_upto n :
  forall bs, length bs ≤ n -> base64_decode (base64_encode bs) = bs.
Proof.
  unfold base64_decode.
  induction n as [n IH] using lt_wf_ind. intros bs Hn.
  destruct bs as [|a [|b [|c rest]]]; [done| | |].
  - pose proof (Byte.to_N_bounded a) as Ha.
    cbn [base64_encode]. rewrite !sextets_cons.
    + simpl sextets. cbn [pack].
      replace ((Byte.to_N a mod 4) * 16)%N
        with ((Byte.to_N a mod 4) * 16 + 0 / 16)%N by (by rewrite N.add_0_r).
      by rewrite byte1_sextets, byte_of_N_to_N by lia.
    + assert (Byte.to_N a mod 4 < 4)%N by (apply N.mod_lt; lia). lia.
    + apply sextet_1. lia.
  - pose proof (Byte.to_N_bounded a) as Ha. pose proof (Byte.to_N_bounded b) as Hb.
    cbn [base64_encode]. rewrite !sextets_cons.
    + simpl sextets. cbn [pack].
      replace ((Byte.to_N b mod 16) * 4)%N
        with ((Byte.to_N b mod 16) * 4 + 0 / 64)%N by (by rewrite N.add_0_r).
      by rewrite byte1_sextets, byte2_sextets, !byte_of_N_to_N by lia.
    + assert (Byte.to_N b mod 16 < 16)%N by (apply N.mod_lt; lia). lia.
    + apply sextet_2; lia.
    + apply sextet_1. lia.
  - pose proof (Byte.to_N_bounded a) as Ha. pose proof (Byte.to_N_bounded b) as Hb.
    pose proof (Byte.to_N_bounded c) as Hc.
    cbn [base64_encode]. rewrite !sextets_cons.
    + cbn [pack].
      rewrite byte1_sextets, byte2_sextets, byte3_sextets, !byte_of_N_to_N by lia.
      do 3 f_equal. apply (IH (length rest)); simpl in *; lia.
    + apply sextet_4.
    + apply sextet_3; lia.
    + apply sextet_2; lia.
    + apply sextet_1. lia.
Qed.

Lemma base64_round_trip bs : base64_decode (base64_encode bs) = bs.
Proof. by apply (base64_round_trip_upto (length bs)). Qed.

Lemma unhex_hex_char v : (v < 16)%N -> unhex (hex_char v) = Some v.
Proof.
  intros H. rewrite <- (N2Nat.id v). assert (Hn : N.to_nat v < 16) by lia.
  revert Hn. generalize (N.to_nat v). intros n Hn.
  do 16 (destruct n as [|n]; [reflexivity|]). lia.
Qed.

Lemma from_hex_to_hex bs : from_hex (to_hex bs) = Some bs.
Proof.
  induction bs as [|b bs IH]; [done|].
  pose proof (Byte.to_N_bounded b) as Hb.
  cbn [to_hex from_hex].
  rewrite !unhex_hex_char
    by (first [apply N.mod_lt; lia | apply N.Div0.div_lt_upper_bound; lia]).
  rewrite IH. simpl. do 2 f_equal. rewrite <- (byte_of_N_to_N b) at 3. f_equal.
  pose proof (N.div_mod (Byte.to_N b) 16). lia.
Qed.

Lemma getBytes_to_hex bs : getBytes ("0x" +:+ to_hex bs) = Some bs.
Proof. simpl. apply from_hex_to_hex. Qed.

Lemma length_to_hex bs : String.length (to_hex bs) = 2 * length bs.
Proof. induction bs as [|b bs IH]; [done|]. simpl in *. lia. Qed.

Lemma length_0x_to_hex bs : String.length ("0x" +:+ to_hex bs) = 2 + 2 * length bs.
Proof.
  change (S (S (String.length (to_hex bs))) = 2 + 2 * length bs).
  rewrite length_to_hex. lia.
Qed.

Lemma filter_skip (f : Event -> bool) ev t :
  f ev = false -> List.filter f (ev :: t) = List.filter f t.
Proof. intros H. simpl. by rewrite H. Qed.

Lemma filter_keep (f : Event -> bool) ev t :
  f ev = true -> List.filter f (ev :: t) = ev :: List.filter f t.
Proof. intros H. simpl. by rewrite H. Qed.

Lemma filter_none (f : Event -> bool) t : count f t = 0 -> List.filter f t = [].
Proof. unfold count. apply length_zero_iff_nil. Qed.

(** C6. The base64 string of a ready proof is decoded to raw bytes before it
    is used: decoding the encoding of any bytes gives those bytes back, hence
    re-encoding what was decoded from a canonical proof string gives that
    string; and the proof handed to the destination contract, for gas
    estimation and for the transaction, is the hex string of exactly the
    decoded bytes, two digits a byte after [0x]. *)
Theorem proof_bytes_exact :
  (forall bs, base64_decode (base64_encode bs) = bs)
  /\
  (forall bs, base64_encode (base64_decode (base64_encode bs)) = base64_encode bs)
  /\
  (forall CHAINS config env input reg c q jobId k r s,
     destination_of CHAINS (d_args input) = Some c ->
     on_requestProof env = Resolved q ->
     status q = 200%Z ->
     get (data q) "result" = inr jobId ->
     k < 10 ->
     (forall i, i < k -> pending_at env i = true) ->
     on_queryProof env k = Resolved r ->
     ready r = true ->
     field (field (data r) "result") "proof" = JStr s ->
     let p := "0x" +:+ to_hex (base64_decode s) in
     let H := run env (handleValueSetEvent CHAINS config input) reg 0 in
     getBytes p = Some (base64_decode s)
     /\ String.length p = 2 + 2 * length (base64_decode s)
     /\ List.filter is_estimate (trace H) = [Ev (EstimateGas c 0 p) (on_estimateGas env)]
     /\ forall gas,
          on_estimateGas env = Resolved gas ->
          List.filter is_submission (trace H)
          = [Ev (SetValueFromSource c 0 p gas) (on_setValueFromSource env)]).
Proof.
  split; [apply base64_round_trip|].
  split; [intros bs; by rewrite base64_round_trip|].
  intros CHAINS config env input reg c q jobId k r s Hc Hreq Hst Hjob Hk Hp Hq Hr Hs p H.
  split; [apply getBytes_to_hex|].
  split; [apply length_0x_to_hex|].
  subst H. rewrite (handler_resolved CHAINS config env input reg 0 c Hc).
  rewrite Hreq, Hst, Hjob. rewrite bool_decide_eq_false_2 by (intros Hn; by apply Hn).
  cbv zeta. rewrite (awaitProof_ready env jobId reg k r Hk Hp Hq Hr).
  cbn [completion trace polls_issued]. rewrite (submit_run env c r s reg (S k) Hs Hr).
  cbv zeta. fold p.
  cbn [after trace app].
  rewrite !(filter_skip _ (Ev (request_of config input) _)) by done.
  rewrite !List.filter_app.
  rewrite (filter_none is_estimate (poll_events _ _ _ _ _))
    by (by apply count_poll_events).
  rewrite (filter_none is_submission (poll_events _ _ _ _ _))
    by (by apply count_poll_events).
  rewrite (filter_keep is_estimate) by done.
  rewrite (filter_skip is_submission) by done.
  cbn [app]. split.
  - f_equal.
    destruct (on_estimateGas env) as [gas|e]; [|done].
    cbn [after trace app]. rewrite filter_skip by done.
    destruct (on_setValueFromSource env) as [tx|e]; [|done].
    cbn [after trace app]. rewrite filter_skip by done.
    by destruct (on_wait env).
  - intros gas ->.
    cbn [after trace app]. rewrite filter_keep by done. f_equal.
    destruct (on_setValueFromSource env) as [tx|e]; [|done].
    cbn [after trace app]. rewrite filter_skip by done.
    by destruct (on_wait env).
Qed.

(** The proof [aGVsbG8=] is submitted as the five bytes of [hello]. *)
Lemma proof_bytes_exact_witness :
  base64_decode "aGVsbG8=" = ["h"; "e"; "l"; "l"; "o"]%byte
  /\ List.filter is_submission
       (trace (run (sample_env (ready_at 2))
                 (handleValueSetEvent sample_chains optimism_sepolia
                    (data_of (sample_event 84532) 3)) ∅ 0))
     = [Ev (SetValueFromSource base_sepolia 0 "0x68656c6c6f" 50000)
          (Resolved {| hash := "0xdd" |})].
Proof.
  split; [reflexivity|].
  refine (proj2 (proj2 (proj2 (proj2 (proj2 proof_bytes_exact)
            sample_chains optimism_sepolia (sample_env (ready_at 2))
            (data_of (sample_event 84532) 3) ∅ base_sepolia
            {| status := 200; data := JObj [("jsonrpc", JStr "2.0"); ("result", JNum 77)] |}
            (JNum 77) 2 complete_response "aGVsbG8="
            eq_refl eq_refl eq_refl eq_refl _ _ eq_refl eq_refl eq_refl))) 50000%N eq_refl).
  - lia.
  - intros i Hi. apply (pending_before 2); [|done]. apply ready_at_before.
Defined.

(** ** Deliveries in flight together *)

(** [AtMost], read off the head of the program. *)
Lemma AtMost_Vis (f : forall X, E X -> bool) {R X : Type} n (op : E X) (k : X -> Prog R) :
  AtMost f n (Vis op k) ->
  (f X op = false /\ forall x, AtMost f n (k x))
  \/ (exists n', n = S n' /\ forall x, AtMost f n' (k x)).
Proof.
  intros H.
  set (P := fun (n : nat) (p : Prog R) =>
              match p with
              | Vis op k =>
                  (f _ op = false /\ forall x, AtMost f n (k x))
                  \/ (exists n', n = S n' /\ forall x, AtMost f n' (k x))
              | _ => True
              end).
  change (P n (Vis op k)). destruct H; simpl; eauto.
Qed.

Lemma count_snoc f t ev : count f (t ++ [ev]) = count f t + (if f ev then 1 else 0).
Proof. rewrite count_app, count_cons. change (count f []) with 0. lia. Qed.

Lemma spawn_in_flight CHAINS config d : in_flight (spawn CHAINS config d).
Proof.
  split.
  - exists 1. split; [apply onValueSet_once | done].
  - left. done.
Qed.

Lemma step_task_in_flight reg t : in_flight t -> in_flight (step_task reg t).2.
Proof.
  intros Hinv. unfold step_task.
  destruct (t_prog t) as [r|e|X op k] eqn:Hp; [done..|].
  destruct Hinv as [(m & Hm & Hle) Hseen]. rewrite Hp in Hm.
  destruct (answer (t_env t) op reg (t_polls t)) as [[x reg'] polls'] eqn:Ha.
  cbn [snd t_prog t_trace]. split.
  - unfold submissions in *.
    destruct (AtMost_Vis _ m op k Hm) as [[Hf Hk]|(m' & -> & Hk)].
    + exists m. cbn [t_trace t_prog]. split; [apply Hk|]. rewrite count_snoc.
      cbn [is_submission on_op]. rewrite Hf. lia.
    + exists m'. cbn [t_trace t_prog]. split; [apply Hk|]. rewrite count_snoc.
      destruct (is_submission (Ev op x)); lia.
  - right. cbn [t_trace t_prog].
    destruct Hseen as [[Ht Hns]|(ev & rest & Ht & Hhit)].
    + exists (Ev op x), []. rewrite Ht. split; [done|].
      rewrite Hp in Hns. intros Hx. split; [done|].
      unfold finished. cbn [t_prog].
      destruct op; try done. destruct x; [|done]. simpl in Hns.
      by destruct (k true).
    + exists ev, (rest ++ [Ev op x]). rewrite Ht. split; [done|].
      intros Hh. destruct (Hhit Hh) as [_ Hfin].
      unfold finished in Hfin. by rewrite Hp in Hfin.
Qed.

Lemma step_in_flight i s :
  Forall in_flight (sys_tasks s) -> Forall in_flight (sys_tasks (step i s)).
Proof.
  intros H. unfold step.
  destruct (sys_tasks s !! i) as [t|] eqn:Hi; [|done].
  pose proof (step_task_in_flight (sys_registry s) t) as Ht.
  destruct (step_task (sys_registry s) t) as [reg' t']. cbn [sys_tasks].
  apply Forall_insert; [done|]. apply Ht. by apply (Forall_lookup_1 _ _ _ _ H Hi).
Qed.

Lemma step_length i s : length (sys_tasks (step i s)) = length (sys_tasks s).
Proof.
  unfold step. destruct (sys_tasks s !! i) as [t|]; [|done].
  destruct (step_task (sys_registry s) t) as [reg' t']. cbn [sys_tasks].
  apply length_insert.
Qed.

Lemma run_schedule_in_flight schedule s :
  Forall in_flight (sys_tasks s) ->
  Forall in_flight (sys_tasks (run_schedule schedule s))
  /\ length (sys_tasks (run_schedule schedule s)) = length (sys_tasks s).
Proof.
  revert s. induction schedule as [|i schedule IH]; intros s H; [done|].
  simpl. destruct (IH (step i s) (step_in_flight i s H)) as [H1 H2].
  split; [done|]. by rewrite H2, step_length.
Qed.

Lemma sum_list_bound (f : Task -> nat) ts :
  Forall (fun t => f t ≤ 1) ts -> sum_list (map f ts) ≤ length ts.
Proof. induction 1 as [|t ts Ht _ IH]; simpl; lia. Qed.

(** A callback resumed alone goes through the events of its sequential run. *)
Lemma alone_agrees_with_run env (p : Prog unit) :
  forall reg polls tr,
    let R := run env p reg polls in
    exists n,
      run_schedule (replicate n 0)
        {| sys_registry := reg;
           sys_tasks := [ {| t_env := env; t_polls := polls; t_prog := p; t_trace := tr |} ] |}
      = {| sys_registry := registry R;
           sys_tasks := [ {| t_env := env;
                             t_polls := polls_issued R;
                             t_prog := match completion R with
                                       | Returned r => Ret r
                                       | Thrown e => Throw e
                                       end;
                             t_trace := tr ++ trace R |} ] |}.
Proof.
  induction p as [r|e|X op k IH]; intros reg polls tr; cbv zeta.
  - exists 0. simpl. by rewrite app_nil_r.
  - exists 0. simpl. by rewrite app_nil_r.
  - rewrite run_Vis.
    destruct (answer env op reg polls) as [[x reg'] polls'] eqn:Ha.
    destruct (IH x reg' polls' (tr ++ [Ev op x])) as [n Hn].
    exists (S n). cbn [replicate run_schedule foldl].
    unfold step at 2. cbn [sys_tasks sys_registry lookup list_lookup].
    unfold step_task. cbn [t_prog t_env t_polls t_trace]. rewrite Ha.
    cbn [insert list_insert]. unfold run_schedule in Hn. rewrite Hn.
    cbn [fst snd after completion registry polls_issued trace].
    by rewrite <- app_assoc.
Qed.

(** * Further properties of the relay pipeline *)

(** ** The cost of waiting for a proof *)

Lemma AtMost_loop_polls d j :
  forall m prev a, 10 - a = m -> AtMost (@op_is_poll) m (awaitProof_loop d j prev a).
Proof.
  induction m as [|m IH]; intros prev a Hm; rewrite awaitProof_loop_body;
    (destruct (not_ready prev); [|constructor]);
    (destruct (decide (10 ≤ a)); [constructor|]); [lia|].
  apply (AtMost_bind _ _ _ 0 (S m)); [by apply AtMost_call|]. intros _.
  apply (AtMost_bind _ _ _ 1 m); [apply AtMost_await_1|]. intros r.
  apply (AtMost_bind _ _ _ 0 m); [apply AtMost_lift|]. intros result.
  apply (AtMost_bind _ _ _ 0 m); [apply AtMost_lift|]. intros _.
  apply IH. lia.
Qed.

Lemma loop_timers env d j :
  forall m prev a reg n,
    10 - a = m ->
    count is_timer (trace (run env (awaitProof_loop d j prev a) reg n))
    = polls (trace (run env (awaitProof_loop d j prev a) reg n)).
Proof.
  unfold polls.
  induction m as [|m IH]; intros prev a reg n Hm;
    (destruct (not_ready prev) eqn:Hprev; [|by rewrite loop_exit]).
  - by rewrite loop_timeout by (done || lia).
  - rewrite loop_poll by (done || lia). cbn [poll_events after trace app].
    rewrite !count_cons. cbn [is_timer is_poll on_op op_is_timer op_is_poll].
    destruct (on_queryProof env n) as [r|e]; [|done].
    destruct (read_status r); [done|].
    rewrite (IH (Some r) (S a) reg (S n)) by lia. done.
Qed.

Lemma submit_quiet (f : forall X, E X -> bool) c resp :
  (forall v, f _ (BufferFrom v) = false) ->
  (forall ch i p, f _ (EstimateGas ch i p) = false) ->
  (forall ch i p g, f _ (SetValueFromSource ch i p g) = false) ->
  (forall tx, f _ (TxWait tx) = false) ->
  AtMost f 0 (submit c resp).
Proof.
  intros H1 H2 H3 H4. unfold submit.
  apply (AtMost_bind _ _ _ 0 0); [apply AtMost_lift|]. intros result.
  apply (AtMost_bind _ _ _ 0 0); [apply AtMost_lift|]. intros proof.
  apply (AtMost_bind _ _ _ 0 0); [by apply bufferFrom_quiet|]. intros bytes.
  apply (AtMost_bind _ _ _ 0 0); [by apply AtMost_await|]. intros gas.
  apply (AtMost_bind _ _ _ 0 0); [by apply AtMost_await|]. intros tx.
  apply (AtMost_bind _ _ _ 0 0); [by apply AtMost_await|]. intros rc.
  constructor.
Qed.

Lemma onValueSet_polls CHAINS config event :
  AtMost (@op_is_poll) 10 (onValueSet CHAINS config event).
Proof.
  unfold onValueSet, process, relay.
  apply (AtMost_try_catch _ _ _ 10 0); [|intros e; by apply AtMost_call].
  apply (AtMost_bind _ _ _ 0 10); [by apply AtMost_call|]. intros [|]; [constructor|].
  apply (AtMost_bind _ _ _ 0 10); [by apply describe_quiet|]. intros pos.
  apply (AtMost_try_catch _ _ _ 10 0); [|intros e; by apply AtMost_call].
  apply (AtMost_bind _ _ _ 10 0); [|intros _; by apply AtMost_call].
  unfold handleValueSetEvent.
  destruct (find _ CHAINS) as [c|]; [|apply AtMost_mono with 0; [by apply AtMost_call | lia]].
  apply (AtMost_bind _ _ _ 0 10); [by apply AtMost_await|]. intros proofRequest.
  destruct (bool_decide _); [constructor|].
  apply (AtMost_bind _ _ _ 0 10); [apply AtMost_lift|]. intros jobId.
  apply (AtMost_bind _ _ _ 10 0); [by apply AtMost_loop_polls|]. intros resp.
  by apply submit_quiet.
Qed.

(** X1. Whatever the proof service answers, one relay attempt polls it at
    most ten times, and the poll loop arms exactly one timer for each poll
    it sends. *)
Theorem poll_budget CHAINS config env event jobId reg n :
  polls (trace (run env (onValueSet CHAINS config event) reg 0)) ≤ 10
  /\ polls (trace (run env (awaitProof jobId) reg n)) ≤ 10
  /\ count is_timer (trace (run env (awaitProof jobId) reg n))
     = polls (trace (run env (awaitProof jobId) reg n)).
Proof.
  split; [apply (AtMost_run (@op_is_poll)), onValueSet_polls|].
  split.
  - apply (AtMost_run (@op_is_poll)). by apply AtMost_loop_polls.
  - by apply (loop_timers env _ jobId 10).
Qed.

(** ** No submission without a proof *)

Lemma handler_destination_needs_proof CHAINS config env input reg n :
  let H := run env (handleValueSetEvent CHAINS config input) reg n in
  count is_destination_call (trace H) ≠ 0 ->
  count is_ready_poll (trace H) = 1
  /\ exists q, on_requestProof env = Resolved q /\ status q = 200%Z.
Proof.
  cbv zeta. destruct (destination_of CHAINS (d_args input)) as [c|] eqn:Hd.
  2: { rewrite handler_unresolved by done. intros H. by destruct H. }
  rewrite (handler_resolved CHAINS config env input reg n c Hd).
  destruct (on_requestProof env) as [q|e]; [|intros H; by destruct H].
  destruct (bool_decide (status q ≠ 200%Z)) eqn:Hst; [intros H; by destruct H|].
  apply bool_decide_eq_false in Hst. apply dec_stable in Hst.
  destruct (get (data q) "result") as [e|jobId]; [intros H; by destruct H|].
  cbv zeta.
  pose proof (awaitProof_trace_quiet (@op_is_destination_call) env jobId reg n
                eq_refl eq_refl) as Ha.
  fold is_destination_call in Ha.
  destruct (completion (run env (awaitProof jobId) reg n)) as [resp|e] eqn:Hc.
  - intros _. destruct (awaitProof_returned env jobId reg n resp Hc) as (r & -> & _ & Hone).
    destruct (submit_outcome env c (Some r) reg
                (polls_issued (run env (awaitProof jobId) reg n))) as [Hs _].
    cbv zeta in Hs. cbn [after trace app].
    rewrite !count_cons, !count_app, Hone, Hs. split; [done|]. by exists q.
  - cbn [after trace app]. rewrite !count_cons, Ha. intros H. by destruct H.
Qed.

(** X2. The destination chain is called only with a proof in hand: a run of
    the callback that makes any call to the destination contract (gas
    estimation included) has received exactly one poll response carrying a
    ready proof, after a proof request answered with status 200. *)
Theorem no_submission_without_proof CHAINS config env event reg :
  let R := run env (onValueSet CHAINS config event) reg 0 in
  count is_destination_call (trace R) ≠ 0 ->
  count is_ready_poll (trace R) = 1
  /\ exists q, on_requestProof env = Resolved q /\ status q = 200%Z.
Proof.
  cbv zeta. destruct (decide (eventId_of (log event) ∈ reg)) as [Hin|Hout].
  { rewrite onValueSet_seen by done. intros H. by destruct H. }
  rewrite onValueSet_fresh by done. cbv zeta.
  pose proof (describe_trace_quiet (@op_is_destination_call) config env event reg 0
                (fun _ _ => eq_refl) (fun _ _ => eq_refl) (fun _ => eq_refl)) as Hd.
  fold is_destination_call in Hd.
  pose proof (describe_no_ready_poll config env event reg 0) as Hd'.
  destruct (completion (run env (describe config event) reg 0)) as [pos|e].
  - pose proof (handler_destination_needs_proof CHAINS config env (data_of event pos) reg 0)
      as Hh. cbv zeta in Hh.
    destruct (completion (run env (handleValueSetEvent _ _ _) reg 0)) as [[]|e];
      cbn [after trace app]; rewrite !count_cons, !count_app, Hd, Hd', !count_cons, !count_nil;
      cbn [is_destination_call is_ready_poll on_op op_is_destination_call];
      intros H;
      (destruct Hh as [Hone Hq]; [lia|]); rewrite Hone; (split; [done | exact Hq]).
  - cbn [after trace app]. rewrite !count_cons, !count_app, Hd, !count_cons, !count_nil.
    cbn [is_destination_call on_op op_is_destination_call]. intros H. by destruct H.
Qed.

(** The third poll brings the proof; three destination calls follow. *)
Lemma no_submission_without_proof_witness :
  let R := run (sample_env (ready_at 2))
             (onValueSet sample_chains optimism_sepolia (sample_event 84532)) ∅ 0 in
  count is_destination_call (trace R) = 3 /\ count is_ready_poll (trace R) = 1.
Proof.
  split; [reflexivity|].
  apply (no_submission_without_proof sample_chains optimism_sepolia
           (sample_env (ready_at 2)) (sample_event 84532) ∅).
  vm_compute. discriminate.
Defined.

(** ** A proof request that fails *)

(** X3. A proof request that fails is not retried and ends the attempt: when
    the destination chain is configured and the request is rejected, or
    answered with a status other than 200, or answered with status 200 and a
    [data] that is [null] or [undefined], the relay routine throws after that
    single call; no poll is sent and the destination chain is not called.  A
    status other than 200 is reported with the status in the message. *)
Theorem failed_request_ends_attempt CHAINS config env input reg n c :
  destination_of CHAINS (d_args input) = Some c ->
  request_failed (on_requestProof env) = true ->
  let H := run env (handleValueSetEvent CHAINS config input) reg n in
  trace H = [Ev (request_of config input) (on_requestProof env)]
  /\ (exists e, completion H = Thrown e)
  /\ polls (trace H) = 0
  /\ count is_destination_call (trace H) = 0
  /\ forall q, on_requestProof env = Resolved q -> status q ≠ 200%Z ->
       completion H
       = Thrown (ErrorMsg ("Failed to get proof from Polymer API. Status code: "
                           +:+ pretty (status q))).
Proof.
  intros Hc Hf. cbv zeta.
  rewrite (handler_resolved CHAINS config env input reg n c Hc).
  destruct (on_requestProof env) as [q|e]; cbn [request_failed] in Hf.
  - destruct (bool_decide (status q ≠ 200%Z)) eqn:Hst.
    + cbn [after trace completion app].
      split; [done|]. split; [eauto|]. split; [done|]. split; [done|].
      by intros q' [= <-] _.
    + cbn [orb] in Hf. unfold get. rewrite Hf.
      cbn [after trace completion app].
      split; [done|]. split; [eauto|]. split; [done|]. split; [done|].
      intros q' [= <-] Hne. apply bool_decide_eq_false in Hst. by destruct Hst.
  - cbn [after trace completion app].
    split; [done|]. split; [eauto|]. split; [done|]. split; [done|].
    by intros q' [=].
Qed.

(** The proof service answers 202 Accepted: one call, and the error. *)
Lemma failed_request_ends_attempt_witness :
  let env := {| on_getBlock := on_getBlock (sample_env never_ready);
                on_getTransactionReceipt := on_getTransactionReceipt (sample_env never_ready);
                on_toUtf8String := on_toUtf8String (sample_env never_ready);
                on_requestProof := Resolved {| status := 202; data := JObj [] |};
                on_queryProof := never_ready;
                on_bufferFrom := on_bufferFrom (sample_env never_ready);
                on_estimateGas := on_estimateGas (sample_env never_ready);
                on_setValueFromSource := on_setValueFromSource (sample_env never_ready);
                on_wait := on_wait (sample_env never_ready) |} in
  completion (run env (handleValueSetEvent sample_chains optimism_sepolia
                         (data_of (sample_event 84532) 3)) ∅ 0)
  = Thrown (ErrorMsg "Failed to get proof from Polymer API. Status code: 202").
Proof.
  intros env.
  refine (proj2 (proj2 (proj2 (proj2
            (failed_request_ends_attempt sample_chains optimism_sepolia env
               (data_of (sample_event 84532) 3) ∅ 0 base_sepolia eq_refl eq_refl))))
            {| status := 202; data := JObj [] |} eq_refl _).
  simpl. lia.
Defined.

(** ** Inspecting the event *)

(** X5. Before anything is relayed the callback fetches the block and the
    receipt and prints the event.  That step succeeds exactly when the block
    query resolves (a missing block is tolerated), the receipt query resolves
    with a receipt, the value decodes as UTF-8 and the block time can be
    printed; its result is the index of the receipt.  When it fails (for
    instance on a value that is not valid UTF-8) the event is not relayed: no
    call to the proof service, none to the destination chain, and the
    registry is left as it was. *)
Theorem inspection_outcome CHAINS config env event reg :
  let D := run env (describe config event) reg 0 in
  let R := run env (onValueSet CHAINS config event) reg 0 in
  (forall pos,
     completion D = Returned pos <->
     exists block receipt text,
       on_getBlock env = Resolved block
       /\ on_getTransactionReceipt env = Resolved (Some receipt)
       /\ index receipt = pos
       /\ on_toUtf8String env = Resolved text
       /\ printable block)
  /\ (forall e,
        completion D = Thrown e ->
        count is_proof_service_call (trace R) = 0
        /\ count is_destination_call (trace R) = 0
        /\ registry R = reg).
Proof.
  cbv zeta. split.
  - intros pos. unfold describe, await, receipt_index, block_time, toISOString, printable.
    plain. cbn [bind call run answer settle completion].
    destruct (on_getBlock env) as [block|e]; cbn [bind call run answer settle completion].
    2: { split; [done|]. by intros (? & ? & ? & [=] & _). }
    destruct (on_getTransactionReceipt env) as [[rc|]|e];
      cbn [bind call run answer settle completion].
    2: { split; [done|]. by intros (? & ? & ? & _ & [=] & _). }
    2: { split; [done|]. by intros (? & ? & ? & _ & [=] & _). }
    destruct (on_toUtf8String env) as [text|e];
      cbn [bind call run answer settle completion].
    2: { split; [done|]. by intros (? & ? & ? & _ & _ & _ & [=] & _). }
    destruct block as [b|]; cbn [bind lift run completion].
    + destruct (Z.leb_spec (Z.abs (timestamp b * 1000)) 8640000000000000);
        cbn [bind lift run completion].
      * split.
        -- intros [= <-]. by exists (Some b), rc, text.
        -- intros (? & rc' & ? & _ & [= <-] & <- & _). done.
      * split; [done|]. intros (blk & ? & ? & [= <-] & _ & _ & _ & Hp). simpl in Hp. lia.
    + split.
      * intros [= <-]. by exists None, rc, text.
      * intros (? & rc' & ? & _ & [= <-] & <- & _). done.
  - intros e He. destruct (decide (eventId_of (log event) ∈ reg)) as [Hin|Hout].
    { by rewrite onValueSet_seen. }
    rewrite onValueSet_fresh by done. cbv zeta. rewrite He.
    pose proof (describe_trace_quiet (@op_is_proof_service_call) config env event reg 0
                  (fun _ _ => eq_refl) (fun _ _ => eq_refl) (fun _ => eq_refl)) as Hp.
    pose proof (describe_trace_quiet (@op_is_destination_call) config env event reg 0
                  (fun _ _ => eq_refl) (fun _ _ => eq_refl) (fun _ => eq_refl)) as Hq.
    fold is_proof_service_call in Hp. fold is_destination_call in Hq.
    cbn [after trace registry app]. by rewrite !count_cons, !count_app, Hp, Hq.
Qed.

(** A value that is not valid UTF-8: the inspection throws and nothing is
    sent to the proof service. *)
Lemma inspection_outcome_witness :
  let env := {| on_getBlock := on_getBlock (sample_env never_ready);
                on_getTransactionReceipt := on_getTransactionReceipt (sample_env never_ready);
                on_toUtf8String := Rejected (External "invalid codepoint");
                on_requestProof := on_requestProof (sample_env never_ready);
                on_queryProof := never_ready;
                on_bufferFrom := on_bufferFrom (sample_env never_ready);
                on_estimateGas := on_estimateGas (sample_env never_ready);
                on_setValueFromSource := on_setValueFromSource (sample_env never_ready);
                on_wait := on_wait (sample_env never_ready) |} in
  count is_proof_service_call
    (trace (run env (onValueSet sample_chains optimism_sepolia (sample_event 84532)) ∅ 0))
  = 0.
Proof.
  intros env.
  exact (proj1 (proj2 (inspection_outcome sample_chains optimism_sepolia env
                         (sample_event 84532) ∅)
                  (External "invalid codepoint") eq_refl)).
Defined.

(** ** What the operations carry *)

Lemma all_ops_mono {R : Type} (P Q : forall X, E X -> Prop) (p : Prog R) :
  (forall X (op : E X), P X op -> Q X op) -> all_ops P p -> all_ops Q p.
Proof.
  intros HPQ. induction p as [r|e|X op k IH]; [done..|].
  simpl. intros [Hop Hk]. split; [by apply HPQ|]. intros x. by apply IH.
Qed.

Lemma all_ops_bind {A B : Type} (P : forall X, E X -> Prop) (m : Prog A) (f : A -> Prog B) :
  all_ops P m -> (forall a, all_ops P (f a)) -> all_ops P (m ≫= f).
Proof.
  intros Hm Hf. induction m as [a|e|X op k IH]; [apply Hf|done|].
  destruct Hm as [Hop Hk]. change (Vis op k ≫= f) with (Vis op (fun x => k x ≫= f)).
  split; [done|]. intros x. by apply IH.
Qed.

Lemma all_ops_try_catch {R : Type} (P : forall X, E X -> Prop) (p : Prog R) h :
  all_ops P p -> (forall e, all_ops P (h e)) -> all_ops P (try_catch p h).
Proof.
  intros Hp Hh. induction p as [a|e|X op k IH]; [done|apply Hh|].
  destruct Hp as [Hop Hk]. simpl. split; [done|]. intros x. by apply IH.
Qed.

Lemma all_ops_call {X : Type} (P : forall X, E X -> Prop) (op : E X) :
  P _ op -> all_ops P (call op).
Proof. intros H. by split. Qed.

Lemma all_ops_await {X : Type} (P : forall X, E X -> Prop) (op : E (Outcome X)) :
  P _ op -> all_ops P (await op).
Proof.
  intros H. apply all_ops_bind; [by apply all_ops_call|]. by intros [x|e].
Qed.

Lemma all_ops_lift {X : Type} (P : forall X, E X -> Prop) (r : Error + X) :
  all_ops P (lift r).
Proof. by destruct r. Qed.

Lemma all_ops_run {R : Type} (P : forall X, E X -> Prop) (p : Prog R) env reg n :
  all_ops P p -> Forall (ev_op P) (trace (run env p reg n)).
Proof.
  revert reg n. induction p as [r|e|X op k IH]; intros reg n Hp; [constructor..|].
  destruct Hp as [Hop Hk]. rewrite run_Vis. cbn [after trace app].
  constructor; [done|]. by apply IH.
Qed.

Lemma all_ops_loop d j :
  forall m prev a, 10 - a = m -> all_ops (@polls_job j) (awaitProof_loop d j prev a).
Proof.
  induction m as [|m IH]; intros prev a Hm; rewrite awaitProof_loop_body;
    (destruct (not_ready prev); [|done]);
    (destruct (decide (10 ≤ a)); [done|]); [lia|].
  apply all_ops_bind; [by apply all_ops_call|]. intros _.
  apply all_ops_bind; [by apply all_ops_await|]. intros r.
  apply all_ops_bind; [apply all_ops_lift|]. intros result.
  apply all_ops_bind; [apply all_ops_lift|]. intros _.
  apply IH. lia.
Qed.

Lemma all_ops_awaitProof j : all_ops (@polls_job j) (awaitProof j).
Proof. unfold awaitProof. by apply (all_ops_loop _ j 10). Qed.

Lemma all_ops_bufferFrom (P : forall X, E X -> Prop) proof :
  (forall v, P _ (BufferFrom v)) -> all_ops P (bufferFrom proof).
Proof. intros H. destruct proof; simpl; first [done | by apply all_ops_await]. Qed.

(** [submit] sends no poll. *)
Lemma all_ops_submit_polls j c resp : all_ops (@poll_of j) (submit c resp).
Proof.
  unfold submit.
  apply all_ops_bind; [apply all_ops_lift|]. intros result.
  apply all_ops_bind; [apply all_ops_lift|]. intros proof.
  apply all_ops_bind; [by apply all_ops_bufferFrom|]. intros bytes.
  apply all_ops_bind; [by apply all_ops_await|]. intros gas.
  apply all_ops_bind; [by apply all_ops_await|]. intros tx.
  apply all_ops_bind; [by apply all_ops_await|]. done.
Qed.

(** X9. Every poll of a relay attempt goes to the proof service with the job
    identifier that the proof request returned (the [result] member of its
    body) as its only parameter. *)
Theorem polls_carry_job_id CHAINS config env input reg n q jobId :
  on_requestProof env = Resolved q ->
  get (data q) "result" = inr jobId ->
  Forall (ev_op (@poll_of jobId))
    (trace (run env (handleValueSetEvent CHAINS config input) reg n)).
Proof.
  intros Hq Hj.
  destruct (destination_of CHAINS (d_args input)) as [c|] eqn:Hd.
  2: { rewrite handler_unresolved by done. by repeat constructor. }
  rewrite (handler_resolved CHAINS config env input reg n c Hd), Hq.
  cbn [after trace app]. constructor; [done|].
  destruct (bool_decide (status q ≠ 200%Z)); [constructor|]. rewrite Hj. cbv zeta.
  pose proof (all_ops_run _ _ env reg n
                (all_ops_mono (@polls_job jobId) (@poll_of jobId) (awaitProof jobId)
                   ltac:(intros X [] H; try done; by destruct method, H as (? & ? & ?))
                   (all_ops_awaitProof jobId))) as Ha.
  destruct (completion (run env (awaitProof jobId) reg n)) as [resp|e]; [|done].
  cbn [after trace]. apply Forall_app. split; [done|].
  apply all_ops_run, all_ops_submit_polls.
Qed.

(** The three polls of the sample run carry job 77. *)
Lemma polls_carry_job_id_witness :
  Forall (ev_op (@poll_of (JNum 77)))
    (trace (run (sample_env (ready_at 2))
              (handleValueSetEvent sample_chains optimism_sepolia
                 (data_of (sample_event 84532) 3)) ∅ 0)).
Proof.
  exact (polls_carry_job_id sample_chains optimism_sepolia (sample_env (ready_at 2))
           (data_of (sample_event 84532) 3) ∅ 0
           {| status := 200; data := JObj [("jsonrpc", JStr "2.0"); ("result", JNum 77)] |}
           (JNum 77) eq_refl eq_refl).
Defined.

(** ** Where the proof goes *)

Lemma submit_aimed env c resp reg n :
  Forall (ev_op (@aimed_at c (on_estimateGas env))) (trace (run env (submit c resp) reg n)).
Proof.
  unfold submit. plain.
  rewrite run_bind_plain, run_lift. cbv zeta. cbn [completion trace registry polls_issued].
  destruct (get (opt_data resp) "result") as [e|result]; [constructor|].
  rewrite after_nil, run_bind_plain, run_lift. cbv zeta.
  cbn [completion trace registry polls_issued].
  destruct (get result "proof") as [e|proof]; [constructor|].
  rewrite after_nil, run_bind_plain. cbv zeta.
  pose proof (all_ops_run (@aimed_at c (on_estimateGas env)) (bufferFrom proof) env reg n
                (all_ops_bufferFrom _ proof (fun _ => I))) as Hb.
  destruct (completion (run env (bufferFrom proof) reg n)) as [bytes|e]; [|done].
  cbn [after trace]. apply Forall_app. split; [done|].
  unfold await. plain. cbn [bind call run answer settle completion trace].
  destruct (on_estimateGas env) as [gas|e] eqn:Hg;
    cbn [bind call run answer settle completion trace]; [|by repeat constructor].
  destruct (on_setValueFromSource env) as [tx|e];
    cbn [bind call run answer settle completion trace]; [|by repeat constructor].
  destruct (on_wait env) as [rc|e];
    cbn [bind call run answer settle completion trace]; by repeat constructor.
Qed.

Lemma destination_of_Some CHAINS a c :
  destination_of CHAINS a = Some c ->
  c ∈ CHAINS /\ chainId c = destinationChainId a.
Proof.
  unfold destination_of. intros H. apply find_some in H as [Hin Heq].
  split; [by apply list_elem_of_In|].
  apply bool_decide_eq_true in Heq. by apply (inj pretty).
Qed.

(** X4. The proof is handed to the contract of a configured chain whose chain
    ID is the destination chain ID of the event: every call of a relay
    attempt to a destination contract, for gas estimation or for the
    transaction, goes to that chain with index 0, and the transaction carries
    as its gas limit exactly the estimate that was returned. *)
Theorem submission_aimed_at_destination CHAINS config env input reg n c :
  destination_of CHAINS (d_args input) = Some c ->
  c ∈ CHAINS
  /\ chainId c = destinationChainId (d_args input)
  /\ Forall (ev_op (@aimed_at c (on_estimateGas env)))
       (trace (run env (handleValueSetEvent CHAINS config input) reg n)).
Proof.
  intros Hd. destruct (destination_of_Some CHAINS (d_args input) c Hd) as [Hin Hid].
  split; [done|]. split; [done|].
  rewrite (handler_resolved CHAINS config env input reg n c Hd).
  cbn [after trace app]. constructor; [done|].
  destruct (on_requestProof env) as [q|e]; [|constructor].
  destruct (bool_decide (status q ≠ 200%Z)); [constructor|].
  destruct (get (data q) "result") as [e|jobId]; [constructor|]. cbv zeta.
  pose proof (all_ops_run _ _ env reg n
                (all_ops_mono (@polls_job jobId) (@aimed_at c (on_estimateGas env))
                   (awaitProof jobId)
                   ltac:(by intros X [] H)
                   (all_ops_awaitProof jobId))) as Ha.
  destruct (completion (run env (awaitProof jobId) reg n)) as [resp|e]; [|done].
  cbn [after trace]. apply Forall_app. split; [done|]. apply submit_aimed.
Qed.

(** An event bound for chain 84532 is submitted to Base Sepolia. *)
Lemma submission_aimed_at_destination_witness :
  chainId base_sepolia = 84532%N
  /\ Forall (ev_op (@aimed_at base_sepolia (Resolved 50000%N)))
       (trace (run (sample_env (ready_at 2))
                 (handleValueSetEvent sample_chains optimism_sepolia
                    (data_of (sample_event 84532) 3)) ∅ 0)).
Proof.
  exact (proj2 (submission_aimed_at_destination sample_chains optimism_sepolia
                  (sample_env (ready_at 2)) (data_of (sample_event 84532) 3) ∅ 0
                  base_sepolia eq_refl)).
Defined.

(** ** The identity of an event *)

Lemma hyphen_split a a' r r' :
  hyphen_free a = true -> hyphen_free a' = true ->
  a +:+ String "-" r = a' +:+ String "-" r' ->
  a = a' /\ r = r'.
Proof.
  revert a'. induction a as [|x a IH]; intros [|y a'] Ha Ha'; simpl in *.
  - by intros [= ->].
  - intros [= <- ?]. by rewrite bool_decide_eq_true_2 in Ha'.
  - intros [= -> ?]. by rewrite bool_decide_eq_true_2 in Ha.
  - intros [= -> Heq].
    apply andb_true_iff in Ha as [_ Ha]. apply andb_true_iff in Ha' as [_ Ha'].
    destruct (IH a' Ha Ha' Heq) as [-> ->]. done.
Qed.

(** X6. The identity string of an event determines its block hash, its
    transaction hash and its log index, provided the hashes contain no
    hyphen (they are hexadecimal): two logs have the same identity exactly
    when they agree on the three.  The block number is not part of it.
    Without the proviso two different pairs of hashes can give one identity. *)
Theorem event_identity_injective :
  (forall l1 l2,
     hyphen_free (blockHash l1) = true -> hyphen_free (transactionHash l1) = true ->
     hyphen_free (blockHash l2) = true -> hyphen_free (transactionHash l2) = true ->
     (eventId_of l1 = eventId_of l2 <->
      blockHash l1 = blockHash l2
      /\ transactionHash l1 = transactionHash l2
      /\ logIndex l1 = logIndex l2))
  /\ eventId_of {| blockHash := "a-b"; blockNumber := 1; transactionHash := "c"; logIndex := 0 |}
     = eventId_of {| blockHash := "a"; blockNumber := 1; transactionHash := "b-c"; logIndex := 0 |}.
Proof.
  split; [|reflexivity].
  intros l1 l2 Hb1 Ht1 Hb2 Ht2. unfold eventId_of. split.
  - intros Heq.
    apply (hyphen_split _ _ _ _ Hb1 Hb2) in Heq as [Hb Heq].
    apply (hyphen_split _ _ _ _ Ht1 Ht2) in Heq as [Ht Heq].
    apply (inj pretty) in Heq. done.
  - by intros (-> & -> & ->).
Qed.

(** Two logs of one transaction, with hexadecimal hashes. *)
Lemma event_identity_injective_witness :
  eventId_of {| blockHash := "0xb1"; blockNumber := 100; transactionHash := "0x7a"; logIndex := 2 |}
  ≠ eventId_of {| blockHash := "0xb1"; blockNumber := 100; transactionHash := "0x7a"; logIndex := 3 |}.
Proof.
  intros Heq.
  apply (proj1 event_identity_injective
           {| blockHash := "0xb1"; blockNumber := 100; transactionHash := "0x7a"; logIndex := 2 |}
           {| blockHash := "0xb1"; blockNumber := 100; transactionHash := "0x7a"; logIndex := 3 |}
           eq_refl eq_refl eq_refl eq_refl) in Heq
    as (_ & _ & Hidx).
  discriminate Hidx.
Defined.

(** ** The parameters of the proof request *)

Lemma digit_pretty_N_char d : (d < 10)%N -> digit (pretty_N_char d) = Some (Z.of_N d).
Proof.
  intros H. rewrite <- (N2Nat.id d). assert (Hn : N.to_nat d < 10) by lia.
  revert Hn. generalize (N.to_nat d). intros n Hn.
  do 10 (destruct n as [|n]; [reflexivity|]). lia.
Qed.

Lemma parse_digits_pretty_N_go x :
  forall s, exists k : nat,
    forall acc, parse_digits acc (pretty_N_go x s)
                = parse_digits (acc * 10 ^ Z.of_nat k + Z.of_N x)%Z s.
Proof.
  induction (N.lt_wf_0 x) as [x _ IH]. intros s.
  destruct (decide (x = 0)%N) as [->|Hx].
  - exists 0. intros acc. rewrite pretty_N_go_0. f_equal. lia.
  - rewrite pretty_N_go_step by lia.
    destruct (IH (x `div` 10)%N ltac:(apply N.div_lt; lia)
                (String (pretty_N_char (x `mod` 10)) s)) as [k Hk].
    exists (S k). intros acc. rewrite Hk. cbn [parse_digits].
    rewrite digit_pretty_N_char by (apply N.mod_lt; lia). f_equal.
    rewrite Nat2Z.inj_succ, Z.pow_succ_r by lia.
    pose proof (N.div_mod x 10 ltac:(lia)). lia.
Qed.

Lemma parse_digits_pretty (n : N) : parse_digits 0 (pretty n) = Z.of_N n.
Proof.
  unfold pretty, pretty_N. destruct (decide (n = 0)%N) as [->|Hn]; [done|].
  destruct (parse_digits_pretty_N_go n "") as [k Hk]. rewrite Hk. simpl. lia.
Qed.

Lemma pretty_starts_with_digit (n : N) :
  exists c rest d, pretty n = String c rest /\ digit c = Some d.
Proof.
  unfold pretty, pretty_N. destruct (decide (n = 0)%N) as [->|Hn]; [by exists "0"%char, "", 0%Z|].
  assert (H : forall x s,
            (exists c rest d, s = String c rest /\ digit c = Some d) ->
            exists c rest d, pretty_N_go x s = String c rest /\ digit c = Some d).
  { intros x. induction (N.lt_wf_0 x) as [x _ IH]. intros s Hs.
    destruct (decide (x = 0)%N) as [->|Hx]; [by rewrite pretty_N_go_0|].
    rewrite pretty_N_go_step by lia. apply IH; [apply N.div_lt; lia|].
    eexists _, _, _. split; [done|]. apply digit_pretty_N_char, N.mod_lt. lia. }
  rewrite pretty_N_go_step by lia. apply H.
  eexists _, _, _. split; [done|]. apply digit_pretty_N_char, N.mod_lt. lia.
Qed.

Lemma parseInt_pretty (n : N) :
  (n < 2 ^ 53)%N -> parseInt (pretty n) = JNum (Z.of_N n).
Proof.
  intros Hn. destruct (pretty_starts_with_digit n) as (c & rest & d & Hs & Hd).
  unfold parseInt. pose proof (parse_digits_pretty n) as Hp.
  rewrite Hs in *. rewrite Hd, Hp. unfold to_double.
  assert ((Z.of_N n <? 9007199254740992)%Z = true) as -> by lia. done.
Qed.

(** X7. Printing the destination chain ID in decimal and reading it back with
    [parseInt] gives the number again as long as the chain ID is below 2^53;
    above, [parseInt] rounds to a Number, so that 2^53 + 1 is read as 2^53.
    For a destination chain ID below 2^53 the proof request of a relay
    attempt, its first operation when the destination is configured, carries
    the four numbers: source chain ID, destination chain ID, block number and
    position in the block. *)
Theorem request_parameters :
  (forall n : N, (n < 2 ^ 53)%N -> parseInt (pretty n) = JNum (Z.of_N n))
  /\ parseInt (pretty 9007199254740993%N) = JNum 9007199254740992
  /\ forall CHAINS config env input reg n c,
       destination_of CHAINS (d_args input) = Some c ->
       (destinationChainId (d_args input) < 2 ^ 53)%N ->
       head (trace (run env (handleValueSetEvent CHAINS config input) reg n))
       = Some (Ev (AxiosPost POLYMER_API_URL receipt_requestProof
                     [JNum (Z.of_N (chainId config));
                      JNum (Z.of_N (destinationChainId (d_args input)));
                      JNum (Z.of_N (d_blockNumber input));
                      JNum (Z.of_N (d_positionInBlock input))])
                 (on_requestProof env)).
Proof.
  split; [apply parseInt_pretty|]. split; [by vm_compute|].
  intros CHAINS config env input reg n c Hd Hsafe.
  rewrite (handler_resolved CHAINS config env input reg n c Hd).
  cbn [after trace app head]. unfold request_of. by rewrite parseInt_pretty.
Qed.

(** The request of the sample event. *)
Lemma request_parameters_witness :
  head (trace (run (sample_env (ready_at 2))
                 (handleValueSetEvent sample_chains optimism_sepolia
                    (data_of (sample_event 84532) 3)) ∅ 0))
  = Some (Ev (AxiosPost POLYMER_API_URL receipt_requestProof
                [JNum 11155420; JNum 84532; JNum 100; JNum 3])
            (on_requestProof (sample_env (ready_at 2)))).
Proof.
  exact (proj2 (proj2 request_parameters) sample_chains optimism_sepolia
           (sample_env (ready_at 2)) (data_of (sample_event 84532) 3) ∅ 0 base_sepolia
           eq_refl eq_refl).
Defined.

(** ** What the registry holds *)

Lemma all_ops_describe (P : forall X, E X -> Prop) config event :
  (forall c n, P _ (GetBlock c n)) ->
  (forall c h, P _ (GetTransactionReceipt c h)) ->
  (forall b, P _ (ToUtf8String b)) ->
  all_ops P (describe config event).
Proof.
  intros H1 H2 H3. unfold describe.
  apply all_ops_bind; [by apply all_ops_await|]. intros block.
  apply all_ops_bind; [by apply all_ops_await|]. intros receipt.
  apply all_ops_bind; [by destruct receipt|]. intros pos.
  apply all_ops_bind; [by apply all_ops_await|]. intros _.
  apply all_ops_bind; [destruct block; [apply all_ops_lift | done]|]. done.
Qed.

Lemma all_ops_submit (P : forall X, E X -> Prop) c resp :
  (forall v, P _ (BufferFrom v)) ->
  (forall ch i p, P _ (EstimateGas ch i p)) ->
  (forall ch i p g, P _ (SetValueFromSource ch i p g)) ->
  (forall tx, P _ (TxWait tx)) ->
  all_ops P (submit c resp).
Proof.
  intros H1 H2 H3 H4. unfold submit.
  apply all_ops_bind; [apply all_ops_lift|]. intros result.
  apply all_ops_bind; [apply all_ops_lift|]. intros proof.
  apply all_ops_bind; [by apply all_ops_bufferFrom|]. intros bytes.
  apply all_ops_bind; [by apply all_ops_await|]. intros gas.
  apply all_ops_bind; [by apply all_ops_await|]. intros tx.
  apply all_ops_bind; [by apply all_ops_await|]. done.
Qed.

Lemma all_ops_handler (P : forall X, E X -> Prop) CHAINS config input :
  (forall m e, P _ (ConsoleError m e)) ->
  (forall u m ps, P _ (AxiosPost u m ps)) ->
  (forall ms, P _ (SetTimeout ms)) ->
  (forall v, P _ (BufferFrom v)) ->
  (forall ch i p, P _ (EstimateGas ch i p)) ->
  (forall ch i p g, P _ (SetValueFromSource ch i p g)) ->
  (forall tx, P _ (TxWait tx)) ->
  all_ops P (handleValueSetEvent CHAINS config input).
Proof.
  intros H1 H2 H3 H4 H5 H6 H7. unfold handleValueSetEvent.
  destruct (find _ CHAINS) as [c|]; [|by apply all_ops_call].
  apply all_ops_bind; [by apply all_ops_await|]. intros proofRequest.
  destruct (bool_decide _); [done|].
  apply all_ops_bind; [apply all_ops_lift|]. intros jobId.
  apply all_ops_bind; [|intros resp; by apply all_ops_submit].
  apply (all_ops_mono (@polls_job jobId)); [|apply all_ops_awaitProof].
  by intros X [].
Qed.

(** The callback of an event adds no other identity than that of the event. *)
Lemma onValueSet_adds CHAINS config event ids :
  eventId_of (log event) ∈ ids ->
  all_ops (@adds_in ids) (onValueSet CHAINS config event).
Proof.
  intros Hid. unfold onValueSet, process, relay.
  apply all_ops_try_catch; [|intros e; by apply all_ops_call].
  apply all_ops_bind; [by apply all_ops_call|]. intros [|]; [done|].
  apply all_ops_bind; [by apply all_ops_describe|]. intros pos.
  apply all_ops_try_catch; [|intros e; by apply all_ops_call].
  apply all_ops_bind; [by apply all_ops_handler|]. intros _.
  by apply all_ops_call.
Qed.

Lemma answer_registry_bounds env {X : Type} (op : E X) reg n ids :
  adds_in ids op ->
  reg ⊆ (answer env op reg n).1.2 /\ (answer env op reg n).1.2 ⊆ reg ∪ ids.
Proof.
  intros Hop.
  assert (Hsame : reg ⊆ reg /\ reg ⊆ reg ∪ ids)
    by (split; [done | apply union_subseteq_l]).
  destruct op as [| eventId | | | | | ? method | | | | |];
    simpl; try exact Hsame; [|destruct method; exact Hsame].
  split; [apply union_subseteq_r|].
  apply union_least; [|apply union_subseteq_l].
  apply singleton_subseteq_l, elem_of_union_r, Hop.
Qed.

Lemma step_registry_bounds ids i s :
  Forall (fun t => all_ops (@adds_in ids) (t_prog t)) (sys_tasks s) ->
  Forall (fun t => all_ops (@adds_in ids) (t_prog t)) (sys_tasks (step i s))
  /\ sys_registry s ⊆ sys_registry (step i s)
  /\ sys_registry (step i s) ⊆ sys_registry s ∪ ids.
Proof.
  intros H. unfold step.
  destruct (sys_tasks s !! i) as [t|] eqn:Hi; [|split; [done | split; [done | apply union_subseteq_l]]].
  pose proof (Forall_lookup_1 _ _ _ _ H Hi) as Ht. cbv beta in Ht. unfold step_task.
  destruct (t_prog t) as [r|e|X op k] eqn:Hp.
  - cbn [sys_tasks sys_registry]. split; [|split; [done | apply union_subseteq_l]].
    apply Forall_insert; [done|]. by rewrite Hp.
  - cbn [sys_tasks sys_registry]. split; [|split; [done | apply union_subseteq_l]].
    apply Forall_insert; [done|]. by rewrite Hp.
  - simpl in Ht. destruct Ht as [Hop Hk].
    pose proof (answer_registry_bounds (t_env t) op (sys_registry s) (t_polls t) ids Hop)
      as Hb.
    destruct (answer (t_env t) op (sys_registry s) (t_polls t)) as [[x reg'] polls'].
    cbn [sys_tasks sys_registry fst snd] in *. split; [|done].
    apply Forall_insert; [done|]. apply Hk.
Qed.

Lemma run_schedule_registry_bounds ids schedule s :
  Forall (fun t => all_ops (@adds_in ids) (t_prog t)) (sys_tasks s) ->
  sys_registry s ⊆ sys_registry (run_schedule schedule s)
  /\ sys_registry (run_schedule schedule s) ⊆ sys_registry s ∪ ids.
Proof.
  revert s. induction schedule as [|i schedule IH]; intros s Hs.
  { simpl. split; [done | apply union_subseteq_l]. }
  simpl. destruct (step_registry_bounds ids i s Hs) as (Hs' & Hlo & Hhi).
  destruct (IH (step i s) Hs') as [IHlo IHhi]. split; [by etrans|].
  etrans; [exact IHhi|]. apply union_least; [done | apply union_subseteq_r].
Qed.

(** X8. Whatever the order in which the callbacks of deliveries in flight
    together are resumed, the registry only grows, and what it gains are
    identities of events that were delivered: nothing is ever removed from
    it, and nothing else is ever added. *)
Theorem registry_grows_by_delivered_identities CHAINS config reg ds schedule :
  let s := run_schedule schedule (start CHAINS config reg ds) in
  reg ⊆ sys_registry s /\ sys_registry s ⊆ reg ∪ identities ds.
Proof.
  cbv zeta.
  apply (run_schedule_registry_bounds (identities ds) schedule
           (start CHAINS config reg ds)).
  unfold start. cbn [sys_tasks]. apply Forall_map, Forall_forall. intros d Hd.
  apply onValueSet_adds. unfold identities.
  apply elem_of_list_to_set, list_elem_of_fmap. by exists d.
Qed.

(** ** Deliveries in flight together: the registry check *)

Lemma answer_not_lookup env {X : Type} (op : E X) r1 r2 n :
  op_not_lookup op ->
  (answer env op r1 n).1.1 = (answer env op r2 n).1.1
  /\ (answer env op r1 n).2 = (answer env op r2 n).2.
Proof.
  destruct op as [| | | | | | ? method | | | | |]; try done. by destruct method.
Qed.

(** After the lookup, what a callback does no longer depends on the registry. *)
Lemma run_not_lookup {R : Type} env (p : Prog R) :
  all_ops (@op_not_lookup) p ->
  forall r1 r2 n, trace (run env p r1 n) = trace (run env p r2 n).
Proof.
  induction p as [r|e|X op k IH]; intros Hp r1 r2 n; [done..|].
  destruct Hp as [Hop Hk]. rewrite !run_Vis. cbn [after trace].
  destruct (answer_not_lookup env op r1 r2 n Hop) as [-> ->].
  f_equal. by apply IH.
Qed.

Lemma add_returns_quiet {R : Type} (p : Prog R) :
  all_ops (@op_not_add) p -> add_returns p.
Proof.
  induction p as [r|e|X op k IH]; [done..|]. intros [Hop Hk].
  split; [by destruct op | intros x; by apply IH].
Qed.

Lemma add_returns_bind {A B : Type} (m : Prog A) (f : A -> Prog B) :
  all_ops (@op_not_add) m -> (forall a, add_returns (f a)) -> add_returns (m ≫= f).
Proof.
  intros Hm Hf. induction m as [a|e|X op k IH]; [apply Hf|done|].
  destruct Hm as [Hop Hk]. change (Vis op k ≫= f) with (Vis op (fun x => k x ≫= f)).
  split; [by destruct op | intros x; by apply IH].
Qed.

Lemma add_returns_try_catch {R : Type} (p : Prog R) h :
  add_returns p -> (forall e, add_returns (h e)) -> add_returns (try_catch p h).
Proof.
  intros Hp Hh. induction p as [a|e|X op k IH]; [done|apply Hh|].
  destruct Hp as [Hop Hk]. simpl. split; [|intros x; by apply IH].
  destruct op; try done. simpl in *. by destruct (k ()).
Qed.

Lemma onValueSet_add_returns CHAINS config event :
  add_returns (onValueSet CHAINS config event).
Proof.
  unfold onValueSet, process, relay.
  apply add_returns_try_catch; [|intros e; by apply add_returns_quiet, all_ops_call].
  apply add_returns_bind; [by apply all_ops_call|]. intros [|]; [done|].
  apply add_returns_bind; [by apply all_ops_describe|]. intros pos.
  apply add_returns_try_catch; [|intros e; by apply add_returns_quiet, all_ops_call].
  apply add_returns_bind; [by apply all_ops_handler|]. intros _.
  split; [done|]. by intros [].
Qed.

(** ** Steps of the system seen from one callback *)

Lemma step_other i j s :
  i <> j -> sys_tasks (step i s) !! j = sys_tasks s !! j.
Proof.
  intros Hij. unfold step. destruct (sys_tasks s !! i) as [t|]; [|done].
  destruct (step_task (sys_registry s) t) as [reg' t']. cbn [sys_tasks].
  by apply list_lookup_insert_ne.
Qed.

Lemma step_same i s t :
  sys_tasks s !! i = Some t ->
  sys_tasks (step i s) !! i = Some (step_task (sys_registry s) t).2
  /\ sys_registry (step i s) = (step_task (sys_registry s) t).1.
Proof.
  intros Hi. unfold step. rewrite Hi.
  destruct (step_task (sys_registry s) t) as [reg' t']. cbn [sys_tasks sys_registry].
  split; [|done]. apply list_lookup_insert_eq. by eapply lookup_lt_Some.
Qed.

Lemma run_schedule_cons i schedule s :
  run_schedule (i :: schedule) s = run_schedule schedule (step i s).
Proof. done. Qed.

Lemma run_schedule_app early late s :
  run_schedule (early ++ late) s = run_schedule late (run_schedule early s).
Proof. apply foldl_app. Qed.

(** A callback that the schedule does not name stays as it is. *)
Lemma run_schedule_untouched schedule :
  forall s i, i ∉ schedule ->
    sys_tasks (run_schedule schedule s) !! i = sys_tasks s !! i.
Proof.
  induction schedule as [|j schedule IH]; intros s i Hi; [done|].
  rewrite run_schedule_cons, IH by (intros ?; apply Hi; by right).
  apply step_other. intros ->. apply Hi. by left.
Qed.

(** What a step of a callback preserves holds of it under every schedule. *)
Lemma run_schedule_task (P : Task -> Prop) :
  (forall reg t, P t -> P (step_task reg t).2) ->
  forall schedule s i t,
    sys_tasks s !! i = Some t -> P t ->
    exists t', sys_tasks (run_schedule schedule s) !! i = Some t' /\ P t'.
Proof.
  intros Hstep. induction schedule as [|j schedule IH]; intros s i t Hi Ht; [by exists t|].
  rewrite run_schedule_cons. destruct (decide (j = i)) as [->|Hji].
  - destruct (step_same i s t Hi) as [Hi' _]. eapply IH; [exact Hi'|]. by apply Hstep.
  - eapply IH; [|exact Ht]. by rewrite step_other.
Qed.

Lemma step_task_finished reg t : finished t = true -> step_task reg t = (reg, t).
Proof. unfold finished, step_task. by destruct (t_prog t). Qed.

Lemma step_task_stays_finished reg t :
  finished t = true -> finished (step_task reg t).2 = true.
Proof. intros H. by rewrite step_task_finished. Qed.

(** ** The registry is written as a callback ends *)

Lemma step_task_registry reg t :
  add_returns (t_prog t) ->
  add_returns (t_prog (step_task reg t).2)
  /\ ((step_task reg t).1 = reg \/ finished (step_task reg t).2 = true).
Proof.
  unfold step_task, finished. destruct (t_prog t) as [r|e|X op k] eqn:Hp.
  - intros _. cbn [fst snd]. rewrite Hp. by split; [|left].
  - intros _. cbn [fst snd]. rewrite Hp. by split; [|left].
  - intros [Hop Hk].
    destruct op as [| eventId | | | | | ? method | | | | |]; cbn [answer fst snd t_prog];
      try (split; [apply Hk | by left]).
    + split; [apply Hk|]. right. simpl in Hop. by destruct (k ()).
    + destruct method; cbn [fst snd t_prog]; (split; [apply Hk | by left]).
Qed.

Lemma run_schedule_unfinished schedule :
  forall s,
    Forall (fun t => add_returns (t_prog t)) (sys_tasks s) ->
    Forall (fun t => finished t = false) (sys_tasks (run_schedule schedule s)) ->
    sys_registry (run_schedule schedule s) = sys_registry s.
Proof.
  induction schedule as [|i schedule IH]; intros s Hadd Hun; [done|].
  rewrite run_schedule_cons in *.
  destruct (sys_tasks s !! i) as [t|] eqn:Hi.
  2: { assert (step i s = s) as Hs by (unfold step; by rewrite Hi).
       rewrite Hs in *. by apply IH. }
  destruct (step_same i s t Hi) as [Hi' Hreg].
  pose proof (Forall_lookup_1 _ _ _ _ Hadd Hi) as Ht. cbv beta in Ht.
  destruct (step_task_registry (sys_registry s) t Ht) as [Ht' Hcase].
  assert (Hadd' : Forall (fun t => add_returns (t_prog t)) (sys_tasks (step i s))).
  { unfold step. rewrite Hi.
    destruct (step_task (sys_registry s) t) as [reg' t']. cbn [sys_tasks].
    by apply Forall_insert. }
  rewrite (IH (step i s) Hadd' Hun), Hreg.
  destruct Hcase as [Hsame|Hfin]; [done|].
  destruct (run_schedule_task (fun t' => finished t' = true) step_task_stays_finished
              schedule (step i s) i _ Hi' Hfin) as (t' & Hlook & Hfin').
  pose proof (Forall_lookup_1 _ _ _ _ Hun Hlook) as Hno. cbv beta in Hno. congruence.
Qed.

(** ** A callback that passed the registry check *)

Lemma onValueSet_head CHAINS config event :
  onValueSet CHAINS config event
  = Vis (ProcessedHas (eventId_of (log event)))
      (fun seen : bool =>
         try_catch
           (if seen then Ret tt
            else positionInBlock ← describe config event;
                 try_catch (relay CHAINS config event positionInBlock)
                   (fun error =>
                      call (ConsoleError "Error handling ValueSet event:" (Some error))))
           (fun error => call (ConsoleError "Error processing event:" (Some error)))).
Proof. reflexivity. Qed.

Lemma onValueSet_rest_not_lookup CHAINS config event :
  all_ops (@op_not_lookup)
    (try_catch
       (positionInBlock ← describe config event;
        try_catch (relay CHAINS config event positionInBlock)
          (fun error => call (ConsoleError "Error handling ValueSet event:" (Some error))))
       (fun error => call (ConsoleError "Error processing event:" (Some error)))).
Proof.
  unfold relay.
  apply all_ops_try_catch; [|intros e; by apply all_ops_call].
  apply all_ops_bind; [by apply all_ops_describe|]. intros pos.
  apply all_ops_try_catch; [|intros e; by apply all_ops_call].
  apply all_ops_bind; [by apply all_ops_handler|]. intros _.
  by apply all_ops_call.
Qed.

(** The first step of a callback, taken while the registry does not hold the
    identity. *)
Lemma spawn_passes_check CHAINS config d reg :
  eventId_of (log (delivered d)) ∉ reg ->
  let t := (step_task reg (spawn CHAINS config d)).2 in
  on_track (trace (deliver CHAINS config ∅ d)) t
  /\ head (t_trace t) = Some (Ev (ProcessedHas (eventId_of (log (delivered d)))) false).
Proof.
  intros Hid. cbv zeta. unfold step_task, spawn, deliver. cbn [t_prog t_env t_polls t_trace].
  rewrite onValueSet_head. cbn [answer fst snd t_prog t_env t_polls t_trace app].
  rewrite bool_decide_eq_false_2 by done.
  split; [|done]. split; [done|]. split; [apply onValueSet_rest_not_lookup|].
  intros r. rewrite run_Vis. cbn [answer fst snd after trace app].
  rewrite bool_decide_eq_false_2 by apply not_elem_of_empty.
  f_equal. apply run_not_lookup, onValueSet_rest_not_lookup.
Qed.

Lemma step_task_on_track events reg t :
  on_track events t -> on_track events (step_task reg t).2.
Proof.
  intros (Hne & Hp & Hev). unfold step_task.
  destruct (t_prog t) as [r|e|X op k] eqn:Hprog.
  - cbn [snd]. split; [done|]. split; [by rewrite Hprog|]. intros r'. rewrite (Hev r').
    by rewrite Hprog.
  - cbn [snd]. split; [done|]. split; [by rewrite Hprog|]. intros r'. rewrite (Hev r').
    by rewrite Hprog.
  - destruct Hp as [Hop Hk].
    destruct (answer (t_env t) op reg (t_polls t)) as [[x reg'] polls'] eqn:Ha.
    cbn [snd t_trace t_prog t_env t_polls].
    split; [by destruct (t_trace t)|]. split; [apply Hk|]. intros r'.
    rewrite (Hev reg), run_Vis, Ha. cbn [fst snd after trace t_trace t_prog t_env t_polls].
    rewrite <- app_assoc. do 2 f_equal. by apply run_not_lookup.
Qed.

Lemma step_task_head reg t ev :
  head (t_trace t) = Some ev -> head (t_trace (step_task reg t).2) = Some ev.
Proof.
  unfold step_task. destruct (t_prog t) as [r|e|X op k]; [done..|].
  destruct (answer (t_env t) op reg (t_polls t)) as [[x reg'] polls'].
  cbn [snd t_trace]. by destruct (t_trace t).
Qed.

Lemma on_track_prefix events t :
  on_track events t ->
  t_trace t `prefix_of` events /\ (finished t = true -> t_trace t = events).
Proof.
  intros (_ & _ & Hev). split; [by eexists; apply (Hev ∅)|].
  unfold finished. intros Hfin. rewrite (Hev ∅).
  destruct (t_prog t); [by rewrite app_nil_r..|done].
Qed.

(** C4, as amended. Whatever the order in which the callbacks of deliveries
    in flight together are resumed: each delivery reaches the destination
    submission step at most once, so that there are at most as many
    submissions as deliveries (two for a pair); a delivery whose registry
    lookup finds the identity does nothing else; as long as no callback has
    ended the registry is as it was when the deliveries arrived, for it is
    written in the last step of a callback only; and a delivery whose lookup
    is made while the registry does not hold its identity (as is the case
    when the identity was not recorded at the start and no callback has
    ended yet) passes the check and from there on goes through the events of
    its own run alone on an empty registry, whatever the other callbacks do
    meanwhile: it has done a first part of them, and all of them when it has
    ended, the submission included if there is one. *)
Theorem concurrent_deliveries_submit_once_each CHAINS config reg ds schedule :
  let s := run_schedule schedule (start CHAINS config reg ds) in
  Forall (fun t => submissions (t_trace t) ≤ 1) (sys_tasks s)
  /\ sys_submissions s ≤ length ds
  /\ Forall (fun t => forall ev rest,
                t_trace t = ev :: rest -> is_registry_hit ev = true ->
                rest = [] /\ finished t = true) (sys_tasks s)
  /\ (Forall (fun t => finished t = false) (sys_tasks s) -> sys_registry s = reg)
  /\ forall early i late d,
       schedule = early ++ i :: late ->
       i ∉ early ->
       ds !! i = Some d ->
       ((eventId_of (log (delivered d))
           ∉ sys_registry (run_schedule early (start CHAINS config reg ds)))
        \/ ((eventId_of (log (delivered d)) ∉ reg)
            /\ Forall (fun t => finished t = false)
                  (sys_tasks (run_schedule early (start CHAINS config reg ds))))) ->
       exists t,
         sys_tasks s !! i = Some t
         /\ head (t_trace t) = Some (Ev (ProcessedHas (eventId_of (log (delivered d)))) false)
         /\ t_trace t `prefix_of` trace (deliver CHAINS config ∅ d)
         /\ (finished t = true -> t_trace t = trace (deliver CHAINS config ∅ d)).
Proof.
  cbv zeta.
  destruct (run_schedule_in_flight schedule (start CHAINS config reg ds)) as [Hinv Hlen].
  { unfold start. cbn [sys_tasks]. apply Forall_map, Forall_forall.
    intros d _. apply spawn_in_flight. }
  assert (Hone : Forall (fun t => submissions (t_trace t) ≤ 1)
                   (sys_tasks (run_schedule schedule (start CHAINS config reg ds)))).
  { eapply Forall_impl; [exact Hinv|]. intros t [(m & _ & Hle) _]. lia. }
  assert (Hstart : Forall (fun t => add_returns (t_prog t))
                     (sys_tasks (start CHAINS config reg ds))).
  { unfold start. cbn [sys_tasks]. apply Forall_map, Forall_forall.
    intros d _. apply onValueSet_add_returns. }
  split; [done|]. split; [|split; [|split]].
  - unfold sys_submissions. etrans; [by apply sum_list_bound|].
    rewrite Hlen. unfold start. cbn [sys_tasks]. by rewrite length_map.
  - eapply Forall_impl; [exact Hinv|]. intros t [_ Hseen] ev rest Ht Hhit.
    destruct Hseen as [[Hnil _]|(ev' & rest' & Ht' & Himp)]; [congruence|].
    rewrite Ht in Ht'. injection Ht' as Hev <-.
    apply Himp. by rewrite <- Hev.
  - intros Hun.
    by apply (run_schedule_unfinished schedule (start CHAINS config reg ds)).
  - intros early i late d -> Hi Hd Hcase.
    assert (Hid : eventId_of (log (delivered d))
                    ∉ sys_registry (run_schedule early (start CHAINS config reg ds))).
    { destruct Hcase as [Hid|[Hid Hun]]; [done|].
      by rewrite (run_schedule_unfinished early (start CHAINS config reg ds) Hstart Hun). }
    clear Hcase. rewrite run_schedule_app, run_schedule_cons.
    set (s1 := run_schedule early (start CHAINS config reg ds)) in *.
    assert (Hspawn : sys_tasks s1 !! i = Some (spawn CHAINS config d)).
    { unfold s1. rewrite run_schedule_untouched by done.
      unfold start. cbn [sys_tasks]. by rewrite list_lookup_fmap, Hd. }
    destruct (step_same i s1 _ Hspawn) as [Hstep _].
    destruct (spawn_passes_check CHAINS config d (sys_registry s1) Hid) as [Htrack Hhead].
    destruct (run_schedule_task
                (fun t => on_track (trace (deliver CHAINS config ∅ d)) t
                          /\ head (t_trace t)
                             = Some (Ev (ProcessedHas (eventId_of (log (delivered d)))) false))
                (fun r t H => conj (step_task_on_track _ r t (proj1 H))
                                   (step_task_head r t _ (proj2 H)))
                late (step i s1) i _ Hstep (conj Htrack Hhead))
      as (t & Ht & Htrack' & Hhead').
    exists t. split; [done|]. split; [done|]. by apply on_track_prefix.
Qed.

(** Two deliveries of one event: the second looks the identity up after the
    first has, and before the first has ended; both then run to their end. *)
Lemma concurrent_deliveries_submit_once_each_witness :
  let d := {| delivered := sample_event 84532; world := sample_env (ready_at 0) |} in
  let s := run_schedule ([0; 1] ++ replicate 10 0 ++ replicate 10 1)
             (start sample_chains optimism_sepolia ∅ [d; d]) in
  sys_submissions s ≤ 2
  /\ exists t, sys_tasks s !! 1 = Some t
               /\ head (t_trace t) = Some (Ev (ProcessedHas sample_id) false)
               /\ submissions (t_trace t) = 1.
Proof.
  intros d s.
  pose proof (concurrent_deliveries_submit_once_each sample_chains optimism_sepolia ∅
                [d; d] ([0; 1] ++ replicate 10 0 ++ replicate 10 1)) as H.
  cbv zeta in H. destruct H as (_ & Hle & _ & _ & Hpass). split; [exact Hle|].
  destruct (Hpass [0] 1 (replicate 10 0 ++ replicate 10 1) d eq_refl) as (t & Ht & Hhead & _ & Hfin).
  - intros Hin. apply list_elem_of_singleton in Hin. discriminate Hin.
  - reflexivity.
  - right. split; [apply not_elem_of_empty | repeat constructor].
  - exists t. split; [exact Ht|]. split; [exact Hhead|].
    rewrite Hfin; [reflexivity|].
    revert Ht. vm_compute. intros [= <-]. reflexivity.
Defined.

(** C4, as stated, fails: two deliveries of one event arrive together, each
    looks the identity up before the other has finished, and both reach the
    destination submission step. *)
Lemma concurrent_deliveries_both_submit :
  let d := {| delivered := sample_event 84532; world := sample_env (ready_at 0) |} in
  let arrived := start sample_chains optimism_sepolia ∅ [d; d] in
  let looked_up := run_schedule [0; 1] arrived in
  let done := run_schedule (replicate 10 0 ++ replicate 10 1) looked_up in
  map t_trace (sys_tasks looked_up)
    = [[Ev (ProcessedHas sample_id) false]; [Ev (ProcessedHas sample_id) false]]
  /\ map finished (sys_tasks looked_up) = [false; false]
  /\ map finished (sys_tasks done) = [true; true]
  /\ map (fun t => submissions (t_trace t)) (sys_tasks done) = [1; 1]
  /\ sys_submissions done = 2.
Proof. repeat split; reflexivity. Qed.

(** * Properties of the start-up *)

Lemma split_not_nil sep s : Startup.split sep s <> [].
Proof.
  destruct s as [|c rest]; simpl; [done|].
  destruct (bool_decide _); [done|]. by destruct (Startup.split sep rest).
Qed.

Lemma join_split sep s : Startup.join sep (Startup.split sep s) = s.
Proof.
  induction s as [|c rest IH]; [done|]. simpl.
  destruct (bool_decide (c = sep)) eqn:Hc.
  - apply bool_decide_eq_true in Hc as ->.
    pose proof (split_not_nil sep rest).
    destruct (Startup.split sep rest) as [|p ps] eqn:Hs; [done|].
    cbn [Startup.join]. by rewrite <- IH.
  - destruct (Startup.split sep rest) as [|p ps] eqn:Hs.
    + by destruct (split_not_nil sep rest).
    + rewrite <- IH. by destruct ps.
Qed.

Lemma split_free sep s : Forall (fun piece => Startup.free_of sep piece = true) (Startup.split sep s).
Proof.
  induction s as [|c rest IH]; simpl; [by repeat constructor|].
  destruct (bool_decide (c = sep)) eqn:Hc; [by constructor|].
  destruct (Startup.split sep rest) as [|p ps]; [|inversion_clear IH].
  - repeat constructor. simpl. by rewrite Hc.
  - constructor; [|done]. simpl. by rewrite Hc.
Qed.

Lemma validate_cases (A : Type) (env : gmap string string) vars :
  (validate (A := A) env vars = ([], Returned tt)
   /\ Forall (fun v => env_set env v = true) vars)
  \/ (exists before envVar after,
        vars = before ++ envVar :: after
        /\ Forall (fun v => env_set env v = true) before
        /\ env_set env envVar = false
        /\ validate (A := A) env vars
           = ([], Thrown (ErrorMsg ("Missing environment variable: " +:+ envVar)))).
Proof.
  induction vars as [|v vars IH]; [left; by split|]. simpl.
  destruct (env_set env v) eqn:Hv.
  - destruct IH as [[-> Hall] | (before & envVar & after & -> & Hb & Hm & ->)].
    + left. split; [done|]. by constructor.
    + right. exists (v :: before), envVar, after. repeat split; try done. by constructor.
  - right. by exists [], v, vars.
Qed.

Lemma main_validated w :
  Forall (fun v => env_set (Startup.env w) v = true) (Startup.requiredEnvVars w) ->
  Startup.main w
  = match Startup.on_Wallet w with
    | Resolved _ =>
        (Startup.New_Wallet (default "" (Startup.env w !! "PRIVATE_KEY"))
           :: (Startup.listeners w (Startup.CHAINS w)).1,
         (Startup.listeners w (Startup.CHAINS w)).2)
    | Rejected e =>
        ([Startup.New_Wallet (default "" (Startup.env w !! "PRIVATE_KEY"))], Thrown e)
    end.
Proof.
  intros Hall. unfold Startup.main.
  destruct (validate_cases Startup.Action (Startup.env w) (Startup.requiredEnvVars w))
    as [[-> _] | (before & envVar & after & Heq & _ & Hm & _)].
  - simpl. by destruct (Startup.on_Wallet w).
  - rewrite Heq in Hall. apply Forall_app in Hall as [_ Hall].
    inversion_clear Hall. congruence.
Qed.

Lemma main_missing w before envVar after :
  Startup.requiredEnvVars w = before ++ envVar :: after ->
  Forall (fun v => env_set (Startup.env w) v = true) before ->
  env_set (Startup.env w) envVar = false ->
  Startup.main w = ([], Thrown (ErrorMsg ("Missing environment variable: " +:+ envVar))).
Proof.
  intros Heq Hb Hm. unfold Startup.main.
  assert (validate (Startup.env w) (Startup.requiredEnvVars w)
          = ([], Thrown (ErrorMsg ("Missing environment variable: " +:+ envVar)))) as ->; [|done].
  rewrite Heq. clear Heq. induction Hb as [|v before Hv _ IH]; simpl.
  - by rewrite Hm.
  - by rewrite Hv.
Qed.

Lemma activatedChains_nil w :
  Startup.activatedChains w = []
  <-> (Startup.env w !! "RELAYER_ACTIVATED_CHAINS" = None
       \/ Startup.env w !! "RELAYER_ACTIVATED_CHAINS" = Some "").
Proof.
  unfold Startup.activatedChains.
  destruct (Startup.env w !! "RELAYER_ACTIVATED_CHAINS") as [s|]; [|by split; [left|]].
  destruct (bool_decide (s = "")) eqn:Hs.
  - apply bool_decide_eq_true in Hs as ->. by split; [right|].
  - apply bool_decide_eq_false in Hs. split.
    + intros H. by destruct (split_not_nil ","%char s).
    + intros [|[= ->]]; done.
Qed.

(** X10. The script stops at its first lines, with one error line and exit
    code 1 and nothing else done, exactly when [RELAYER_ACTIVATED_CHAINS] is
    unset or empty.  Otherwise the chains activated are the pieces of the
    variable between its commas, taken as they are: there is at least one,
    none holds a comma, and joined by commas they give the variable back. *)
Theorem startup_needs_activated_chains w :
  ((Startup.env w !! "RELAYER_ACTIVATED_CHAINS" = None
    \/ Startup.env w !! "RELAYER_ACTIVATED_CHAINS" = Some "")
   <-> Startup.relayer w
       = [Startup.Console_error
            "No chains are activated. Please set the RELAYER_ACTIVATED_CHAINS environment variable."
            None;
          Startup.Process_exit 1])
  /\ (forall s,
        Startup.env w !! "RELAYER_ACTIVATED_CHAINS" = Some s -> s <> "" ->
        Startup.activatedChains w <> []
        /\ Startup.join ","%char (Startup.activatedChains w) = s
        /\ Forall (fun chainKey => Startup.free_of ","%char chainKey = true)
                  (Startup.activatedChains w)).
Proof.
  split.
  - rewrite <- activatedChains_nil. unfold Startup.relayer. split.
    + by intros ->.
    + destruct (Startup.activatedChains w) as [|k ks] eqn:Hac; [done|].
      rewrite bool_decide_eq_false_2 by done.
      destruct (validate_cases Startup.Action (Startup.env w) (Startup.requiredEnvVars w))
        as [[_ Hall] | (before & envVar & after & Heq & Hb & Hm & _)].
      * rewrite (main_validated w Hall).
        destruct (Startup.on_Wallet w); [|done].
        by destruct (Startup.listeners w (Startup.CHAINS w)).2.
      * by rewrite (main_missing w _ _ _ Heq Hb Hm).
  - intros s Hs Hne. unfold Startup.activatedChains. rewrite Hs.
    rewrite bool_decide_eq_false_2 by done.
    split; [apply split_not_nil|]. split; [apply join_split | apply split_free].
Qed.

Lemma startup_needs_activated_chains_witness :
  Startup.join ","%char (Startup.activatedChains (sample_world sample_vars))
  = "optimism-sepolia,base-sepolia".
Proof.
  refine (proj1 (proj2 (proj2 (startup_needs_activated_chains (sample_world sample_vars))
                          "optimism-sepolia,base-sepolia" _ _))).
  - vm_compute. reflexivity.
  - discriminate.
Defined.

Lemma relayer_ethers w :
  existsb Startup.is_ethers (Startup.relayer w) = true ->
  Startup.activatedChains w <> []
  /\ Forall (fun v => env_set (Startup.env w) v = true) (Startup.requiredEnvVars w).
Proof.
  unfold Startup.relayer.
  destruct (Startup.activatedChains w) as [|k ks] eqn:Hac; [done|].
  rewrite bool_decide_eq_false_2 by done. intros H. split; [done|].
  destruct (validate_cases Startup.Action (Startup.env w) (Startup.requiredEnvVars w))
    as [[_ Hall] | (before & envVar & after & Heq & Hb & Hm & _)]; [done|].
  by rewrite (main_missing w _ _ _ Heq Hb Hm) in H.
Qed.

(** X11. [main] checks the variables it requires in their order and stops
    at the first that is unset or empty: the script then prints the error
    naming that variable and exits with code 1, having created no wallet and
    no listener.  So whenever the script creates a wallet or a listener, or
    asks a chain anything, [PRIVATE_KEY] and the contract address and RPC
    variables of every activated name are set, whether or not the chain
    table has that name. *)
Theorem missing_variable_stops_startup w :
  (forall before envVar after,
     Startup.activatedChains w <> [] ->
     Startup.requiredEnvVars w = before ++ envVar :: after ->
     Forall (fun v => env_set (Startup.env w) v = true) before ->
     env_set (Startup.env w) envVar = false ->
     Startup.relayer w
     = [Startup.Console_error "Error:"
          (Some (ErrorMsg ("Missing environment variable: " +:+ envVar)));
        Startup.Process_exit 1])
  /\ (existsb Startup.is_ethers (Startup.relayer w) = true ->
      env_set (Startup.env w) "PRIVATE_KEY" = true
      /\ forall chainKey, chainKey ∈ Startup.activatedChains w ->
           env_set (Startup.env w) (Startup.env_prefix chainKey +:+ "_CONTRACT_ADDRESS") = true
           /\ env_set (Startup.env w) (Startup.env_prefix chainKey +:+ "_RPC") = true).
Proof.
  split.
  - intros before envVar after Hac Heq Hb Hm. unfold Startup.relayer.
    rewrite bool_decide_eq_false_2 by (by destruct (Startup.activatedChains w)).
    by rewrite (main_missing w _ _ _ Heq Hb Hm).
  - intros H. apply relayer_ethers in H as [_ Hall].
    unfold Startup.requiredEnvVars in Hall. inversion_clear Hall as [|? ? Hkey Hrest].
    split; [done|]. intros chainKey Hin.
    apply Forall_app in Hrest as [Haddr Hrpc].
    rewrite Forall_forall in Haddr. rewrite Forall_forall in Hrpc.
    split; [apply Haddr | apply Hrpc]; apply list_elem_of_fmap; by exists chainKey.
Qed.

Lemma missing_variable_stops_startup_witness :
  Startup.relayer (sample_world (delete "BASE_SEPOLIA_RPC" sample_vars))
  = [Startup.Console_error "Error:"
       (Some (ErrorMsg "Missing environment variable: BASE_SEPOLIA_RPC"));
     Startup.Process_exit 1]
  /\ env_set sample_vars "OPTIMISM_SEPOLIA_RPC" = true.
Proof.
  split.
  - apply (proj1 (missing_variable_stops_startup
                    (sample_world (delete "BASE_SEPOLIA_RPC" sample_vars)))
             ["PRIVATE_KEY"; "OPTIMISM_SEPOLIA_CONTRACT_ADDRESS";
              "BASE_SEPOLIA_CONTRACT_ADDRESS"; "OPTIMISM_SEPOLIA_RPC"]
             "BASE_SEPOLIA_RPC" []).
    + vm_compute. discriminate.
    + vm_compute. reflexivity.
    + repeat constructor.
    + vm_compute. reflexivity.
  - apply (proj2 (missing_variable_stops_startup (sample_world sample_vars))
             ltac:(vm_compute; reflexivity)) with (chainKey := "optimism-sepolia").
    vm_compute. repeat constructor.
Defined.

Lemma subscribed_app a b :
  Startup.subscribed (a ++ b) = Startup.subscribed a ++ Startup.subscribed b.
Proof.
  induction a as [|[] a IH]; simpl; by rewrite ?IH.
Qed.

Lemma exit_app a b :
  existsb Startup.is_exit (a ++ b) = existsb Startup.is_exit a || existsb Startup.is_exit b.
Proof. apply existsb_app. Qed.

(** The loop of [main] over the chains: the listeners go up in the order of
    the table; the first that fails ends the loop with its error. *)
Lemma listeners_cases w entries :
  exists started rest,
    map snd entries = started ++ rest
    /\ Startup.subscribed (Startup.listeners w entries).1 = started
    /\ Forall (answered w) started
    /\ existsb Startup.is_exit (Startup.listeners w entries).1 = false
    /\ match (Startup.listeners w entries).2 with
       | Returned _ => rest = []
       | Thrown e =>
           exists c rest', rest = c :: rest'
             /\ (Startup.on_ChainListener w c = Rejected e
                 \/ Startup.on_getBlockNumber w c = Rejected e)
       end.
Proof.
  induction entries as [|[chainKey c] entries IH].
  { exists [], []. by repeat split. }
  destruct IH as (started & rest & Hmap & Hsub & Hans & Hexit & Hend).
  cbn [Startup.listeners map snd]. unfold Startup.start.
  destruct (Startup.on_ChainListener w c) as [[]|e] eqn:Hnew.
  - destruct (Startup.on_getBlockNumber w c) as [latestBlock|e] eqn:Hblock.
    + exists (c :: started), rest.
      destruct (Startup.listeners w entries) as [acts [r|e]] eqn:Hrun;
        simpl in *; rewrite Hmap; (split; [done|]); (split; [by f_equal|]);
        (split; [constructor; [by split; [|eexists] | done] |]); by split.
    + exists [], (c :: map snd entries). simpl. repeat split; try done.
      exists c, (map snd entries). split; [done | by right].
  - exists [], (c :: map snd entries). simpl. repeat split; try done.
    exists c, (map snd entries). split; [done | by left].
Qed.

(** X12. The listeners are started one after the other in the order of the
    chain table, each only after the one before has read its block number:
    at any end of the script the chains subscribed to are a first part of
    the activated chains of the table, in that order, and each of them had
    its listener built and its block number read.  If the script ends
    without [process.exit], every activated chain of the table is subscribed
    to; a listener that cannot be built or cannot read its block number
    leaves the chains after it without a listener, and the script exits. *)
Theorem listeners_started_in_order w :
  exists started rest,
    map snd (Startup.CHAINS w) = started ++ rest
    /\ Startup.subscribed (Startup.relayer w) = started
    /\ Forall (answered w) started
    /\ (existsb Startup.is_exit (Startup.relayer w) = false -> rest = [])
    /\ (rest <> [] -> last (Startup.relayer w) = Some (Startup.Process_exit 1)).
Proof.
  unfold Startup.relayer.
  destruct (bool_decide (length (Startup.activatedChains w) = 0)).
  { exists [], (map snd (Startup.CHAINS w)). by repeat split. }
  destruct (validate_cases Startup.Action (Startup.env w) (Startup.requiredEnvVars w))
    as [[_ Hall] | (before & envVar & after & Heq & Hb & Hm & _)].
  - rewrite (main_validated w Hall). destruct (Startup.on_Wallet w) as [[]|e].
    + destruct (listeners_cases w (Startup.CHAINS w))
        as (started & rest & Hmap & Hsub & Hans & Hexit & Hend).
      exists started, rest.
      destruct (Startup.listeners w (Startup.CHAINS w)) as [acts [r|e]]; simpl in *.
      * subst rest. by repeat split.
      * split; [done|]. rewrite subscribed_app, exit_app, Hexit. simpl.
        rewrite app_nil_r. split; [done|]. split; [done|]. split; [done|].
        intros _. by rewrite app_comm_cons, last_app.
    + exists [], (map snd (Startup.CHAINS w)). by repeat split.
  - rewrite (main_missing w _ _ _ Heq Hb Hm).
    exists [], (map snd (Startup.CHAINS w)). by repeat split.
Qed.

Lemma find_all_false {A : Type} (f : A -> bool) (l : list A) :
  (forall x, x ∈ l -> f x = false) -> find f l = None.
Proof.
  induction l as [|x l IH]; intros H; [done|]. simpl.
  rewrite (H x) by constructor. apply IH. intros y Hy. apply H. by constructor.
Qed.

Lemma CHAINS_activated w chainKey c :
  Startup.activatedChains w <> [] ->
  (chainKey, c) ∈ Startup.CHAINS w <->
  chainKey ∈ Startup.activatedChains w /\ (chainKey, c) ∈ Startup.chains w.
Proof.
  intros Hac. unfold Startup.CHAINS. rewrite list_elem_of_filter. simpl.
  split; [|intros []; split; [by right | done]].
  intros [[Hlen | Hin] ?]; [|done].
  by destruct (Startup.activatedChains w).
Qed.

(** X13. A proof is relayed only to a chain that is both in the chain table
    and activated: the destination a relay attempt resolves is such a chain,
    and an event bound for any other chain ID, that of a chain of the table
    that is not activated included, gets the error line of a missing
    configuration and nothing else. *)
Theorem relays_only_to_activated_chains w config env input reg n :
  Startup.activatedChains w <> [] ->
  (forall c, destination_of (map snd (Startup.CHAINS w)) (d_args input) = Some c ->
     exists chainKey,
       chainKey ∈ Startup.activatedChains w /\ (chainKey, c) ∈ Startup.chains w
       /\ chainId c = destinationChainId (d_args input))
  /\ ((forall chainKey c,
         (chainKey, c) ∈ Startup.chains w -> chainKey ∈ Startup.activatedChains w ->
         chainId c <> destinationChainId (d_args input)) ->
      run env (handleValueSetEvent (map snd (Startup.CHAINS w)) config input) reg n
      = Build_Run unit (Returned tt) reg n
          [Ev (ConsoleError ("No configuration found for destination chain ID: "
                             +:+ pretty (destinationChainId (d_args input))) None) tt]).
Proof.
  intros Hac. split.
  - intros c Hc. apply destination_of_Some in Hc as [Hin Hid].
    apply list_elem_of_fmap in Hin as ([chainKey c'] & -> & Hin).
    apply CHAINS_activated in Hin as [? ?]; [|done]. by exists chainKey.
  - intros Hother. apply handler_unresolved. unfold destination_of.
    apply find_all_false. intros c Hin.
    apply list_elem_of_fmap in Hin as ([chainKey c'] & -> & Hin).
    apply CHAINS_activated in Hin as [? ?]; [|done].
    apply bool_decide_eq_false. intros Heq. apply (inj pretty) in Heq.
    by apply (Hother chainKey c').
Qed.

Lemma relays_only_to_activated_chains_witness :
  (arbitrum_sepolia ∈ map snd (Startup.chains (sample_world sample_vars)))
  /\ trace (run (sample_env never_ready)
              (handleValueSetEvent (map snd (Startup.CHAINS (sample_world sample_vars)))
                 optimism_sepolia (data_of (sample_event 421614) 0))
              ∅ 0)
     = [Ev (ConsoleError "No configuration found for destination chain ID: 421614" None) tt].
Proof.
  split; [vm_compute; repeat constructor|].
  rewrite (proj2 (relays_only_to_activated_chains (sample_world sample_vars)
                    optimism_sepolia (sample_env never_ready) (data_of (sample_event 421614) 0) ∅ 0
                    ltac:(vm_compute; discriminate))); [reflexivity|].
  intros chainKey c Hin Hact.
  assert (Hkeys : chainKey = "optimism-sepolia" \/ chainKey = "base-sepolia").
  { assert (Startup.activatedChains (sample_world sample_vars)
            = ["optimism-sepolia"; "base-sepolia"]) as Hac by (vm_compute; reflexivity).
    rewrite Hac in Hact.
    apply elem_of_cons in Hact as [Hact|Hact]; [by left|].
    apply elem_of_cons in Hact as [Hact|Hact]; [by right|].
    by apply elem_of_nil in Hact. }
  revert Hin. unfold sample_world. cbn [Startup.chains]. intros Hin.
  repeat (apply elem_of_cons in Hin as [Hin|Hin];
          [injection Hin as -> ->; destruct Hkeys; (done || by vm_compute)|]).
  by apply elem_of_nil in Hin.
Defined.

Lemma upper_hyphen c :
  bool_decide (Startup.upper c = "-"%char) = bool_decide (c = "-"%char).
Proof. by destruct c as [[] [] [] [] [] [] [] []]. Qed.

Lemma toUpperCase_app a b :
  Startup.toUpperCase (a +:+ b) = Startup.toUpperCase a +:+ Startup.toUpperCase b.
Proof. induction a as [|c a IH]; [done|]. simpl. by rewrite IH. Qed.

Lemma toUpperCase_hyphen_free s :
  hyphen_free (Startup.toUpperCase s) = hyphen_free s.
Proof. induction s as [|c s IH]; [done|]. simpl. by rewrite upper_hyphen, IH. Qed.

Lemma replace_hyphen_free s :
  hyphen_free s = true -> Startup.replace_hyphen s = s.
Proof.
  induction s as [|c s IH]; [done|]. simpl.
  destruct (bool_decide (c = "-"%char)); [done|]. simpl. intros H. by rewrite IH.
Qed.

Lemma replace_hyphen_first a b :
  hyphen_free a = true ->
  Startup.replace_hyphen (a +:+ String "-" b) = a +:+ String "_" b.
Proof.
  induction a as [|c a IH]; [done|]. simpl.
  destruct (bool_decide (c = "-"%char)); [done|]. simpl. intros H. by rewrite IH.
Qed.

(** X14. The names of the required variables are made from the chain key in
    capitals with its first hyphen, and only the first, turned into an
    underscore: a key without a hyphen gives its capitals, a key with one
    hyphen gives the capitals of its two parts around an underscore, and
    every hyphen after the first stays in the name. *)
Theorem variable_prefix_first_hyphen a b :
  hyphen_free a = true ->
  Startup.env_prefix a = Startup.toUpperCase a
  /\ Startup.env_prefix (a +:+ String "-" b)
     = Startup.toUpperCase a +:+ String "_" (Startup.toUpperCase b)
  /\ hyphen_free (Startup.toUpperCase b) = hyphen_free b.
Proof.
  intros Ha. unfold Startup.env_prefix.
  split; [by rewrite replace_hyphen_free; rewrite ?toUpperCase_hyphen_free|].
  split; [|apply toUpperCase_hyphen_free].
  rewrite toUpperCase_app. cbn [Startup.toUpperCase].
  change (Startup.upper "-") with "-"%char.
  by rewrite replace_hyphen_first; rewrite ?toUpperCase_hyphen_free.
Qed.

Lemma variable_prefix_first_hyphen_witness :
  Startup.env_prefix "arbitrum-sepolia-test" = "ARBITRUM_SEPOLIA-TEST".
Proof.
  exact (proj1 (proj2 (variable_prefix_first_hyphen "arbitrum" "sepolia-test" eq_refl))).
Defined.

(** * Properties of [setValue.js] *)

Lemma main_confirmed w answers src dst bytes :
  confirmed w answers src dst bytes ->
  SetValue.main w
  = (before_try w answers
       ++ (script_catch (SetValue.send w answers src dst) (SetValue.report w)).1,
     (script_catch (SetValue.send w answers src dst) (SetValue.report w)).2).
Proof.
  intros (Hvars & Hwallet & Hans & Hsrc & Hdst & Hbytes & Hconf).
  unfold SetValue.main, SetValue.config_of.
  destruct (validate_cases SetValue.Action (SetValue.env w) SetValue.requiredEnvVars)
    as [[-> _] | (before & envVar & after & Heq & _ & Hm & _)].
  - rewrite Hwallet, Hans. simpl. rewrite Hsrc. simpl. rewrite Hdst. simpl.
    rewrite Hbytes, Hconf. simpl. 
    by destruct (script_catch _ _).
  - rewrite Heq in Hvars. apply Forall_app in Hvars as [_ Hvars].
    inversion_clear Hvars. congruence.
Qed.

Lemma main_cases w :
  (exists answers src dst bytes, confirmed w answers src dst bytes)
  \/ existsb SetValue.is_contract (SetValue.setValue w) = false.
Proof.
  unfold SetValue.setValue, SetValue.main, SetValue.config_of.
  destruct (validate_cases SetValue.Action (SetValue.env w) SetValue.requiredEnvVars)
    as [[Hv Hvars] | (before & envVar & after & _ & _ & _ & Hv)]; rewrite Hv;
    [|by right].
  destruct (SetValue.on_Wallet w) as [[]|e] eqn:Hwallet; [|by right].
  destruct (SetValue.on_answers w) as [answers|e] eqn:Hans; [|by right].
  simpl.
  destruct (SetValue.chain_of w (SetValue.sourceChain answers)) as [src|] eqn:Hsrc;
    [|by right].
  simpl.
  destruct (SetValue.chain_of w (SetValue.destinationChain answers)) as [dst|] eqn:Hdst;
    [|by right].
  simpl.
  destruct (SetValue.on_toUtf8Bytes w) as [bytes|e] eqn:Hbytes; [|by right].
  destruct (SetValue.on_confirmation w) as [[]|e] eqn:Hconf; [|by right|by right].
  left. by exists answers, src, dst, bytes.
Qed.

(** X15. The destination offered is the chain that is not the source: for a
    source among the choices of the first question, the second question
    offers one choice, and with answers among the choices the two chains
    differ, both are in the table, and their chain IDs differ. *)
Theorem destination_differs_from_source w answers :
  SetValue.sourceChain answers ∈ map snd SetValue.source_choices ->
  SetValue.destinationChain answers
    ∈ map snd (SetValue.destination_choices w (SetValue.sourceChain answers)) ->
  SetValue.destinationChain answers <> SetValue.sourceChain answers
  /\ length (SetValue.destination_choices w (SetValue.sourceChain answers)) = 1
  /\ exists src dst,
       SetValue.chain_of w (SetValue.sourceChain answers) = Some src
       /\ SetValue.chain_of w (SetValue.destinationChain answers) = Some dst
       /\ chainId src <> chainId dst.
Proof.
  destruct answers as [source destination k v]. simpl. intros Hsrc.
  apply elem_of_cons in Hsrc as [->|Hsrc];
    [|apply list_elem_of_singleton in Hsrc as ->];
    intros Hdst; apply list_elem_of_singleton in Hdst as ->;
    (split; [done|]); (split; [done|]); eexists _, _;
    (split; [reflexivity|]); (split; [reflexivity|]); done.
Qed.

Lemma destination_differs_from_source_witness :
  SetValue.destinationChain sample_answers <> SetValue.sourceChain sample_answers.
Proof.
  apply (destination_differs_from_source (setValue_world true (Resolved 21000%N))
           sample_answers).
  - simpl. apply elem_of_cons. by left.
  - simpl. by apply list_elem_of_singleton.
Defined.

(** X16. Nothing goes to the contract unless the user confirmed: if the
    script builds the contract, estimates gas, sends the transaction or
    waits for it, then the five variables are set, the wallet was created,
    both chains answered are in the table, the value was encoded and the
    confirmation prompt returned true. *)
Theorem no_contract_call_without_confirmation w :
  existsb SetValue.is_contract (SetValue.setValue w) = true ->
  exists answers src dst bytes, confirmed w answers src dst bytes.
Proof.
  intros H. destruct (main_cases w) as [?|Hnone]; [done|]. congruence.
Qed.

Lemma no_contract_call_without_confirmation_witness :
  exists answers src dst bytes,
    confirmed (setValue_world true (Resolved 21000%N)) answers src dst bytes.
Proof.
  apply no_contract_call_without_confirmation. vm_compute. reflexivity.
Defined.

Lemma send_cases w answers src dst bytes :
  SetValue.on_toUtf8Bytes w = Resolved bytes ->
  let attempt := script_catch (SetValue.send w answers src dst) (SetValue.report w) in
  attempt.2 = Returned tt
  /\ existsb SetValue.is_exit attempt.1 = false
  /\ Forall (sent_as w answers src dst bytes) attempt.1
  /\ length (filter (fun a => SetValue.is_transaction a = true) attempt.1) <= 1
  /\ (forall e, SetValue.on_Contract w = Resolved tt ->
        SetValue.on_estimateGas w = Rejected e ->
        attempt.1
        = [SetValue.New_Contract src; SetValue.ToUtf8Bytes (SetValue.value answers);
           SetValue.EstimateGas src (SetValue.key answers) bytes (chainId dst)]
          ++ (SetValue.report w e).1).
Proof.
  intros Hbytes. cbv zeta. unfold SetValue.send, SetValue.report.
  rewrite Hbytes.
  destruct (SetValue.on_Contract w) as [[]|e0] eqn:Hcontract; simpl.
  2:{ destruct (truthy (SetValue.error_data w e0)); simpl;
        repeat split; repeat constructor; done. }
  destruct (SetValue.on_estimateGas w) as [gas|e1] eqn:Hgas; simpl.
  2:{ destruct (truthy (SetValue.error_data w e1)) eqn:Hd; simpl;
        (split; [done|]); (split; [done|]); (split; [by repeat constructor|]);
        (split; [by repeat constructor|]); intros e _ [= <-]; by rewrite Hd. }
  destruct (SetValue.on_setValue w) as [tx|e2]; simpl.
  2:{ destruct (truthy (SetValue.error_data w e2)); simpl;
        (split; [done|]); (split; [done|]); (split; [by repeat constructor|]);
        (split; [by repeat constructor|]); done. }
  destruct (SetValue.on_wait w) as [receipt|e3]; simpl.
  2:{ destruct (truthy (SetValue.error_data w e3)); simpl;
        (split; [done|]); (split; [done|]); (split; [by repeat constructor|]);
        (split; [by repeat constructor|]); done. }
  destruct (find _ (SetValue.logs receipt)) as [valueSetEvent|]; simpl.
  2:{ (split; [done|]); (split; [done|]); (split; [by repeat constructor|]);
        (split; [by repeat constructor|]); done. }
  destruct (SetValue.on_toUtf8String w) as [text|e4]; simpl.
  2:{ destruct (truthy (SetValue.error_data w e4)); simpl;
        (split; [done|]); (split; [done|]); (split; [by repeat constructor|]);
        (split; [by repeat constructor|]); done. }
  (split; [done|]); (split; [done|]); (split; [by repeat constructor|]);
    (split; [by repeat constructor|]); done.
Qed.

Lemma setValue_confirmed w answers src dst bytes :
  confirmed w answers src dst bytes ->
  SetValue.setValue w
  = before_try w answers
      ++ (script_catch (SetValue.send w answers src dst) (SetValue.report w)).1.
Proof.
  intros Hc. unfold SetValue.setValue. rewrite (main_confirmed _ _ _ _ _ Hc).
  destruct Hc as (_ & _ & _ & _ & _ & Hbytes & _).
  by destruct (send_cases w answers src dst bytes Hbytes) as (-> & _).
Qed.

(** X17. Once the user has confirmed, a failure does not end the script
    with an error: whatever then fails, [main] returns and the script does
    not call [process.exit].  When the gas estimation is refused, the script
    prints the message of the error, with the data of the error if it has
    any, right after the estimation, and sends no transaction. *)
Theorem failure_after_confirmation_is_reported w answers src dst bytes :
  confirmed w answers src dst bytes ->
  (SetValue.main w).2 = Returned tt
  /\ existsb SetValue.is_exit (SetValue.setValue w) = false
  /\ forall e,
       SetValue.on_Contract w = Resolved tt ->
       SetValue.on_estimateGas w = Rejected e ->
       SetValue.setValue w
       = before_try w answers
           ++ [SetValue.New_Contract src; SetValue.ToUtf8Bytes (SetValue.value answers);
               SetValue.EstimateGas src (SetValue.key answers) bytes (chainId dst);
               SetValue.Console_error [SetValue.Text "Error:";
                                       SetValue.Text (SetValue.message e)]]
           ++ (if truthy (SetValue.error_data w e)
               then [SetValue.Console_error [SetValue.Text "Error data:";
                                             SetValue.Val (SetValue.error_data w e)]]
               else [])
       /\ existsb SetValue.is_transaction (SetValue.setValue w) = false.
Proof.
  intros Hc. rewrite (setValue_confirmed _ _ _ _ _ Hc), (main_confirmed _ _ _ _ _ Hc).
  destruct Hc as (_ & _ & _ & _ & _ & Hbytes & _).
  destruct (send_cases w answers src dst bytes Hbytes) as (Hret & Hexit & _ & _ & Hgas).
  split; [done|]. split; [by rewrite existsb_app, Hexit|].
  intros e Hcontract Hest. rewrite (Hgas e Hcontract Hest). unfold SetValue.report.
  by destruct (truthy (SetValue.error_data w e)).
Qed.

Lemma failure_after_confirmation_is_reported_witness :
  SetValue.setValue (setValue_world true (Rejected (External "execution reverted")))
  = [SetValue.New_Wallet "0x01"; SetValue.Prompt_answers; SetValue.ToUtf8Bytes "hi";
     SetValue.Prompt_confirmation;
     SetValue.New_Contract
       {| name := "Optimism Sepolia"; chainId := 11155420;
          rpcUrl := "https://sepolia.optimism.io"; contractAddress := "0x0a" |};
     SetValue.ToUtf8Bytes "hi";
     SetValue.EstimateGas
       {| name := "Optimism Sepolia"; chainId := 11155420;
          rpcUrl := "https://sepolia.optimism.io"; contractAddress := "0x0a" |}
       "greeting" ["h"; "i"]%byte 84532;
     SetValue.Console_error [SetValue.Text "Error:"; SetValue.Text "execution reverted"]].
Proof.
  refine (proj1 (proj2 (proj2 (failure_after_confirmation_is_reported
            (setValue_world true (Rejected (External "execution reverted")))
            sample_answers
            {| name := "Optimism Sepolia"; chainId := 11155420;
               rpcUrl := "https://sepolia.optimism.io"; contractAddress := "0x0a" |}
            {| name := "Base Sepolia"; chainId := 84532;
               rpcUrl := "https://sepolia.base.org"; contractAddress := "0x0b" |}
            ["h"; "i"]%byte _))
            (External "execution reverted") eq_refl eq_refl)).
  unfold confirmed. repeat split; try reflexivity. vm_compute. repeat constructor.
Defined.

(** X18. Every call the script makes to the contract is made on the
    contract of the source chain answered, with the key entered, the bytes
    [toUtf8Bytes] gave for the value, and the chain ID of the destination
    answered; the transaction carries as its gas limit the estimate the
    estimation returned.  The script sends at most one transaction. *)
Theorem contract_calls_as_answered w answers src dst bytes :
  confirmed w answers src dst bytes ->
  Forall (sent_as w answers src dst bytes) (SetValue.setValue w)
  /\ length (filter (fun a => SetValue.is_transaction a = true) (SetValue.setValue w)) <= 1.
Proof.
  intros Hc. rewrite (setValue_confirmed _ _ _ _ _ Hc).
  destruct Hc as (_ & _ & _ & _ & _ & Hbytes & _).
  destruct (send_cases w answers src dst bytes Hbytes) as (_ & _ & Hsent & Hone & _).
  split.
  - apply Forall_app. split; [by repeat constructor | done].
  - by rewrite filter_app.
Qed.

Lemma contract_calls_as_answered_witness :
  Forall (sent_as (setValue_world true (Resolved 21000%N)) sample_answers
            {| name := "Optimism Sepolia"; chainId := 11155420;
               rpcUrl := "https://sepolia.optimism.io"; contractAddress := "0x0a" |}
            {| name := "Base Sepolia"; chainId := 84532;
               rpcUrl := "https://sepolia.base.org"; contractAddress := "0x0b" |}
            ["h"; "i"]%byte)
         (SetValue.setValue (setValue_world true (Resolved 21000%N))).
Proof.
  refine (proj1 (contract_calls_as_answered _ _ _ _ _ _)).
  unfold confirmed. repeat split; try reflexivity. vm_compute. repeat constructor.
Defined.
